(** * tsfin: the portfolio ledger, carry-forward and value-weighted metrics

    A shallow embedding of [tsfin/portfolio/portfolio.py]: the trade merge,
    the date-keyed position ledger, [carry_to], [add_trade], [value] and the
    nine value-weighted metric queries, followed by the properties the
    specification states about them.

    Modelling conventions.
    - Python numbers are exact rationals ([Qc]) extended with a not-a-number
      value; rounding and infinities of binary floating point are idealised
      away, so statements say which operations the code performs and in
      which order, and do not identify results of different evaluation
      orders.  Division follows Python's [int] and [float]: a zero divisor
      raises [ZeroDivisionError].  Operands of type [numpy.float64], for
      which a zero divisor yields nan or an infinity with a warning, are
      outside the model.
    - A Python [dict] is an insertion-ordered association list; assignment to
      a present key keeps its place, assignment to a new key appends.
    - Dates are totally ordered timestamps, represented by [Z];
      [pd.to_datetime] is the identity on them.
    - Methods run in a state-and-exception monad: the portfolio is threaded
      through and survives a raised exception, as the mutated Python object
      does.  Text written by [print] is kept in the [stdout] component. *)

From Stdlib Require Import ZArith QArith Qcanon String List Bool Lia.
Import ListNotations.

(** ** Python numbers *)

Inductive num : Type :=
| Fin (q : Qc)
| NaN.

Declare Scope num_scope.
Delimit Scope num_scope with num.
Bind Scope num_scope with num.

Definition nzero : num := Fin 0%Qc.
Definition none : num := Fin 1%Qc.

Definition nadd (a b : num) : num :=
  match a, b with
  | Fin x, Fin y => Fin (x + y)%Qc
  | _, _ => NaN
  end.

Definition nsub (a b : num) : num :=
  match a, b with
  | Fin x, Fin y => Fin (x - y)%Qc
  | _, _ => NaN
  end.

Definition nmul (a b : num) : num :=
  match a, b with
  | Fin x, Fin y => Fin (x * y)%Qc
  | _, _ => NaN
  end.

Infix "+" := nadd : num_scope.
Infix "-" := nsub : num_scope.
Infix "*" := nmul : num_scope.

(** [np.isnan] *)
Definition isnan (a : num) : bool :=
  match a with NaN => true | Fin _ => false end.

(** [a == 0]; a not-a-number compares unequal to everything. *)
Definition eq_zero (a : num) : bool :=
  match a with Fin x => Qc_eq_bool x 0%Qc | NaN => false end.

(** Numerals for examples: [z # d] as a number. *)
Definition frac (z : Z) (d : positive) : num := Fin (Q2Qc (z # d)).
Definition int (z : Z) : num := frac z 1.

(** ** Exceptions and outcomes *)

Inductive exn : Type :=
| ValueError
| AttributeError
| KeyError
| ZeroDivisionError.

Inductive result (A : Type) : Type :=
| Ok (a : A)
| Raise (e : exn).

Arguments Ok {A} a.
Arguments Raise {A} e.

(** [a / b] on Python floats. *)
Definition ndiv (a b : num) : result num :=
  match b with
  | NaN => Ok NaN
  | Fin y =>
      if Qc_eq_bool y 0%Qc then Raise ZeroDivisionError
      else match a with
           | Fin x => Ok (Fin (x / y)%Qc)
           | NaN => Ok NaN
           end
  end.

(** ** Insertion-ordered dictionaries *)

Section Dict.
Variables K V : Type.
Variable eqb : K -> K -> bool.

Definition dict := list (K * V).

Fixpoint dict_get (k : K) (d : dict) : option V :=
  match d with
  | [] => None
  | (k', v) :: r => if eqb k k' then Some v else dict_get k r
  end.

Definition dict_mem (k : K) (d : dict) : bool :=
  match dict_get k d with Some _ => true | None => false end.

(** [d.get(k, dflt)] *)
Definition dict_get_or (k : K) (dflt : V) (d : dict) : V :=
  match dict_get k d with Some v => v | None => dflt end.

(** [d[k] = v] *)
Fixpoint dict_set (k : K) (v : V) (d : dict) : dict :=
  match d with
  | [] => [(k, v)]
  | (k', v') :: r =>
      if eqb k k' then (k', v) :: r else (k', v') :: dict_set k v r
  end.

(** [del d[k]] on a present key. *)
Fixpoint dict_del (k : K) (d : dict) : dict :=
  match d with
  | [] => []
  | (k', v') :: r => if eqb k k' then r else (k', v') :: dict_del k r
  end.

Definition dict_keys (d : dict) : list K := map fst d.
Definition dict_values (d : dict) : list V := map snd d.

(** Keys of a dictionary are pairwise different. *)
Fixpoint uniq_keys (d : dict) : bool :=
  match d with
  | [] => true
  | (k, _) :: r => negb (dict_mem k r) && uniq_keys r
  end.
End Dict.

Arguments dict_get {K V} eqb k d.
Arguments dict_mem {K V} eqb k d.
Arguments dict_get_or {K V} eqb k dflt d.
Arguments dict_set {K V} eqb k v d.
Arguments dict_del {K V} eqb k d.
Arguments dict_keys {K V} d.
Arguments dict_values {K V} d.
Arguments uniq_keys {K V} eqb d.

(** ** Trades: [collections.namedtuple('trade', 'qty price')] *)

Record trade : Type := mk_trade { qty : num; price : num }.

Definition merge_trades (old new : trade) : result trade :=
  match ndiv (qty old * price old + qty new * price new) (qty old + qty new) with
  | Ok p => Ok (mk_trade (qty old + qty new) p)
  | Raise e => Raise e
  end.

(** ** Searching the sorted ledger dates *)

Abbreviation date := Z (only parsing).

(** [sorted(...)] on dates: insertion sort. *)
Fixpoint insert_sorted (x : date) (l : list date) : list date :=
  match l with
  | [] => [x]
  | y :: r => if (x <=? y)%Z then x :: y :: r else y :: insert_sorted x r
  end.

Fixpoint sorted (l : list date) : list date :=
  match l with
  | [] => []
  | x :: r => insert_sorted x (sorted r)
  end.

(** [bisect.bisect_left] on a sorted list: the number of leading elements
    strictly below [x], which is the leftmost insertion point. *)
Fixpoint bisect_left (a : list date) (x : date) : nat :=
  match a with
  | [] => O
  | y :: r => if (y <? x)%Z then S (bisect_left r x) else O
  end.

(** [bisect.bisect_right]: the number of leading elements not above [x]. *)
Fixpoint bisect_right (a : list date) (x : date) : nat :=
  match a with
  | [] => O
  | y :: r => if (y <=? x)%Z then S (bisect_right r x) else O
  end.

Definition find_gt (d : date) (sorted_dates : list date) : result date :=
  let i := bisect_right sorted_dates d in
  if negb (Nat.eqb i (length sorted_dates)) then Ok (nth i sorted_dates 0%Z)
  else Raise ValueError.

Definition find_lt (d : date) (sorted_dates : list date) : result date :=
  let i := bisect_left sorted_dates d in
  match i with
  | O => Raise ValueError
  | S j => Ok (nth j sorted_dates 0%Z)
  end.

(** ** Instrument objects

    The capability contract of an instrument: the three required methods
    and, per metric, a method that is present or absent.  The yield curve and
    the calibrated model parameters are opaque to the portfolio, which hands
    them on unchanged. *)

Inductive metric : Type :=
| Ytm
| Ytw
| Zspread_to_mat
| Zspread_to_worst
| Zspread_to_worst_rolling_call
| Mod_duration_to_mat
| Mod_duration_to_worst
| Mod_duration_to_worst_rolling_call
| Oas.

Inductive curve : Type := Curve (id : Z).
Inductive params : Type := Params (id : Z).

(** What a metric method receives besides [date]. *)
Inductive extra : Type :=
| No_extra
| With_curve (yield_curve_timeseries : curve)
| With_model (yield_curve_timeseries : curve) (model_params : params).

Module Security.
Record t : Type := mk {
  ts_name : option string;
  name : option string;
  value : date -> num;
  is_expired : date -> bool;
  cash_to_date : date -> date -> num;
  method : metric -> option (date -> extra -> num)
}.
End Security.

(** What [get_security] returns: an object of the collection, or the default
    of [next], the list [[None]], on which every attribute access raises
    [AttributeError]. *)
Inductive resolved : Type :=
| Found (obj : Security.t)
| None_list.

Definition attr_eqb (security_name : string) (attr : option string) : bool :=
  match attr with
  | Some s => String.eqb security_name s
  | None => false
  end.

Definition call_value (r : resolved) (d : date) : result num :=
  match r with
  | Found s => Ok (Security.value s d)
  | None_list => Raise AttributeError
  end.

Definition call_cash_to_date (r : resolved) (start_date d : date) : result num :=
  match r with
  | Found s => Ok (Security.cash_to_date s start_date d)
  | None_list => Raise AttributeError
  end.

Definition call_is_expired (r : resolved) (d : date) : result bool :=
  match r with
  | Found s => Ok (Security.is_expired s d)
  | None_list => Raise AttributeError
  end.

Definition call_method (m : metric) (r : resolved) (d : date) (ex : extra)
  : result num :=
  match r with
  | Found s =>
      match Security.method s m with
      | Some f => Ok (f d ex)
      | None => Raise AttributeError
      end
  | None_list => Raise AttributeError
  end.

(** ** The portfolio object and its methods *)

(** Lines written by [print]. *)
Inductive line : Type :=
| Null_value (security_name : string) (d : date)
| Null_metric (m : metric) (security_name : string) (d : date).

Definition snapshot := dict string num.

Record portfolio : Type := mk_portfolio {
  positions : dict date snapshot;
  trades : dict date (dict string trade);
  currency : string;
  security_objects : list Security.t;
  stdout : list line
}.

(** [Portfolio(currency, security_objects)] *)
Definition init (cur : string) (so : option (list Security.t)) : portfolio :=
  mk_portfolio [] [] cur (match so with Some l => l | None => [] end) [].

Definition set_positions (p : dict date snapshot) (st : portfolio) : portfolio :=
  mk_portfolio p (trades st) (currency st) (security_objects st) (stdout st).

Definition set_trades (t : dict date (dict string trade)) (st : portfolio)
  : portfolio :=
  mk_portfolio (positions st) t (currency st) (security_objects st) (stdout st).

Definition M (A : Type) : Type := portfolio -> result A * portfolio.

Definition ret {A} (a : A) : M A := fun st => (Ok a, st).

Definition bind {A B} (m : M A) (k : A -> M B) : M B :=
  fun st =>
    match m st with
    | (Ok a, st') => k a st'
    | (Raise e, st') => (Raise e, st')
    end.

Definition lift {A} (r : result A) : M A := fun st => (r, st).

Definition gets {A} (f : portfolio -> A) : M A := fun st => (Ok (f st), st).

Definition print (l : line) : M unit :=
  fun st =>
    (Ok tt, mk_portfolio (positions st) (trades st) (currency st)
                         (security_objects st) (stdout st ++ [l])).

(** [try: body except AttributeError: handler] *)
Definition except_attribute_error {A} (body handler : M A) : M A :=
  fun st =>
    match body st with
    | (Raise AttributeError, st') => handler st'
    | out => out
    end.

Notation "x <- m ;; k" := (bind m (fun x => k))
  (at level 61, m at next level, right associativity).
Notation "m ;;; k" := (bind m (fun _ => k))
  (at level 61, right associativity).

(** [for x in l: body x] *)
Fixpoint for_each {A} (l : list A) (body : A -> M unit) : M unit :=
  match l with
  | [] => ret tt
  | x :: r => body x ;;; for_each r body
  end.

(** A loop that also updates a local variable. *)
Fixpoint for_fold {A B} (l : list A) (body : B -> A -> M B) (b : B) : M B :=
  match l with
  | [] => ret b
  | x :: r => b' <- body b x ;; for_fold r body b'
  end.

(** [d[k]] *)
Definition subscript {K V} (eqb : K -> K -> bool) (k : K) (d : dict K V)
  : result V :=
  match dict_get eqb k d with
  | Some v => Ok v
  | None => Raise KeyError
  end.

(** [self.positions[date]] *)
Definition positions_at (d : date) : M snapshot :=
  fun st => (subscript Z.eqb d (positions st), st).

(** [self.positions[date][name] = v] *)
Definition store (d : date) (name : string) (v : num) : M unit :=
  snap <- positions_at d ;;
  fun st =>
    (Ok tt,
     set_positions
       (dict_set Z.eqb d (dict_set String.eqb name v snap) (positions st)) st).

Definition objects_or_default (so : option (list Security.t)) (st : portfolio)
  : list Security.t :=
  match so with
  | None => security_objects st
  | Some l => l
  end.

Definition add_position (d : date) (name : string) (q : num) : M unit :=
  fun st =>
    match dict_get Z.eqb d (positions st) with
    | Some snap =>
        store d name (dict_get_or String.eqb name nzero snap + q)%num st
    | None =>
        (Ok tt, set_positions (dict_set Z.eqb d [(name, q)] (positions st)) st)
    end.

(** With [qty] omitted the source pops the key [date] from the snapshot,
    whose keys are names: no name is a date, so nothing is removed. *)
Definition remove_position (d : date) (name : string) (q : option num)
  : M unit :=
  fun st =>
    match dict_get Z.eqb d (positions st) with
    | Some snap =>
        match q with
        | None => (Ok tt, st)
        | Some q' =>
            store d name (dict_get_or String.eqb name nzero snap - q')%num st
        end
    | None => (Ok tt, st)
    end.

Definition get_security (security_name : string)
  (security_objects : list Security.t) : resolved :=
  match
    find (fun obj => attr_eqb security_name (Security.ts_name obj)
                     || attr_eqb security_name (Security.name obj))
         security_objects
  with
  | Some obj => Found obj
  | None => None_list
  end.

Definition carry_body (d previous_date : date) (objs : list Security.t)
  (security_name : string) : M unit :=
  let security := get_security security_name objs in
  cur <- gets currency ;;
  cash <- lift (call_cash_to_date security previous_date d) ;;
  add_position d cur cash ;;;
  expired <- lift (call_is_expired security d) ;;
  if negb expired then
    prev <- positions_at previous_date ;;
    q <- lift (subscript String.eqb security_name prev) ;;
    add_position d security_name q
  else ret tt.

Definition carry_to (d : date) (so : option (list Security.t)) : M unit :=
  objs <- gets (objects_or_default so) ;;
  present <- gets (fun st => dict_mem Z.eqb d (positions st)) ;;
  if negb present then
    sorted_dates <- gets (fun st => sorted (dict_keys (positions st))) ;;
    previous_date <- lift (find_lt d sorted_dates) ;;
    prev <- positions_at previous_date ;;
    for_each (dict_keys prev) (carry_body d previous_date objs)
  else ret tt.

Definition _apply_trade (d : date) (name : string) (new_trade : trade)
  (so : option (list Security.t)) : M unit :=
  present <- gets (fun st => dict_mem Z.eqb d (positions st)) ;;
  (if negb present then carry_to d so else ret tt) ;;;
  snap <- positions_at d ;;
  store d name (dict_get_or String.eqb name nzero snap + qty new_trade)%num ;;;
  snap <- positions_at d ;;
  cur <- gets currency ;;
  store d cur (dict_get_or String.eqb cur nzero snap
               - qty new_trade * price new_trade)%num ;;;
  snap <- positions_at d ;;
  q <- lift (subscript String.eqb name snap) ;;
  if eq_zero q && negb (String.eqb name cur) then
    fun st =>
      (Ok tt,
       set_positions
         (dict_set Z.eqb d (dict_del String.eqb name snap) (positions st)) st)
  else ret tt.

Definition add_trade (d : date) (name : string) (new_trade : trade)
  (so : option (list Security.t)) : M unit :=
  day <- gets (fun st => dict_get Z.eqb d (trades st)) ;;
  match day with
  | Some names =>
      merged <- lift (merge_trades
                        (dict_get_or String.eqb name (mk_trade nzero nzero) names)
                        new_trade) ;;
      fun st =>
        (Ok tt,
         set_trades
           (dict_set Z.eqb d (dict_set String.eqb name merged names) (trades st))
           st)
  | None =>
      fun st =>
        (Ok tt, set_trades (dict_set Z.eqb d [(name, new_trade)] (trades st)) st)
  end ;;;
  _apply_trade d name new_trade so.

(** [sum(xs)]: starts from the integer 0 and adds from the left. *)
Definition sum (xs : list num) : num := fold_left nadd xs nzero.

Definition value_body (d : date) (objs : list Security.t)
  (value_dict : dict string num) (security_name : string)
  : M (dict string num) :=
  cur <- gets currency ;;
  unit_value <-
    (if String.eqb security_name cur then ret none
     else
       v <- lift (call_value (get_security security_name objs) d) ;;
       if isnan v then print (Null_value security_name d) ;;; ret nzero
       else ret v) ;;
  snap <- positions_at d ;;
  q <- lift (subscript String.eqb security_name snap) ;;
  ret (dict_set String.eqb security_name (unit_value * q)%num value_dict).

Definition value (d : date) (so : option (list Security.t))
  : M (num * dict string num) :=
  objs <- gets (objects_or_default so) ;;
  carry_to d (Some objs) ;;;
  snap <- positions_at d ;;
  value_dict <- for_fold (dict_keys snap) (value_body d objs) [] ;;
  ret (sum (dict_values value_dict), value_dict).

(** Keyword arguments of a query: each key is present or absent. *)
Record kwargs : Type := mk_kwargs {
  yield_curve_timeseries : option curve;
  model_params : option (dict date params)
}.

Definition kwarg {A} (o : option A) : result A :=
  match o with
  | Some a => Ok a
  | None => Raise KeyError
  end.

(** What each query reads from [kwargs] before its loop: nothing for the
    yields and durations, [kwargs['yield_curve_timeseries']] for the
    z-spreads, and for [oas] also [kwargs['model_params'][to_ql_date(date)]]. *)
Definition extra_args (m : metric) (kw : kwargs) (d : date) : result extra :=
  match m with
  | Ytm | Ytw
  | Mod_duration_to_mat | Mod_duration_to_worst
  | Mod_duration_to_worst_rolling_call => Ok No_extra
  | Zspread_to_mat | Zspread_to_worst | Zspread_to_worst_rolling_call =>
      match kwarg (yield_curve_timeseries kw) with
      | Ok yc => Ok (With_curve yc)
      | Raise e => Raise e
      end
  | Oas =>
      match kwarg (yield_curve_timeseries kw) with
      | Ok yc =>
          match kwarg (model_params kw) with
          | Ok by_date =>
              match subscript Z.eqb d by_date with
              | Ok mp => Ok (With_model yc mp)
              | Raise e => Raise e
              end
          | Raise e => Raise e
          end
      | Raise e => Raise e
      end
  end.

Definition metric_body (m : metric) (d : date) (objs : list Security.t)
  (ex : extra) (result_dict : dict string num) (security_name : string)
  : M (dict string num) :=
  unit_result <-
    except_attribute_error
      (r <- lift (call_method m (get_security security_name objs) d ex) ;;
       if isnan r then print (Null_metric m security_name d) ;;; ret nzero
       else ret r)
      (ret nzero) ;;
  ret (dict_set String.eqb security_name unit_result result_dict).

(** [sum(value_dict[name] * result_dict[name] / value for name in names)] *)
Fixpoint sum_weighted (value_dict result_dict : dict string num) (v : num)
  (names : list string) (acc : num) : result num :=
  match names with
  | [] => Ok acc
  | n :: r =>
      match subscript String.eqb n value_dict with
      | Ok vn =>
          match subscript String.eqb n result_dict with
          | Ok rn =>
              match ndiv (vn * rn) v with
              | Ok t => sum_weighted value_dict result_dict v r (acc + t)
              | Raise e => Raise e
              end
          | Raise e => Raise e
          end
      | Raise e => Raise e
      end
  end.

(** The body shared, up to the method called and the keyword arguments read,
    by [ytm], [ytw], the z-spreads, the modified durations and [oas]; the
    nine methods of the source repeat it verbatim.  The imports at the head
    of [oas] are taken to succeed. *)
Definition weighted_query (m : metric) (d : date)
  (so : option (list Security.t)) (kw : kwargs) : M (num * dict string num) :=
  objs <- gets (objects_or_default so) ;;
  carry_to d (Some objs) ;;;
  vv <- value d (Some objs) ;;
  ex <- lift (extra_args m kw d) ;;
  snap <- positions_at d ;;
  result_dict <- for_fold (dict_keys snap) (metric_body m d objs ex) [] ;;
  snap' <- positions_at d ;;
  res <- lift (sum_weighted (snd vv) result_dict (fst vv) (dict_keys snap') nzero) ;;
  ret (res, result_dict).

Definition ytm := weighted_query Ytm.
Definition ytw := weighted_query Ytw.
Definition zspread_to_worst := weighted_query Zspread_to_worst.
Definition zspread_to_worst_rolling_call :=
  weighted_query Zspread_to_worst_rolling_call.
Definition mod_duration_to_mat := weighted_query Mod_duration_to_mat.
Definition mod_duration_to_worst := weighted_query Mod_duration_to_worst.
Definition mod_duration_to_worst_rolling_call :=
  weighted_query Mod_duration_to_worst_rolling_call.

(** ** Closed forms used in the statements *)

(** The unit value [value] uses for a held name, once the name resolves. *)
Definition unit_value_of (cur : string) (objs : list Security.t) (d : date)
  (security_name : string) : num :=
  if String.eqb security_name cur then none
  else
    match get_security security_name objs with
    | Found s => if isnan (Security.value s d) then nzero else Security.value s d
    | None_list => nzero
    end.

(** The per-name metric a query reports. *)
Definition unit_result_of (m : metric) (objs : list Security.t) (d : date)
  (ex : extra) (security_name : string) : num :=
  match get_security security_name objs with
  | Found s =>
      match Security.method s m with
      | Some f => if isnan (f d ex) then nzero else f d ex
      | None => nzero
      end
  | None_list => nzero
  end.

(** Every held name other than the currency has an object. *)
Definition resolves (objs : list Security.t) (security_name : string) : bool :=
  match get_security security_name objs with
  | Found _ => true
  | None_list => false
  end.

(** The weighted average as a quotient of sums:
    [(Σ value_i·metric_i) / (Σ value_i)]. *)
Definition weighted_average (values metrics : list num) : result num :=
  ndiv (sum (map (fun vm => fst vm * snd vm)%num (combine values metrics)))
       (sum values).

(** The keyword arguments that query [m] reads are present in [kw], and
    [ex] is what the query hands to the instruments with them: nothing for
    the yields and durations, [yield_curve_timeseries] for the z-spreads,
    and for [oas] also the entry of [model_params] at the date. *)
Definition keywords_read (m : metric) (kw : kwargs) (d : date) (ex : extra)
  : Prop :=
  match m with
  | Ytm | Ytw
  | Mod_duration_to_mat | Mod_duration_to_worst
  | Mod_duration_to_worst_rolling_call => ex = No_extra
  | Zspread_to_mat | Zspread_to_worst | Zspread_to_worst_rolling_call =>
      exists yc, yield_curve_timeseries kw = Some yc /\ ex = With_curve yc
  | Oas =>
      exists yc by_date mp,
        yield_curve_timeseries kw = Some yc
        /\ model_params kw = Some by_date
        /\ dict_get Z.eqb d by_date = Some mp
        /\ ex = With_model yc mp
  end.

(** The snapshot at a date after [add_position] there, from the one before
    (absent before: [None]). *)
Definition add_snap (name : string) (q : num) (o : option snapshot) : snapshot :=
  match o with
  | Some snap =>
      dict_set String.eqb name (dict_get_or String.eqb name nzero snap + q)%num snap
  | None => [(name, q)]
  end.

(** The portfolio with the snapshot at [d] replaced ([None]: left alone). *)
Definition put_snapshot (d : date) (o : option snapshot) (st : portfolio)
  : portfolio :=
  match o with
  | Some snap => set_positions (dict_set Z.eqb d snap (positions st)) st
  | None => st
  end.

(** One iteration of the loop of [carry_to], as a function of the snapshot
    being built at the target date: the outcome and the snapshot reached. *)
Definition carry_step (cur : string) (objs : list Security.t) (p d : date)
  (prev : snapshot) (n : string) (acc : option snapshot)
  : result unit * option snapshot :=
  match get_security n objs with
  | None_list => (Raise AttributeError, acc)
  | Found s =>
      let acc1 := Some (add_snap cur (Security.cash_to_date s p d) acc) in
      if Security.is_expired s d then (Ok tt, acc1)
      else
        match dict_get String.eqb n prev with
        | Some q => (Ok tt, Some (add_snap n q acc1))
        | None => (Raise KeyError, acc1)
        end
  end.

(** The whole loop: iterations until the first exception. *)
Fixpoint carry_fold (cur : string) (objs : list Security.t) (p d : date)
  (prev : snapshot) (names : list string) (acc : option snapshot)
  : result unit * option snapshot :=
  match names with
  | [] => (Ok tt, acc)
  | n :: r =>
      match carry_step cur objs p d prev n acc with
      | (Ok _, acc') => carry_fold cur objs p d prev r acc'
      | (Raise e, acc') => (Raise e, acc')
      end
  end.

(** Lookup in a snapshot that may not exist yet. *)
Definition lookup (k : string) (o : option snapshot) : option num :=
  match o with
  | Some snap => dict_get String.eqb k snap
  | None => None
  end.

(** The quantity under [k], 0 when there is none. *)
Definition held (k : string) (o : option snapshot) : num :=
  match lookup k o with
  | Some v => v
  | None => nzero
  end.

(** [Σ] written as a right fold, for statements. *)
Definition big_sum (xs : list num) : num := fold_right nadd nzero xs.

(** The value of a snapshot under unit values [uv]: [Σ uv(name)·quantity]. *)
Definition worth (uv : string -> num) (snap : snapshot) : num :=
  big_sum (map (fun nq => uv (fst nq) * snd nq)%num snap).

(** [p] is the latest ledger date strictly before [d]. *)
Definition latest_before (st : portfolio) (d p : date) : Prop :=
  In p (dict_keys (positions st))
  /\ (p < d)%Z
  /\ forall k, In k (dict_keys (positions st)) -> (k < d)%Z -> (k <= p)%Z.

(** What [cash_to_date] returns for a held name, 0 for a name without
    object. *)
Definition cash_of (objs : list Security.t) (p d : date) (n : string) : num :=
  match get_security n objs with
  | Found s => Security.cash_to_date s p d
  | None_list => nzero
  end.

(** Whether the object of a held name is expired at [d]. *)
Definition expired_at (objs : list Security.t) (d : date) (n : string) : bool :=
  match get_security n objs with
  | Found s => Security.is_expired s d
  | None_list => false
  end.

(** The currency balance a carried snapshot inherits: the previous balance
    when the currency is held and its object is not expired. *)
Definition carried_balance (cur : string) (objs : list Security.t) (d : date)
  (prev : snapshot) : num :=
  if dict_mem String.eqb cur prev && negb (expired_at objs d cur)
  then dict_get_or String.eqb cur nzero prev
  else nzero.

(** [Σ cash_to_date(p, d)] over the held names. *)
Definition accrued_cash (objs : list Security.t) (p d : date) (prev : snapshot)
  : num :=
  big_sum (map (cash_of objs p d) (dict_keys prev)).

Definition worth_opt (uv : string -> num) (o : option snapshot) : num :=
  match o with
  | Some snap => worth uv snap
  | None => nzero
  end.

(** The portfolio after more lines were printed. *)
Definition with_stdout (ls : list line) (st : portfolio) : portfolio :=
  mk_portfolio (positions st) (trades st) (currency st) (security_objects st)
               (stdout st ++ ls).

(** What [value] prints for one name. *)
Definition value_diag (cur : string) (objs : list Security.t) (d : date)
  (n : string) : list line :=
  if String.eqb n cur then []
  else
    match get_security n objs with
    | Found s => if isnan (Security.value s d) then [Null_value n d] else []
    | None_list => []
    end.

(** What a weighted query prints for one name. *)
Definition metric_diag (m : metric) (objs : list Security.t) (d : date)
  (ex : extra) (n : string) : list line :=
  match get_security n objs with
  | Found s =>
      match Security.method s m with
      | Some f => if isnan (f d ex) then [Null_metric m n d] else []
      | None => []
      end
  | None_list => []
  end.

(** The breakdown [value] returns for a snapshot. *)
Definition value_breakdown (cur : string) (objs : list Security.t) (d : date)
  (snap : snapshot) : dict string num :=
  map (fun nq => (fst nq, unit_value_of cur objs d (fst nq) * snd nq)%num) snap.

(** The breakdown a weighted query returns for a snapshot. *)
Definition metric_breakdown (m : metric) (objs : list Security.t) (d : date)
  (ex : extra) (snap : snapshot) : dict string num :=
  map (fun nq => (fst nq, unit_result_of m objs d ex (fst nq))) snap.

(** The sum a weighted query computes, over the pairs (value, metric) of
    the held names: every term is divided by the total [v] before it is
    added. *)
Fixpoint sum_ratio (v : num) (terms : list (num * num)) (acc : num)
  : result num :=
  match terms with
  | [] => Ok acc
  | (vn, rn) :: r =>
      match ndiv (vn * rn) v with
      | Ok t => sum_ratio v r (acc + t)
      | Raise e => Raise e
      end
  end.

(** The per-name values and metrics of a snapshot, in its order. *)
Definition values_of (cur : string) (objs : list Security.t) (d : date)
  (snap : snapshot) : list num :=
  map (fun nq => unit_value_of cur objs d (fst nq) * snd nq)%num snap.

Definition metrics_of (m : metric) (objs : list Security.t) (d : date)
  (ex : extra) (snap : snapshot) : list num :=
  map (fun nq => unit_result_of m objs d ex (fst nq)) snap.

(** A snapshot under construction has distinct names. *)
Definition uniq_opt (acc : option snapshot) : Prop :=
  match acc with
  | Some snap => uniq_keys String.eqb snap = true
  | None => True
  end.

(** Either nothing is stored under a name other than the currency, or the
    quantity of the previous snapshot, and then the name is not met again. *)
Definition carried_so_far (cur : string) (prev : snapshot)
  (names : list string) (acc : option snapshot) : Prop :=
  forall k, k <> cur ->
    lookup k acc = None
    \/ (lookup k acc = dict_get String.eqb k prev /\ ~ In k names).

(** What one iteration of [carry_to] adds to the currency balance. *)
Definition credit (cur : string) (objs : list Security.t) (p d : date)
  (prev : snapshot) (n : string) : num :=
  (cash_of objs p d n
   + (if String.eqb n cur
      then (if expired_at objs d cur then nzero
            else dict_get_or String.eqb cur nzero prev)
      else nzero))%num.

(** What one iteration adds to the worth of the snapshot, for unit values
    that give the currency the value 1. *)
Definition gain (objs : list Security.t) (p d : date) (prev : snapshot)
  (uv : string -> num) (n : string) : num :=
  (cash_of objs p d n
   + (if expired_at objs d n then nzero
      else uv n * dict_get_or String.eqb n nzero prev))%num.

(** [keeps R m]: running [m] relates the portfolio before to the one after,
    whether [m] returns or raises. *)
Definition keeps (R : portfolio -> portfolio -> Prop) {A} (m : M A) : Prop :=
  forall st, R st (snd (m st)).

(** Two portfolios that differ at most in what was printed. *)
Definition same_ledger (st st' : portfolio) : Prop :=
  positions st' = positions st
  /\ trades st' = trades st
  /\ currency st' = currency st
  /\ security_objects st' = security_objects st.

(** The snapshot [_apply_trade] leaves at the trade date, from the one it
    finds there. *)
Definition traded (cur name : string) (t : trade) (snap : snapshot) : snapshot :=
  let s1 :=
    dict_set String.eqb name
      (dict_get_or String.eqb name nzero snap + qty t)%num snap in
  let s2 :=
    dict_set String.eqb cur
      (dict_get_or String.eqb cur nzero s1 - qty t * price t)%num s1 in
  match dict_get String.eqb name s2 with
  | Some q =>
      if eq_zero q && negb (String.eqb name cur)
      then dict_del String.eqb name s2
      else s2
  | None => s2
  end.

(** The invariant of a snapshot: distinct names, and no quantity 0 under a
    name other than the currency. *)
Definition snapshot_ok (cur : string) (snap : snapshot) : Prop :=
  uniq_keys String.eqb snap = true
  /\ forall n q, dict_get String.eqb n snap = Some q -> q = nzero -> n = cur.

(** The invariant of the ledger: every snapshot satisfies it. *)
Definition ledger_invariant (st : portfolio) : Prop :=
  forall d snap,
    dict_get Z.eqb d (positions st) = Some snap -> snapshot_ok (currency st) snap.

(** Every entry of the ledger [st] is still an entry of [st']. *)
Definition entries_kept (st st' : portfolio) : Prop :=
  forall d' n,
    lookup n (dict_get Z.eqb d' (positions st)) <> None ->
    lookup n (dict_get Z.eqb d' (positions st')) <> None.

(** ** Example portfolios *)

Open Scope string_scope.
Open Scope list_scope.

Definition no_kwargs : kwargs := mk_kwargs None None.

(** An instrument called [nm] with a constant unit value and yield to
    maturity, no interim cash, never expired, and no other metric. *)
Definition bond (nm : string) (unit_value y : num) : Security.t :=
  Security.mk (Some nm) None (fun _ => unit_value) (fun _ => false)
    (fun _ _ => nzero)
    (fun m => match m with Ytm => Some (fun _ _ => y) | _ => None end).

(** Values [{A: 60, B: 40}] and yields [{A: 0.05, B: 0.08}] at date 1. *)
Definition two_bonds : portfolio :=
  mk_portfolio [(1%Z, [("A", int 6); ("B", int 4)])] [] "USD"
    [bond "A" (int 10) (frac 5 100); bond "B" (int 10) (frac 8 100)] [].

(** The object of the currency: unit value 1, no cash flows, no metric. *)
Definition cash_account (nm : string) : Security.t :=
  Security.mk (Some nm) None (fun _ => none) (fun _ => false)
    (fun _ _ => nzero) (fun _ => None).

(** An instrument worth 100 that matures at [maturity] and pays [coupon]
    over any carried period. *)
Definition maturing (nm : string) (maturity : date) (coupon : num)
  : Security.t :=
  Security.mk (Some nm) None (fun _ => int 100)
    (fun d => (maturity <=? d)%Z) (fun _ _ => coupon) (fun _ => None).

(** Cash 100 and ten units of B at date 10; B matures at date 15. *)
Definition cash_and_bond : portfolio :=
  mk_portfolio [(10%Z, [("USD", int 100); ("B", int 10)])] [] "USD"
    [cash_account "USD"; maturing "B" 15 (int 3)] [].

(** An instrument worth 50 up to date 1 and 60 afterwards. *)
Definition rising (nm : string) : Security.t :=
  Security.mk (Some nm) None
    (fun d => if (d <=? 1)%Z then int 50 else int 60)
    (fun _ => false) (fun _ _ => nzero) (fun _ => None).

Definition ten_rising : portfolio :=
  mk_portfolio [(1%Z, [("X", int 10)])] [] "USD" [rising "X"] [].

(** A ledger seeded with an empty cash balance at date 1, then a purchase
    of ten X at 50, X being worth 50: [{USD: -500, X: 10}]. *)
Definition long_x : portfolio :=
  snd (add_trade 1 "X" (mk_trade (int 10) (int 50)) None
         (snd (add_position 1 "USD" nzero
                 (init "USD" (Some [bond "X" (int 50) (frac 5 100)]))))).

(** Ten units of a name that has no object. *)
Definition unknown_x : portfolio :=
  mk_portfolio [(1%Z, [("X", int 10)])] [] "USD" [] [].

(** Cash only, with no object for the currency. *)
Definition cash_only : portfolio :=
  mk_portfolio [(1%Z, [("USD", int 100)])] [] "USD" [] [].

(** An instrument worth 10 whose yield to maturity is not a number. *)
Definition nan_yield (nm : string) : Security.t :=
  Security.mk (Some nm) None (fun _ => int 10) (fun _ => false)
    (fun _ _ => nzero)
    (fun m => match m with Ytm => Some (fun _ _ => NaN) | _ => None end).

(** An instrument without value and without any metric. *)
Definition nan_value (nm : string) : Security.t :=
  Security.mk None (Some nm) (fun _ => NaN) (fun _ => false)
    (fun _ _ => nzero) (fun _ => None).

(** Cash without object, a bond, an instrument with a yield that is not a
    number and one with a value that is not a number. *)
Definition mixed : portfolio :=
  mk_portfolio
    [(1%Z, [("USD", int 100); ("A", int 6); ("N", int 2); ("V", int 3)])] []
    "USD" [bond "A" (int 10) (frac 5 100); nan_yield "N"; nan_value "V"] [].

(** Keyword arguments holding a yield curve only. *)
Definition curve_only (yc : curve) : kwargs := mk_kwargs (Some yc) None.

(** An instrument with a constant unit value whose only metric is the
    z-spread to maturity, read off the curve it is handed: [id] basis
    points over the curve number [id], plus [base]. *)
Definition spread_bond (nm : string) (unit_value base : num) : Security.t :=
  Security.mk (Some nm) None (fun _ => unit_value) (fun _ => false)
    (fun _ _ => nzero)
    (fun m =>
       match m with
       | Zspread_to_mat =>
           Some (fun _ ex =>
                   match ex with
                   | With_curve (Curve id) => (base + frac id 10000)%num
                   | With_model (Curve id) _ => (base + frac id 10000)%num
                   | No_extra => NaN
                   end)
       | _ => None
       end).

(** Values [{A: 60, B: 40}] of two instruments that report a z-spread. *)
Definition two_spread_bonds : portfolio :=
  mk_portfolio [(1%Z, [("A", int 6); ("B", int 4)])] [] "USD"
    [spread_bond "A" (int 10) (frac 5 100);
     spread_bond "B" (int 10) (frac 8 100)] [].

(** Cash without object, an instrument with a z-spread, one whose z-spread
    is not a number and one whose value is not a number. *)
Definition mixed_spreads : portfolio :=
  mk_portfolio
    [(1%Z, [("USD", int 100); ("A", int 6); ("N", int 2); ("V", int 3)])] []
    "USD"
    [spread_bond "A" (int 10) (frac 5 100); spread_bond "N" (int 10) NaN;
     nan_value "V"] [].

(** Six A with an object and ten X without, at date 1. *)
Definition bond_and_unknown : portfolio :=
  mk_portfolio [(1%Z, [("A", int 6); ("X", int 10)])] [] "USD"
    [bond "A" (int 10) (frac 5 100)] [].

(** A cash balance of 100 whose currency object matures at date 15. *)
Definition maturing_cash : portfolio :=
  mk_portfolio [(10%Z, [("USD", int 100)])] [] "USD"
    [maturing "USD" 15 (int 3)] [].

(** ** Snapshots as shared objects: [copy]

    [copy] builds a new portfolio whose [positions] and [trades] are
    shallow copies: the outer dictionaries are new, the dictionaries they
    hold are the same objects.  To follow this the snapshot dictionaries are
    kept in a store and a portfolio holds their addresses. *)

Module Shared.

(** The store: the snapshot dictionaries and the trade dictionaries, by
    address. *)
Record heap : Type := mk_heap {
  snapshots : list snapshot;
  trade_days : list (dict string trade)
}.

Record t : Type := mk {
  positions : dict date nat;
  trades : dict date nat;
  currency : string;
  security_objects : list Security.t
}.

(** [Portfolio(currency, security_objects)] *)
Definition init (cur : string) (so : option (list Security.t)) : t :=
  mk [] [] cur (match so with Some l => l | None => [] end).

(** [copy]: [self.positions.copy()] and [self.trades.copy()] keep the
    addresses; the list of objects is passed on as it is. *)
Definition copy (self : t) : t :=
  let copied_portfolio := init (currency self) (Some (security_objects self)) in
  mk (positions self) (trades self) (currency copied_portfolio)
     (security_objects copied_portfolio).

(** The dictionary at an address (an address out of the store reads as the
    empty dictionary; the methods never produce one). *)
Definition deref (h : heap) (r : nat) : snapshot := nth r (snapshots h) [].

(** The dictionary at address [r] replaced by [s]. *)
Fixpoint replace_nth (r : nat) (s : snapshot) (l : list snapshot)
  : list snapshot :=
  match l, r with
  | [], _ => []
  | _ :: rest, O => s :: rest
  | x :: rest, S r' => x :: replace_nth r' s rest
  end.

Definition set_deref (r : nat) (s : snapshot) (h : heap) : heap :=
  mk_heap (replace_nth r s (snapshots h)) (trade_days h).

(** A new dictionary put in the store: its address and the store. *)
Definition alloc (s : snapshot) (h : heap) : nat * heap :=
  (length (snapshots h), mk_heap (snapshots h ++ [s]) (trade_days h)).

Definition add_position (d : date) (name : string) (q : num) (self : t)
  (h : heap) : t * heap :=
  match dict_get Z.eqb d (positions self) with
  | Some r =>
      let snap := deref h r in
      (self,
       set_deref r
         (dict_set String.eqb name
            (dict_get_or String.eqb name nzero snap + q)%num snap) h)
  | None =>
      let (r, h') := alloc [(name, q)] h in
      (mk (dict_set Z.eqb d r (positions self)) (trades self) (currency self)
          (security_objects self), h')
  end.

Definition remove_position (d : date) (name : string) (q : option num)
  (self : t) (h : heap) : t * heap :=
  match dict_get Z.eqb d (positions self) with
  | Some r =>
      match q with
      | None => (self, h)
      | Some q' =>
          let snap := deref h r in
          (self,
           set_deref r
             (dict_set String.eqb name
                (dict_get_or String.eqb name nzero snap - q')%num snap) h)
      end
  | None => (self, h)
  end.

(** [self.positions[d]] read through the store, when [d] has an entry. *)
Definition snapshot_at (h : heap) (self : t) (d : date) : option snapshot :=
  match dict_get Z.eqb d (positions self) with
  | Some r => Some (deref h r)
  | None => None
  end.

(** Every address held by the portfolio is in the store. *)
Definition in_store (h : heap) (self : t) : Prop :=
  forall d r, dict_get Z.eqb d (positions self) = Some r ->
              (r < length (snapshots h))%nat.

(** No two dates of the portfolio hold the same dictionary. *)
Definition unshared (self : t) : Prop :=
  forall d1 d2 r,
    dict_get Z.eqb d1 (positions self) = Some r ->
    dict_get Z.eqb d2 (positions self) = Some r -> d1 = d2.

End Shared.

(** * Properties *)

(** ** Arithmetic of Python numbers *)

Lemma Qc_eq_bool_iff (x y : Qc) : Qc_eq_bool x y = true <-> x = y.
Proof.
  unfold Qc_eq_bool. destruct (Qc_eq_dec x y); split; congruence.
Qed.

Lemma Qc_eq_bool_false_iff (x y : Qc) : Qc_eq_bool x y = false <-> x <> y.
Proof.
  unfold Qc_eq_bool. destruct (Qc_eq_dec x y); split; congruence.
Qed.

Lemma eq_zero_iff (a : num) : eq_zero a = true <-> a = nzero.
Proof.
  destruct a as [x|]; simpl.
  - rewrite Qc_eq_bool_iff. unfold nzero. split; congruence.
  - unfold nzero. split; congruence.
Qed.

Lemma nadd_comm (a b : num) : (a + b = b + a)%num.
Proof. destruct a, b; simpl; trivial. f_equal. ring. Qed.

Lemma nadd_assoc (a b c : num) : (a + (b + c) = a + b + c)%num.
Proof. destruct a, b, c; simpl; trivial. f_equal. ring. Qed.

Lemma nadd_0_l (a : num) : (nzero + a = a)%num.
Proof. destruct a; simpl; trivial. f_equal. ring. Qed.

Lemma nadd_0_r (a : num) : (a + nzero = a)%num.
Proof. destruct a; simpl; trivial. f_equal. ring. Qed.

Lemma nmul_comm (a b : num) : (a * b = b * a)%num.
Proof. destruct a, b; simpl; trivial. f_equal. ring. Qed.

Lemma nmul_1_l (a : num) : (none * a = a)%num.
Proof. destruct a; simpl; trivial. f_equal. ring. Qed.

Lemma nmul_add_distr_l (a b c : num) : (a * (b + c) = a * b + a * c)%num.
Proof. destruct a, b, c; simpl; trivial. f_equal. ring. Qed.

Lemma nadd_swap (a b c : num) : (a + b + c = a + c + b)%num.
Proof. destruct a, b, c; simpl; trivial. f_equal. ring. Qed.

Lemma nadd_shuffle (a b c e : num) :
  (a + b + (c + e) = a + c + (b + e))%num.
Proof. destruct a, b, c, e; simpl; trivial. f_equal. ring. Qed.

Lemma ndiv_zero (a : num) : ndiv a nzero = Raise ZeroDivisionError.
Proof.
  unfold ndiv, nzero.
  now rewrite (proj2 (Qc_eq_bool_iff 0%Qc 0%Qc) eq_refl).
Qed.

Lemma ndiv_fin (x y : Qc) :
  y <> 0%Qc -> ndiv (Fin x) (Fin y) = Ok (Fin (x / y)%Qc).
Proof.
  intros Hy. unfold ndiv.
  apply Qc_eq_bool_false_iff in Hy. now rewrite Hy.
Qed.

(** Dividing term by term and dividing the sum agree whenever the divisor
    is not zero. *)
Lemma ndiv_add (a b v qa qb : num) :
  ndiv a v = Ok qa -> ndiv b v = Ok qb -> ndiv (a + b) v = Ok (qa + qb)%num.
Proof.
  unfold ndiv. destruct v as [y|].
  - destruct (Qc_eq_bool y 0) eqn:Hy; [discriminate|].
    apply Qc_eq_bool_false_iff in Hy.
    destruct a, b; simpl; intros Ha Hb; inversion Ha; inversion Hb; subst;
      simpl; trivial.
    do 2 f_equal. now field.
  - intros Ha Hb. inversion Ha; inversion Hb; subst. now destruct a, b.
Qed.

(** ** Dictionaries *)

Section DictFacts.
Context {K V : Type} (eqb : K -> K -> bool).
Hypothesis eqb_eq : forall a b, eqb a b = true <-> a = b.

Lemma eqb_same (a : K) : eqb a a = true.
Proof. now apply eqb_eq. Qed.

Lemma eqb_diff (a b : K) : a <> b -> eqb a b = false.
Proof.
  intros H. destruct (eqb a b) eqn:E; trivial.
  apply eqb_eq in E. contradiction.
Qed.

Lemma eqb_case (a b : K) : {a = b} + {a <> b}.
Proof.
  destruct (eqb a b) eqn:E.
  - left. now apply eqb_eq.
  - right. intros H. apply eqb_eq in H. congruence.
Qed.

Lemma dict_get_set_same (k : K) (v : V) (d : dict K V) :
  dict_get eqb k (dict_set eqb k v d) = Some v.
Proof.
  induction d as [|[k' v'] r IH]; simpl.
  - now rewrite eqb_same.
  - destruct (eqb k k') eqn:E; simpl; rewrite E; trivial.
Qed.

Lemma dict_get_set_other (k k' : K) (v : V) (d : dict K V) :
  k <> k' -> dict_get eqb k (dict_set eqb k' v d) = dict_get eqb k d.
Proof.
  intros Hne. induction d as [|[k0 v0] r IH]; simpl.
  - now rewrite eqb_diff.
  - destruct (eqb k' k0) eqn:E; simpl.
    + apply eqb_eq in E. subst k0. now rewrite eqb_diff.
    + now rewrite IH.
Qed.

Lemma dict_set_set (k : K) (v w : V) (d : dict K V) :
  dict_set eqb k w (dict_set eqb k v d) = dict_set eqb k w d.
Proof.
  induction d as [|[k' v'] r IH]; simpl.
  - now rewrite eqb_same.
  - destruct (eqb k k') eqn:E; simpl; rewrite E; trivial.
    now rewrite IH.
Qed.

Lemma dict_set_get (k : K) (v : V) (d : dict K V) :
  dict_get eqb k d = Some v -> dict_set eqb k v d = d.
Proof.
  induction d as [|[k' v'] r IH]; simpl; [discriminate|].
  destruct (eqb k k') eqn:E.
  - intros H. now inversion H.
  - intros H. now rewrite IH.
Qed.

Lemma dict_mem_In (k : K) (d : dict K V) :
  dict_mem eqb k d = true <-> In k (dict_keys d).
Proof.
  unfold dict_mem. induction d as [|[k' v'] r IH]; simpl.
  - split; [discriminate | tauto].
  - destruct (eqb k k') eqn:E.
    + apply eqb_eq in E. subst. tauto.
    + rewrite IH. split; [tauto|]. intros [H|H]; trivial.
      subst. rewrite eqb_same in E. discriminate.
Qed.

Lemma dict_get_In (k : K) (d : dict K V) :
  In k (dict_keys d) -> exists v, dict_get eqb k d = Some v.
Proof.
  intros H. apply dict_mem_In in H. unfold dict_mem in H.
  destruct (dict_get eqb k d) as [v|]; [now exists v | discriminate].
Qed.

Lemma dict_get_Some_In (k : K) (v : V) (d : dict K V) :
  dict_get eqb k d = Some v -> In k (dict_keys d).
Proof.
  intros H. apply dict_mem_In. unfold dict_mem. now rewrite H.
Qed.

Lemma dict_mem_false (k : K) (d : dict K V) :
  dict_mem eqb k d = false <-> dict_get eqb k d = None.
Proof.
  unfold dict_mem. destruct (dict_get eqb k d); split; congruence.
Qed.

Lemma dict_mem_set (k k' : K) (v : V) (d : dict K V) :
  dict_mem eqb k (dict_set eqb k' v d)
  = if eqb k k' then true else dict_mem eqb k d.
Proof.
  unfold dict_mem. destruct (eqb k k') eqn:E.
  - apply eqb_eq in E. subst. now rewrite dict_get_set_same.
  - rewrite dict_get_set_other; trivial.
    intros H. apply eqb_eq in H. congruence.
Qed.

(** Assigning to an absent key appends it. *)
Lemma dict_set_fresh (k : K) (v : V) (d : dict K V) :
  dict_get eqb k d = None -> dict_set eqb k v d = d ++ [(k, v)].
Proof.
  induction d as [|[k' v'] r IH]; simpl; trivial.
  destruct (eqb k k'); [discriminate|]. intros H. now rewrite IH.
Qed.

Lemma uniq_keys_set (k : K) (v : V) (d : dict K V) :
  uniq_keys eqb d = true -> uniq_keys eqb (dict_set eqb k v d) = true.
Proof.
  induction d as [|[k' v'] r IH]; simpl; trivial.
  rewrite andb_true_iff, negb_true_iff. intros [Hm Hu].
  destruct (eqb k k') eqn:E; simpl.
  - now rewrite Hm, Hu.
  - rewrite dict_mem_set, IH; trivial.
    destruct (eqb k' k) eqn:E'.
    + apply eqb_eq in E'. subst. rewrite eqb_same in E. discriminate.
    + now rewrite Hm.
Qed.

Lemma dict_get_del_other (k k' : K) (d : dict K V) :
  k <> k' -> dict_get eqb k (dict_del eqb k' d) = dict_get eqb k d.
Proof.
  intros Hne. induction d as [|[k0 v0] r IH]; simpl; trivial.
  destruct (eqb k' k0) eqn:E; simpl.
  - apply eqb_eq in E. subst. now rewrite eqb_diff.
  - now rewrite IH.
Qed.

Lemma dict_get_del_same (k : K) (d : dict K V) :
  uniq_keys eqb d = true -> dict_get eqb k (dict_del eqb k d) = None.
Proof.
  induction d as [|[k0 v0] r IH]; simpl; trivial.
  rewrite andb_true_iff, negb_true_iff. intros [Hm Hu].
  destruct (eqb k k0) eqn:E; simpl.
  - apply eqb_eq in E. subst. now apply dict_mem_false.
  - rewrite E. now apply IH.
Qed.

Lemma dict_mem_del (k k' : K) (d : dict K V) :
  dict_mem eqb k (dict_del eqb k' d) = true -> dict_mem eqb k d = true.
Proof.
  unfold dict_mem. induction d as [|[k0 v0] r IH]; simpl; trivial.
  destruct (eqb k' k0) eqn:E; simpl.
  - destruct (eqb k k0); trivial.
  - destruct (eqb k k0); trivial.
Qed.

Lemma uniq_keys_del (k : K) (d : dict K V) :
  uniq_keys eqb d = true -> uniq_keys eqb (dict_del eqb k d) = true.
Proof.
  induction d as [|[k' v'] r IH]; simpl; trivial.
  rewrite andb_true_iff, negb_true_iff. intros [Hm Hu].
  destruct (eqb k k') eqn:E; simpl; trivial.
  rewrite IH; trivial. rewrite andb_true_r, negb_true_iff.
  destruct (dict_mem eqb k' (dict_del eqb k r)) eqn:E'; trivial.
  apply dict_mem_del in E'. congruence.
Qed.
End DictFacts.

(** ** Trade merge *)

Definition finite_trade (q p : Qc) : trade := mk_trade (Fin q) (Fin p).

(** C5.  Merging two trades does not depend on their order; when the
    quantities do not sum to zero the merged trade carries the summed
    quantity and the quantity-weighted average price, as for (10 at 100)
    with (5 at 110), which gives 15 at 310/3; when the quantities sum to
    exactly zero the merge raises [ZeroDivisionError] and returns no trade. *)
Theorem merge_trades_weighted_average (a b : trade) :
  merge_trades a b = merge_trades b a
  /\ (forall qa pa qb pb : Qc,
        a = finite_trade qa pa -> b = finite_trade qb pb ->
        (qa + qb)%Qc <> 0%Qc ->
        merge_trades a b
        = Ok (finite_trade (qa + qb) ((qa * pa + qb * pb) / (qa + qb))))
  /\ ((qty a + qty b)%num = nzero ->
      merge_trades a b = Raise ZeroDivisionError)
  /\ merge_trades (mk_trade (int 10) (int 100)) (mk_trade (int 5) (int 110))
     = Ok (mk_trade (int 15) (frac 310 3)).
Proof.
  repeat split.
  - unfold merge_trades.
    rewrite (nadd_comm (qty b) (qty a)).
    now rewrite (nadd_comm (qty b * price b) (qty a * price a)).
  - intros qa pa qb pb -> -> Hs. unfold merge_trades, finite_trade.
    cbn [qty price nadd nmul]. now rewrite ndiv_fin.
  - intros Hz. unfold merge_trades. now rewrite Hz, ndiv_zero.
  - unfold merge_trades, int, frac; cbn [qty price nadd nmul].
    rewrite ndiv_fin.
    + do 2 f_equal; f_equal; apply Qc_is_canon; reflexivity.
    + intros H. apply (f_equal this) in H. discriminate H.
Qed.

Lemma merge_trades_weighted_average_witness :
  merge_trades (finite_trade (Q2Qc 10) (Q2Qc 100)) (finite_trade (Q2Qc 5) (Q2Qc 110))
  = Ok (finite_trade (Q2Qc 10 + Q2Qc 5)
          ((Q2Qc 10 * Q2Qc 100 + Q2Qc 5 * Q2Qc 110) / (Q2Qc 10 + Q2Qc 5)))
  /\ merge_trades (mk_trade (int 7) (int 3)) (mk_trade (int (-7)) (int 4))
     = Raise ZeroDivisionError.
Proof.
  split.
  - apply (proj1 (proj2 (merge_trades_weighted_average
                           (finite_trade (Q2Qc 10) (Q2Qc 100))
                           (finite_trade (Q2Qc 5) (Q2Qc 110))))
             (Q2Qc 10) (Q2Qc 100) (Q2Qc 5) (Q2Qc 110) eq_refl eq_refl).
    intros H. apply (f_equal this) in H. discriminate H.
  - apply (proj1 (proj2 (proj2 (merge_trades_weighted_average
                                  (mk_trade (int 7) (int 3))
                                  (mk_trade (int (-7)) (int 4)))))).
    reflexivity.
Defined.

(** From here on arithmetic is handled by the lemmas above. *)
Arguments nadd : simpl never.
Arguments nsub : simpl never.
Arguments nmul : simpl never.
Arguments ndiv : simpl never.

(** ** Sorting and searching the ledger dates *)

Lemma In_insert_sorted (x y : date) (l : list date) :
  In y (insert_sorted x l) <-> y = x \/ In y l.
Proof.
  induction l as [|z r IH]; simpl.
  - intuition.
  - destruct (x <=? z)%Z; simpl; [intuition|]. rewrite IH. intuition.
Qed.

Lemma In_sorted (y : date) (l : list date) : In y (sorted l) <-> In y l.
Proof.
  induction l as [|z r IH]; simpl; [tauto|].
  rewrite In_insert_sorted, IH. intuition.
Qed.

(** [ascending l]: every element is below or equal to all later ones. *)
Fixpoint ascending (l : list date) : Prop :=
  match l with
  | [] => True
  | x :: r => (forall y, In y r -> (x <= y)%Z) /\ ascending r
  end.

Lemma ascending_insert (x : date) (l : list date) :
  ascending l -> ascending (insert_sorted x l).
Proof.
  induction l as [|z r IH]; simpl.
  - intros _. split; [contradiction | exact I].
  - intros [Hz Hr]. destruct (x <=? z)%Z eqn:E; simpl.
    + apply Z.leb_le in E. repeat split; trivial.
      intros y [<-|Hy]; trivial. specialize (Hz y Hy). lia.
    + apply Z.leb_gt in E. split; [|now apply IH].
      intros y Hy. apply In_insert_sorted in Hy. destruct Hy as [->|Hy].
      * lia.
      * now apply Hz.
Qed.

Lemma ascending_sorted (l : list date) : ascending (sorted l).
Proof.
  induction l as [|z r IH]; simpl; [exact I|]. now apply ascending_insert.
Qed.

Lemma find_lt_cons (d y : date) (r : list date) :
  find_lt d (y :: r)
  = if (y <? d)%Z then
      match find_lt d r with Ok p => Ok p | Raise _ => Ok y end
    else Raise ValueError.
Proof.
  unfold find_lt. simpl. destruct (y <? d)%Z; trivial.
  now destruct (bisect_left r d).
Qed.

(** With no date below [d], the search raises. *)
Lemma find_lt_none (d : date) (l : list date) :
  (forall y, In y l -> (d <= y)%Z) -> find_lt d l = Raise ValueError.
Proof.
  destruct l as [|y r]; trivial. intros H. rewrite find_lt_cons.
  specialize (H y (or_introl eq_refl)).
  apply Z.ltb_ge in H. now rewrite H.
Qed.

Lemma find_lt_In (d p : date) (l : list date) :
  find_lt d l = Ok p -> In p l /\ (p < d)%Z.
Proof.
  induction l as [|y r IH]; [discriminate|].
  rewrite find_lt_cons. destruct (y <? d)%Z eqn:E; [|discriminate].
  apply Z.ltb_lt in E. destruct (find_lt d r) as [q|e].
  - intros H. inversion H; subst. destruct (IH eq_refl). simpl. tauto.
  - intros H. inversion H; subst. simpl. tauto.
Qed.

(** On an ascending list the search returns the latest date below [d]. *)
Lemma find_lt_latest (d p : date) (l : list date) :
  ascending l -> In p l -> (p < d)%Z ->
  (forall y, In y l -> (y < d)%Z -> (y <= p)%Z) ->
  find_lt d l = Ok p.
Proof.
  induction l as [|y r IH]; simpl; [contradiction|].
  intros [Hy Hr] Hin Hlt Hmax. rewrite find_lt_cons.
  assert (Hyd : (y <? d)%Z = true).
  { apply Z.ltb_lt. destruct Hin as [->|Hin]; trivial.
    specialize (Hy p Hin). lia. }
  rewrite Hyd.
  assert (Hrest : In p r -> find_lt d r = Ok p).
  { intros Hin'. apply IH; trivial. intros z Hz. apply Hmax. now right. }
  destruct (find_lt d r) as [q|e] eqn:E.
  - destruct Hin as [->|Hin].
    + apply find_lt_In in E. destruct E as [Hq Hqd]. f_equal.
      specialize (Hmax q (or_intror Hq) Hqd). specialize (Hy q Hq). lia.
    + now apply Hrest.
  - destruct Hin as [->|Hin]; trivial.
    specialize (Hrest Hin). discriminate.
Qed.

Lemma Zeqb_eq (a b : Z) : (a =? b)%Z = true <-> a = b.
Proof. apply Z.eqb_eq. Qed.

Lemma Seqb_eq (a b : string) : String.eqb a b = true <-> a = b.
Proof. apply String.eqb_eq. Qed.

(** ** Queries before the first ledger entry *)

Lemma carry_to_no_previous (st : portfolio) (d : date)
  (so : option (list Security.t)) :
  (forall k, In k (dict_keys (positions st)) -> (d < k)%Z) ->
  carry_to d so st = (Raise ValueError, st).
Proof.
  intros H. unfold carry_to, bind, gets, lift.
  assert (Hm : dict_mem Z.eqb d (positions st) = false).
  { destruct (dict_mem Z.eqb d (positions st)) eqn:E; trivial.
    apply (dict_mem_In _ Zeqb_eq) in E. specialize (H d E). lia. }
  rewrite Hm. simpl. rewrite find_lt_none; trivial.
  intros y Hy. rewrite In_sorted in Hy. specialize (H y Hy). lia.
Qed.

(** C6.  At a date with no ledger entry at or before it (every ledger date
    is later), [carry_to] raises [ValueError] and so do [value] and each of
    the nine weighted queries; the portfolio is left as it was. *)
Theorem query_before_first_entry_fails (st : portfolio) (d : date)
  (so : option (list Security.t)) (kw : kwargs) :
  (forall k, In k (dict_keys (positions st)) -> (d < k)%Z) ->
  carry_to d so st = (Raise ValueError, st)
  /\ value d so st = (Raise ValueError, st)
  /\ forall m, weighted_query m d so kw st = (Raise ValueError, st).
Proof.
  intros H. split; [now apply carry_to_no_previous|]. split.
  - unfold value, bind at 1. unfold gets at 1. unfold bind at 1.
    now rewrite carry_to_no_previous.
  - intros m. unfold weighted_query, bind at 1. unfold gets at 1.
    unfold bind at 1. now rewrite carry_to_no_previous.
Qed.

(** ** [add_position] and the loop of [carry_to] in closed form *)

Lemma put_snapshot_get (d : date) (st : portfolio) :
  put_snapshot d (dict_get Z.eqb d (positions st)) st = st.
Proof.
  unfold put_snapshot. destruct (dict_get Z.eqb d (positions st)) eqn:E.
  - unfold set_positions. rewrite (dict_set_get _ _ _ _ E).
    now destruct st.
  - reflexivity.
Qed.

Lemma put_snapshot_twice (d : date) (a b : snapshot) (st : portfolio) :
  put_snapshot d (Some b) (put_snapshot d (Some a) st)
  = put_snapshot d (Some b) st.
Proof.
  unfold put_snapshot, set_positions; simpl.
  now rewrite (dict_set_set _ Zeqb_eq).
Qed.

Lemma positions_put_snapshot_same (d : date) (a : snapshot) (st : portfolio) :
  dict_get Z.eqb d (positions (put_snapshot d (Some a) st)) = Some a.
Proof. simpl. apply (dict_get_set_same _ Zeqb_eq). Qed.

Lemma positions_put_snapshot_other (d d' : date) (o : option snapshot)
  (st : portfolio) :
  d' <> d ->
  dict_get Z.eqb d' (positions (put_snapshot d o st))
  = dict_get Z.eqb d' (positions st).
Proof.
  intros H. destruct o; simpl; trivial.
  now apply (dict_get_set_other _ Zeqb_eq).
Qed.

Lemma add_position_eq (d : date) (name : string) (q : num) (st : portfolio) :
  add_position d name q st
  = (Ok tt,
     put_snapshot d (Some (add_snap name q (dict_get Z.eqb d (positions st)))) st).
Proof.
  unfold add_position, store, bind, positions_at, subscript, add_snap.
  now destruct (dict_get Z.eqb d (positions st)).
Qed.

Lemma carry_step_grows cur objs p d prev n (acc : option snapshot) :
  acc <> None -> snd (carry_step cur objs p d prev n acc) <> None.
Proof.
  intros H. unfold carry_step. destruct (get_security n objs) as [s|]; trivial.
  destruct (Security.is_expired s d); [discriminate|].
  destruct (dict_get String.eqb n prev); discriminate.
Qed.

Lemma carry_fold_grows cur objs p d prev names (acc : option snapshot) :
  acc <> None -> snd (carry_fold cur objs p d prev names acc) <> None.
Proof.
  revert acc. induction names as [|n r IH]; intros acc H; simpl; trivial.
  assert (H1 := carry_step_grows cur objs p d prev n acc H).
  destruct (carry_step cur objs p d prev n acc) as [[[]|e] acc']; simpl in *;
    auto.
Qed.

Lemma put_snapshot_after (d : date) (a b : option snapshot) (st : portfolio) :
  b <> None ->
  put_snapshot d b (put_snapshot d a st) = put_snapshot d b st.
Proof.
  intros H. destruct b as [b|]; [|contradiction].
  destruct a as [a|]; trivial. apply put_snapshot_twice.
Qed.

Lemma carry_body_eq (objs : list Security.t) (p d : date) (prev : snapshot)
  (n : string) (st : portfolio) :
  p <> d ->
  dict_get Z.eqb p (positions st) = Some prev ->
  carry_body d p objs n st
  = (fst (carry_step (currency st) objs p d prev n
            (dict_get Z.eqb d (positions st))),
     put_snapshot d
       (snd (carry_step (currency st) objs p d prev n
               (dict_get Z.eqb d (positions st)))) st).
Proof.
  intros Hpd Hprev. unfold carry_body, carry_step, bind, gets, lift.
  destruct (get_security n objs) as [s|]; simpl.
  - rewrite add_position_eq.
    destruct (Security.is_expired s d); simpl; trivial.
    unfold positions_at, subscript. simpl.
    rewrite (dict_get_set_other _ Zeqb_eq); trivial. rewrite Hprev.
    destruct (dict_get String.eqb n prev) as [q|]; trivial.
    rewrite add_position_eq. simpl.
    rewrite (dict_get_set_same _ Zeqb_eq).
    unfold put_snapshot, set_positions; simpl.
    now rewrite (dict_set_set _ Zeqb_eq).
  - now rewrite put_snapshot_get.
Qed.

Lemma carry_loop_eq (objs : list Security.t) (p d : date) (prev : snapshot)
  (names : list string) (st : portfolio) :
  p <> d ->
  dict_get Z.eqb p (positions st) = Some prev ->
  for_each names (carry_body d p objs) st
  = (fst (carry_fold (currency st) objs p d prev names
            (dict_get Z.eqb d (positions st))),
     put_snapshot d
       (snd (carry_fold (currency st) objs p d prev names
               (dict_get Z.eqb d (positions st)))) st).
Proof.
  intros Hpd. revert st. induction names as [|n r IH]; intros st Hprev.
  - simpl. now rewrite put_snapshot_get.
  - cbn [for_each carry_fold]. unfold bind.
    rewrite (carry_body_eq objs p d prev n st Hpd Hprev).
    set (acc := dict_get Z.eqb d (positions st)).
    destruct (carry_step (currency st) objs p d prev n acc)
      as [[[]|e] acc'] eqn:Hstep; cbn [fst snd]; trivial.
    destruct acc' as [a'|].
    + set (st1 := put_snapshot d (Some a') st).
      assert (Hprev1 : dict_get Z.eqb p (positions st1) = Some prev).
      { unfold st1. now rewrite positions_put_snapshot_other. }
      rewrite (IH st1 Hprev1).
      change (currency st1) with (currency st).
      unfold st1 at 1 2. rewrite positions_put_snapshot_same.
      f_equal. unfold st1. apply put_snapshot_after.
      apply carry_fold_grows. discriminate.
    + cbn [put_snapshot]. rewrite (IH st Hprev). fold acc.
      assert (Hacc : acc = None).
      { unfold carry_step in Hstep.
        destruct (get_security n objs) as [s|]; [|discriminate].
        destruct (Security.is_expired s d); [discriminate|].
        destruct (dict_get String.eqb n prev); discriminate. }
      now rewrite Hacc.
Qed.

Lemma carry_to_present (d : date) (so : option (list Security.t))
  (st : portfolio) :
  dict_mem Z.eqb d (positions st) = true -> carry_to d so st = (Ok tt, st).
Proof.
  intros H. unfold carry_to, bind, gets. now rewrite H.
Qed.

Lemma latest_before_find_lt (st : portfolio) (d p : date) :
  latest_before st d p ->
  find_lt d (sorted (dict_keys (positions st))) = Ok p.
Proof.
  intros (Hin & Hlt & Hmax). apply find_lt_latest; trivial.
  - apply ascending_sorted.
  - now apply In_sorted.
  - intros y Hy. apply Hmax. now apply In_sorted.
Qed.

Lemma find_lt_latest_before (st : portfolio) (d p : date) :
  find_lt d (sorted (dict_keys (positions st))) = Ok p ->
  In p (dict_keys (positions st)) /\ (p < d)%Z.
Proof.
  intros H. apply find_lt_In in H. now rewrite In_sorted in H.
Qed.

Lemma carry_to_eq (d p : date) (prev : snapshot)
  (so : option (list Security.t)) (st : portfolio) :
  dict_get Z.eqb d (positions st) = None ->
  find_lt d (sorted (dict_keys (positions st))) = Ok p ->
  dict_get Z.eqb p (positions st) = Some prev ->
  carry_to d so st
  = (fst (carry_fold (currency st) (objects_or_default so st) p d prev
            (dict_keys prev) None),
     put_snapshot d
       (snd (carry_fold (currency st) (objects_or_default so st) p d prev
               (dict_keys prev) None)) st).
Proof.
  intros Hd Hfind Hprev. unfold carry_to, bind, gets, lift.
  apply dict_mem_false in Hd as Hm. rewrite Hm. cbn [negb].
  rewrite Hfind. unfold positions_at, subscript. rewrite Hprev.
  assert (Hpd : p <> d).
  { apply find_lt_latest_before in Hfind. lia. }
  rewrite (carry_loop_eq _ p d prev _ st Hpd Hprev). now rewrite Hd.
Qed.

(** ** Lookups after [add_position] *)

Lemma lookup_add_snap_same (n : string) (q : num) (acc : option snapshot) :
  lookup n (Some (add_snap n q acc)) = Some (held n acc + q)%num.
Proof.
  unfold held, lookup, add_snap. destruct acc as [snap|].
  - rewrite (dict_get_set_same _ Seqb_eq). unfold dict_get_or.
    now destruct (dict_get String.eqb n snap).
  - cbn [dict_get]. now rewrite String.eqb_refl, nadd_0_l.
Qed.

Lemma lookup_add_snap_other (k n : string) (q : num) (acc : option snapshot) :
  k <> n -> lookup k (Some (add_snap n q acc)) = lookup k acc.
Proof.
  intros H. unfold lookup, add_snap. destruct acc as [snap|]; simpl.
  - now apply (dict_get_set_other _ Seqb_eq).
  - apply String.eqb_neq in H. now rewrite H.
Qed.

Lemma uniq_add_snap (n : string) (q : num) (acc : option snapshot) :
  uniq_opt acc -> uniq_opt (Some (add_snap n q acc)).
Proof.
  destruct acc as [snap|]; simpl; trivial.
  apply (uniq_keys_set _ Seqb_eq).
Qed.

Lemma big_sum_app (xs ys : list num) :
  big_sum (xs ++ ys) = (big_sum xs + big_sum ys)%num.
Proof.
  induction xs as [|x r IH]; simpl.
  - now rewrite nadd_0_l.
  - now rewrite IH, nadd_assoc.
Qed.

Lemma fold_left_nadd (xs : list num) (a : num) :
  fold_left nadd xs a = (a + big_sum xs)%num.
Proof.
  revert a. induction xs as [|x r IH]; intros a; simpl.
  - now rewrite nadd_0_r.
  - now rewrite IH, nadd_assoc.
Qed.

Lemma sum_big_sum (xs : list num) : sum xs = big_sum xs.
Proof. unfold sum. now rewrite fold_left_nadd, nadd_0_l. Qed.

(** Adding [q] under [n] raises the worth of the snapshot by [uv n * q]. *)
Lemma worth_add_snap (uv : string -> num) (n : string) (q : num)
  (snap : snapshot) :
  worth uv (add_snap n q (Some snap)) = (worth uv snap + uv n * q)%num.
Proof.
  unfold add_snap, worth, dict_get_or.
  induction snap as [|[k v] r IH]; cbn [dict_get dict_set map big_sum fold_right fst snd].
  - now rewrite nadd_0_l, nadd_0_l, nadd_0_r.
  - destruct (String.eqb n k) eqn:E; cbn [map big_sum fold_right fst snd].
    + apply String.eqb_eq in E. subst k.
      rewrite nmul_add_distr_l. apply nadd_swap.
    + unfold big_sum in IH. rewrite IH. now rewrite nadd_assoc.
Qed.

Lemma worth_add_snap_opt (uv : string -> num) (n : string) (q : num)
  (acc : option snapshot) :
  worth uv (add_snap n q acc)
  = (match acc with Some snap => worth uv snap | None => nzero end
     + uv n * q)%num.
Proof.
  destruct acc as [snap|].
  - apply worth_add_snap.
  - unfold worth, add_snap, big_sum. cbn [map fold_right fst snd].
    now rewrite nadd_0_l, nadd_0_r.
Qed.

(** ** What the loop of [carry_to] leaves under each name *)

Section CarryFacts.
Variables (cur : string) (objs : list Security.t) (p d : date)
          (prev : snapshot).

Let step := carry_step cur objs p d prev.
Let fold := carry_fold cur objs p d prev.

Lemma carry_step_other (k n : string) (acc : option snapshot) :
  k <> cur -> k <> n -> lookup k (snd (step n acc)) = lookup k acc.
Proof.
  intros Hc Hn. unfold step, carry_step.
  destruct (get_security n objs) as [s|]; trivial.
  destruct (Security.is_expired s d); cbn [snd].
  - now apply lookup_add_snap_other.
  - destruct (dict_get String.eqb n prev); cbn [snd].
    + rewrite lookup_add_snap_other; trivial.
      now apply lookup_add_snap_other.
    + now apply lookup_add_snap_other.
Qed.

Lemma carry_step_expired (k : string) (acc : option snapshot) :
  k <> cur -> expired_at objs d k = true ->
  lookup k (snd (step k acc)) = lookup k acc.
Proof.
  intros Hc He. unfold step, carry_step. unfold expired_at in He.
  destruct (get_security k objs) as [s|]; trivial.
  rewrite He. cbn [snd]. now apply lookup_add_snap_other.
Qed.

Lemma carry_step_carried (k : string) (acc : option snapshot) :
  k <> cur -> resolves objs k = true -> expired_at objs d k = false ->
  lookup k acc = None ->
  fst (step k acc) = Ok tt ->
  lookup k (snd (step k acc)) = dict_get String.eqb k prev.
Proof.
  intros Hc Hr He Hk. unfold step, carry_step.
  unfold resolves in Hr. unfold expired_at in He.
  destruct (get_security k objs) as [s|]; [|discriminate].
  rewrite He. destruct (dict_get String.eqb k prev) as [q|]; cbn [fst snd].
  - intros _. rewrite lookup_add_snap_same. unfold held.
    rewrite lookup_add_snap_other; trivial.
    now rewrite Hk, nadd_0_l.
  - discriminate.
Qed.

Lemma carry_step_carried_so_far (n : string) (r : list string)
  (acc : option snapshot) :
  NoDup (n :: r) ->
  carried_so_far cur prev (n :: r) acc ->
carried_so_far cur prev r (snd (step n acc)).
Proof.
  intros Hnd Hinv k Hk. inversion Hnd as [|? ? Hnr Hr]; subst.
  destruct (String.eqb_spec k n) as [->|Hkn].
  - destruct (Hinv n Hk) as [Hnone|[_ Hnot]]; [|simpl in Hnot; tauto].
    unfold step, carry_step.
    destruct (get_security n objs) as [s|]; [|now left].
    destruct (Security.is_expired s d); cbn [snd].
    + left. now rewrite lookup_add_snap_other.
    + destruct (dict_get String.eqb n prev) as [q|]; cbn [snd].
      * right. split; trivial. rewrite lookup_add_snap_same. unfold held.
        rewrite lookup_add_snap_other; trivial.
        now rewrite Hnone, nadd_0_l.
      * left. now rewrite lookup_add_snap_other.
  - fold step. rewrite carry_step_other; trivial.
    destruct (Hinv k Hk) as [Hnone|[Heq Hnot]]; [now left|].
    right. split; trivial. simpl in Hnot. tauto.
Qed.

Lemma carry_fold_carried_so_far (names : list string)
  (acc : option snapshot) :
  NoDup names ->
  carried_so_far cur prev names acc ->
carried_so_far cur prev [] (snd (fold names acc)).
Proof.
  revert acc. induction names as [|n r IH]; intros acc Hnd Hinv; trivial.
  unfold fold. cbn [carry_fold].
  assert (H1 := carry_step_carried_so_far n r acc Hnd Hinv).
  inversion Hnd; subst. unfold step in H1.
  destruct (carry_step cur objs p d prev n acc) as [[[]|e] acc'];
    cbn [snd] in *.
  - now apply IH.
  - intros k Hk. destruct (H1 k Hk) as [H|[H _]]; [now left|].
    right. split; trivial. intros [].
Qed.

Lemma carry_fold_other (k : string) (names : list string)
  (acc : option snapshot) :
  k <> cur -> ~ In k names -> lookup k (snd (fold names acc)) = lookup k acc.
Proof.
  intros Hc. revert acc. induction names as [|n r IH]; intros acc Hn; trivial.
  unfold fold. cbn [carry_fold].
  assert (H1 := carry_step_other k n acc Hc).
  unfold step in H1.
  destruct (carry_step cur objs p d prev n acc) as [[[]|e] acc'];
    cbn [snd] in *.
  - fold fold. rewrite IH; [apply H1|]; simpl in Hn; intuition.
  - apply H1. simpl in Hn. intuition.
Qed.

(** An expired instrument other than the currency is never stored. *)
Lemma carry_fold_expired (k : string) (names : list string)
  (acc : option snapshot) :
  k <> cur -> expired_at objs d k = true ->
  lookup k (snd (fold names acc)) = lookup k acc.
Proof.
  intros Hc He. revert acc. induction names as [|n r IH]; intros acc; trivial.
  unfold fold. cbn [carry_fold].
  assert (H1 : lookup k (snd (step n acc)) = lookup k acc).
  { destruct (String.eqb_spec k n) as [<-|Hkn].
    - now apply carry_step_expired.
    - now apply carry_step_other. }
  unfold step in H1.
  destruct (carry_step cur objs p d prev n acc) as [[[]|e] acc'];
    cbn [snd] in *; trivial.
  fold fold. now rewrite IH.
Qed.

(** A resolved, unexpired name keeps the quantity of the previous
    snapshot. *)
Lemma carry_fold_carried (k : string) (names : list string)
  (acc : option snapshot) :
  NoDup names -> In k names ->
  k <> cur -> resolves objs k = true -> expired_at objs d k = false ->
  lookup k acc = None ->
  fst (fold names acc) = Ok tt ->
  lookup k (snd (fold names acc)) = dict_get String.eqb k prev.
Proof.
  intros Hnd Hin Hc Hr He. revert acc Hnd Hin.
  induction names as [|n r IH]; intros acc Hnd Hin Hk; [contradiction|].
  inversion Hnd as [|? ? Hnr Hndr]; subst.
  unfold fold. cbn [carry_fold].
  destruct (String.eqb_spec k n) as [<-|Hkn].
  - assert (H1 := carry_step_carried k acc Hc Hr He Hk). unfold step in H1.
    destruct (carry_step cur objs p d prev k acc) as [[[]|e] acc'];
      cbn [fst snd] in *; [|discriminate].
    intros _. fold fold. rewrite carry_fold_other; auto.
  - assert (H1 := carry_step_other k n acc Hc Hkn). unfold step in H1.
    destruct (carry_step cur objs p d prev n acc) as [[[]|e] acc'];
      cbn [fst snd] in *; [|discriminate].
    intros Hok. apply IH; trivial.
    + destruct Hin as [->|]; [contradiction | trivial].
    + now rewrite H1.
Qed.

Lemma carry_fold_uniq (names : list string) (acc : option snapshot) :
  uniq_opt acc -> uniq_opt (snd (fold names acc)).
Proof.
  revert acc. induction names as [|n r IH]; intros acc Hu; trivial.
  unfold fold. cbn [carry_fold].
  assert (H1 : uniq_opt (snd (step n acc))).
  { unfold step, carry_step. destruct (get_security n objs) as [s|]; trivial.
    destruct (Security.is_expired s d); cbn [snd].
    - now apply uniq_add_snap.
    - destruct (dict_get String.eqb n prev); cbn [snd];
        repeat apply uniq_add_snap; trivial. }
  unfold step in H1.
  destruct (carry_step cur objs p d prev n acc) as [[[]|e] acc'];
    cbn [snd] in *; trivial.
  now apply IH.
Qed.

(** The loop returns normally when every held name has an object. *)
Lemma carry_fold_ok (names : list string) (acc : option snapshot) :
  (forall n, In n names -> resolves objs n = true) ->
  (forall n, In n names -> In n (dict_keys prev)) ->
  fst (fold names acc) = Ok tt.
Proof.
  revert acc. induction names as [|n r IH]; intros acc Hr Hp; trivial.
  unfold fold. cbn [carry_fold]. unfold carry_step.
  specialize (Hr n (or_introl eq_refl)) as Hn. unfold resolves in Hn.
  destruct (get_security n objs) as [s|]; [|discriminate].
  destruct (dict_get_In _ Seqb_eq n prev (Hp n (or_introl eq_refl))) as [q Hq].
  rewrite Hq.
  destruct (Security.is_expired s d); apply IH; intros; (apply Hr || apply Hp);
    now right.
Qed.
End CarryFacts.

(** ** The currency balance and the worth of a carried snapshot *)

Lemma big_sum_map_add {A} (f g : A -> num) (l : list A) :
  big_sum (map (fun x => f x + g x)%num l)
  = (big_sum (map f l) + big_sum (map g l))%num.
Proof.
  induction l as [|x r IH]; simpl.
  - now rewrite nadd_0_l.
  - rewrite IH. apply nadd_shuffle.
Qed.

Lemma big_sum_zero {A} (f : A -> num) (l : list A) :
  (forall x, In x l -> f x = nzero) -> big_sum (map f l) = nzero.
Proof.
  induction l as [|x r IH]; simpl; trivial. intros H.
  rewrite H by now left.
  rewrite IH by (intros; apply H; now right). apply nadd_0_l.
Qed.

(** A sum with at most one non-zero term. *)
Lemma big_sum_single (c : string) (v : num) (names : list string) :
  NoDup names ->
  big_sum (map (fun n => if String.eqb n c then v else nzero) names)
  = if existsb (String.eqb c) names then v else nzero.
Proof.
  induction names as [|n r IH]; simpl; trivial.
  intros Hnd. inversion Hnd as [|? ? Hn Hr]; subst.
  rewrite (String.eqb_sym c n). destruct (String.eqb_spec n c) as [->|Hne].
  - simpl. rewrite big_sum_zero; [apply nadd_0_r|].
    intros x Hx. destruct (String.eqb_spec x c); trivial. congruence.
  - simpl. rewrite IH; trivial. apply nadd_0_l.
Qed.

Lemma uniq_keys_NoDup (snap : snapshot) :
  uniq_keys String.eqb snap = true -> NoDup (dict_keys snap).
Proof.
  induction snap as [|[k v] r IH]; simpl; [constructor|].
  rewrite andb_true_iff, negb_true_iff. intros [Hm Hu]. constructor; auto.
  intros Hin. apply (dict_mem_In _ Seqb_eq) in Hin. congruence.
Qed.

Lemma existsb_keys (c : string) (snap : snapshot) :
  existsb (String.eqb c) (dict_keys snap) = dict_mem String.eqb c snap.
Proof.
  unfold dict_mem. induction snap as [|[k v] r IH]; simpl; trivial.
  destruct (String.eqb c k); simpl; trivial.
Qed.

Section CarryBalance.
Variables (cur : string) (objs : list Security.t) (p d : date)
          (prev : snapshot).

Lemma carry_step_balance (n : string) (acc : option snapshot) :
  fst (carry_step cur objs p d prev n acc) = Ok tt ->
  held cur (snd (carry_step cur objs p d prev n acc))
  = (held cur acc + credit cur objs p d prev n)%num.
Proof.
  unfold carry_step, credit, cash_of, expired_at, dict_get_or.
  destruct (String.eqb_spec n cur) as [->|Hne].
  - destruct (get_security cur objs) as [s|]; [|discriminate].
    destruct (Security.is_expired s d); cbn [fst snd].
    + intros _. unfold held at 1. rewrite lookup_add_snap_same.
      now rewrite nadd_0_r.
    + destruct (dict_get String.eqb cur prev) as [q|]; [|discriminate].
      cbn [fst snd]. intros _. unfold held at 1.
      rewrite lookup_add_snap_same. unfold held at 1.
      rewrite lookup_add_snap_same. now rewrite nadd_assoc.
  - destruct (get_security n objs) as [s|]; [|discriminate].
    assert (Hcn : cur <> n) by congruence.
    destruct (Security.is_expired s d); cbn [fst snd].
    + intros _. unfold held at 1. rewrite lookup_add_snap_same.
      now rewrite nadd_0_r.
    + destruct (dict_get String.eqb n prev) as [q|]; [|discriminate].
      cbn [fst snd]. intros _. unfold held at 1.
      rewrite lookup_add_snap_other; trivial.
      rewrite lookup_add_snap_same. now rewrite nadd_0_r.
Qed.

Lemma carry_fold_balance (names : list string) (acc : option snapshot) :
  fst (carry_fold cur objs p d prev names acc) = Ok tt ->
  held cur (snd (carry_fold cur objs p d prev names acc))
  = (held cur acc + big_sum (map (credit cur objs p d prev) names))%num.
Proof.
  revert acc. induction names as [|n r IH]; intros acc; cbn [carry_fold].
  - intros _. simpl. now rewrite nadd_0_r.
  - assert (H1 := carry_step_balance n acc).
    destruct (carry_step cur objs p d prev n acc) as [[[]|e] acc'];
      cbn [fst snd] in *; [|discriminate].
    intros Hok. rewrite (IH acc' Hok), (H1 eq_refl). simpl.
    now rewrite nadd_assoc.
Qed.

Lemma big_sum_credit :
  uniq_keys String.eqb prev = true ->
  big_sum (map (credit cur objs p d prev) (dict_keys prev))
  = (accrued_cash objs p d prev + carried_balance cur objs d prev)%num.
Proof.
  intros Hu. unfold credit. rewrite big_sum_map_add. f_equal.
  rewrite big_sum_single by now apply uniq_keys_NoDup.
  unfold carried_balance. rewrite existsb_keys.
  destruct (dict_mem String.eqb cur prev); trivial.
  now destruct (expired_at objs d cur).
Qed.

Lemma carry_step_worth (uv : string -> num) (n : string)
  (acc : option snapshot) :
  uv cur = none ->
  fst (carry_step cur objs p d prev n acc) = Ok tt ->
  worth_opt uv (snd (carry_step cur objs p d prev n acc))
  = (worth_opt uv acc + gain objs p d prev uv n)%num.
Proof.
  intros Hcur. unfold carry_step, gain, cash_of, expired_at, dict_get_or.
  destruct (get_security n objs) as [s|]; [|discriminate].
  destruct (Security.is_expired s d); cbn [fst snd].
  - intros _. unfold worth_opt at 1. rewrite worth_add_snap_opt.
    now rewrite Hcur, nmul_1_l, nadd_0_r.
  - destruct (dict_get String.eqb n prev) as [q|]; [|discriminate].
    cbn [fst snd]. intros _. unfold worth_opt at 1.
    rewrite worth_add_snap, worth_add_snap_opt.
    now rewrite Hcur, nmul_1_l, nadd_assoc.
Qed.

Lemma carry_fold_worth (uv : string -> num) (names : list string)
  (acc : option snapshot) :
  uv cur = none ->
  fst (carry_fold cur objs p d prev names acc) = Ok tt ->
  worth_opt uv (snd (carry_fold cur objs p d prev names acc))
  = (worth_opt uv acc + big_sum (map (gain objs p d prev uv) names))%num.
Proof.
  intros Hcur. revert acc.
  induction names as [|n r IH]; intros acc; cbn [carry_fold].
  - intros _. simpl. now rewrite nadd_0_r.
  - assert (H1 := carry_step_worth uv n acc Hcur).
    destruct (carry_step cur objs p d prev n acc) as [[[]|e] acc'];
      cbn [fst snd] in *; [|discriminate].
    intros Hok. rewrite (IH acc' Hok), (H1 eq_refl). simpl.
    now rewrite nadd_assoc.
Qed.
End CarryBalance.

(** ** Dictionaries built by a loop over distinct names *)

Lemma dict_keys_app {V} (a b : dict string V) :
  dict_keys (a ++ b) = dict_keys a ++ dict_keys b.
Proof. apply map_app. Qed.

Lemma build_dict {V} (h : string -> V) (names : list string)
  (acc : dict string V) :
  NoDup (dict_keys acc ++ names) ->
  fold_left (fun a n => dict_set String.eqb n (h n) a) names acc
  = acc ++ map (fun n => (n, h n)) names.
Proof.
  revert acc. induction names as [|n r IH]; intros acc Hnd; simpl.
  - now rewrite app_nil_r.
  - assert (Hfresh : dict_get String.eqb n acc = None).
    { apply dict_mem_false.
      destruct (dict_mem String.eqb n acc) eqn:E; trivial.
      apply (dict_mem_In _ Seqb_eq) in E.
      apply NoDup_remove_2 in Hnd. exfalso. apply Hnd.
      apply in_or_app. now left. }
    rewrite (dict_set_fresh _ _ _ _ Hfresh).
    rewrite IH.
    + now rewrite <- app_assoc.
    + rewrite dict_keys_app. simpl. now rewrite <- app_assoc.
Qed.

Lemma dict_get_or_tail {V} (k n : string) (v dflt : V) (r : dict string V) :
  n <> k ->
  dict_get_or String.eqb n dflt ((k, v) :: r) = dict_get_or String.eqb n dflt r.
Proof.
  intros H. unfold dict_get_or. simpl.
  apply String.eqb_neq in H. now rewrite H.
Qed.

(** Looking each key up again gives back the entries. *)
Lemma map_keys_lookup {B} (g : string -> num -> B) (snap : snapshot) :
  uniq_keys String.eqb snap = true ->
  map (fun n => g n (dict_get_or String.eqb n nzero snap)) (dict_keys snap)
  = map (fun nq => g (fst nq) (snd nq)) snap.
Proof.
  induction snap as [|[k v] r IH]; simpl; trivial.
  rewrite andb_true_iff, negb_true_iff. intros [Hm Hu]. f_equal.
  - unfold dict_get_or. simpl. now rewrite String.eqb_refl.
  - rewrite <- IH by trivial. apply map_ext_in. intros n Hn.
    rewrite dict_get_or_tail; trivial.
    intros ->. apply (dict_mem_In _ Seqb_eq) in Hn. congruence.
Qed.

Lemma dict_get_map_entries {B} (g : string -> num -> B) (n : string)
  (snap : snapshot) :
  dict_get String.eqb n (map (fun nq => (fst nq, g (fst nq) (snd nq))) snap)
  = option_map (g n) (dict_get String.eqb n snap).
Proof.
  induction snap as [|[k v] r IH]; simpl; trivial.
  destruct (String.eqb_spec n k) as [->|]; trivial.
Qed.

(** ** [value] in closed form *)

Lemma with_stdout_nil (st : portfolio) : with_stdout [] st = st.
Proof. unfold with_stdout. rewrite app_nil_r. now destruct st. Qed.

Lemma with_stdout_app (a b : list line) (st : portfolio) :
  with_stdout b (with_stdout a st) = with_stdout (a ++ b) st.
Proof. unfold with_stdout; simpl. now rewrite app_assoc. Qed.

Lemma value_body_eq (d : date) (objs : list Security.t) (snap : snapshot)
  (vd : dict string num) (n : string) (q : num) (st : portfolio) :
  dict_get Z.eqb d (positions st) = Some snap ->
  dict_get String.eqb n snap = Some q ->
  n = currency st \/ resolves objs n = true ->
  value_body d objs vd n st
  = (Ok (dict_set String.eqb n (unit_value_of (currency st) objs d n * q)%num vd),
     with_stdout (value_diag (currency st) objs d n) st).
Proof.
  intros Hd Hq Hres.
  unfold value_body, unit_value_of, value_diag, resolves in *.
  unfold bind, gets, lift, ret, positions_at, subscript.
  destruct (String.eqb_spec n (currency st)) as [Heq|Hne].
  - rewrite Hd. simpl. rewrite Hq. now rewrite with_stdout_nil.
  - destruct Hres as [|Hres]; [contradiction|].
    destruct (get_security n objs) as [s|]; [|discriminate].
    cbn [call_value]. destruct (isnan (Security.value s d)).
    + unfold print. cbn [positions]. rewrite Hd. simpl. rewrite Hq.
      reflexivity.
    + rewrite Hd. simpl. rewrite Hq. now rewrite with_stdout_nil.
Qed.

Lemma value_loop_eq (d : date) (objs : list Security.t) (snap : snapshot)
  (names : list string) (vd : dict string num) (st : portfolio) :
  dict_get Z.eqb d (positions st) = Some snap ->
  (forall n, In n names ->
     In n (dict_keys snap) /\ (n = currency st \/ resolves objs n = true)) ->
  for_fold names (value_body d objs) vd st
  = (Ok (fold_left
           (fun a n =>
              dict_set String.eqb n
                (unit_value_of (currency st) objs d n
                 * dict_get_or String.eqb n nzero snap)%num a)
           names vd),
     with_stdout (flat_map (value_diag (currency st) objs d) names) st).
Proof.
  intros Hd. revert vd st Hd.
  induction names as [|n r IH]; intros vd st Hd Hall.
  - simpl. unfold ret. now rewrite with_stdout_nil.
  - cbn [for_fold fold_left flat_map]. unfold bind.
    destruct (Hall n (or_introl eq_refl)) as [Hin Hres].
    destruct (dict_get_In _ Seqb_eq n snap Hin) as [q Hq].
    rewrite (value_body_eq d objs snap vd n q st Hd Hq Hres).
    assert (Hq' : dict_get_or String.eqb n nzero snap = q).
    { unfold dict_get_or. now rewrite Hq. }
    rewrite IH.
    + change (currency (with_stdout (value_diag (currency st) objs d n) st))
        with (currency st).
      now rewrite with_stdout_app, Hq'.
    + exact Hd.
    + intros k Hk. apply Hall. now right.
Qed.

Lemma value_eq (d : date) (so : option (list Security.t)) (snap : snapshot)
  (st : portfolio) :
  dict_get Z.eqb d (positions st) = Some snap ->
  uniq_keys String.eqb snap = true ->
  (forall n, In n (dict_keys snap) ->
     n = currency st \/ resolves (objects_or_default so st) n = true) ->
  value d so st
  = (Ok (sum (dict_values
                (value_breakdown (currency st) (objects_or_default so st) d snap)),
         value_breakdown (currency st) (objects_or_default so st) d snap),
     with_stdout
       (flat_map (value_diag (currency st) (objects_or_default so st) d)
                 (dict_keys snap)) st).
Proof.
  intros Hd Hu Hres. unfold value.
  unfold bind at 1. unfold gets at 1. unfold bind at 1.
  rewrite carry_to_present by (unfold dict_mem; now rewrite Hd).
  unfold bind at 1. unfold positions_at at 1, subscript at 1. rewrite Hd.
  unfold bind at 1.
  rewrite (value_loop_eq d _ snap); trivial.
  - unfold ret. rewrite build_dict by (now apply uniq_keys_NoDup).
    cbn [app].
    rewrite (map_keys_lookup
               (fun n x => (n, (unit_value_of (currency st)
                                  (objects_or_default so st) d n * x)%num)))
      by trivial.
    reflexivity.
  - intros n Hn. split; trivial. now apply Hres.
Qed.

(** ** The currency entry of a carried snapshot *)

Section CarryCurrency.
Variables (cur : string) (objs : list Security.t) (p d : date)
          (prev : snapshot).

Lemma carry_step_keeps_cur (n : string) (acc : option snapshot) :
  lookup cur acc <> None ->
  lookup cur (snd (carry_step cur objs p d prev n acc)) <> None.
Proof.
  intros H. unfold carry_step.
  destruct (get_security n objs) as [s|]; trivial.
  assert (H1 : lookup cur (Some (add_snap cur (Security.cash_to_date s p d) acc))
               <> None)
    by (rewrite lookup_add_snap_same; discriminate).
  destruct (Security.is_expired s d); trivial.
  destruct (dict_get String.eqb n prev) as [q|]; trivial. cbn [snd].
  destruct (String.eqb_spec cur n) as [<-|Hne].
  - rewrite lookup_add_snap_same. discriminate.
  - now rewrite lookup_add_snap_other.
Qed.

Lemma carry_step_has_cur (n : string) (acc : option snapshot) :
  fst (carry_step cur objs p d prev n acc) = Ok tt ->
  lookup cur (snd (carry_step cur objs p d prev n acc)) <> None.
Proof.
  unfold carry_step. destruct (get_security n objs) as [s|]; [|discriminate].
  assert (H1 : lookup cur (Some (add_snap cur (Security.cash_to_date s p d) acc))
               <> None)
    by (rewrite lookup_add_snap_same; discriminate).
  destruct (Security.is_expired s d); trivial.
  destruct (dict_get String.eqb n prev) as [q|]; [|discriminate].
  cbn [fst snd]. intros _.
  destruct (String.eqb_spec cur n) as [<-|Hne].
  - rewrite lookup_add_snap_same. discriminate.
  - now rewrite lookup_add_snap_other.
Qed.

Lemma carry_fold_keeps_cur (names : list string) (acc : option snapshot) :
  lookup cur acc <> None ->
  lookup cur (snd (carry_fold cur objs p d prev names acc)) <> None.
Proof.
  revert acc. induction names as [|n r IH]; intros acc H; trivial.
  cbn [carry_fold]. assert (H1 := carry_step_keeps_cur n acc H).
  destruct (carry_step cur objs p d prev n acc) as [[[]|e] acc'];
    cbn [snd] in *; auto.
Qed.

Lemma carry_fold_has_cur (names : list string) (acc : option snapshot) :
  names <> [] ->
  fst (carry_fold cur objs p d prev names acc) = Ok tt ->
  lookup cur (snd (carry_fold cur objs p d prev names acc)) <> None.
Proof.
  destruct names as [|n r]; [congruence|]. intros _. cbn [carry_fold].
  assert (H1 := carry_step_has_cur n acc).
  destruct (carry_step cur objs p d prev n acc) as [[[]|e] acc'];
    cbn [fst snd] in *; [|discriminate].
  intros _. apply carry_fold_keeps_cur. now apply H1.
Qed.
End CarryCurrency.

Lemma lookup_held (k : string) (acc : option snapshot) :
  lookup k acc <> None -> lookup k acc = Some (held k acc).
Proof.
  unfold held. destruct (lookup k acc); [trivial | congruence].
Qed.

Lemma latest_before_snapshot (st : portfolio) (d p : date) :
  latest_before st d p ->
  exists prev, dict_get Z.eqb p (positions st) = Some prev.
Proof.
  intros (Hin & _). now apply (dict_get_In _ Zeqb_eq).
Qed.

(** ** Expiry during carry-forward *)

(** C8.  Carrying a snapshot at [d1] to a later date [d2] without entry: an
    instrument (a held name other than the currency) whose object is expired
    at [d2] is absent from the snapshot at [d2], whatever the outcome of
    [carry_to]; and when every held name has an object, [carry_to] returns
    and the currency balance at [d2] is the sum of the [cash_to_date]
    accruals of the held names plus the balance carried from [d1], with
    nothing credited for the expired instrument. *)
Theorem expired_instrument_dropped (st : portfolio) (d1 d2 : date)
  (so : option (list Security.t)) (prev : snapshot) (n : string) :
  dict_get Z.eqb d2 (positions st) = None ->
  latest_before st d2 d1 ->
  dict_get Z.eqb d1 (positions st) = Some prev ->
  uniq_keys String.eqb prev = true ->
  In n (dict_keys prev) ->
  n <> currency st ->
  expired_at (objects_or_default so st) d2 n = true ->
  (forall snap2,
      dict_get Z.eqb d2 (positions (snd (carry_to d2 so st))) = Some snap2 ->
      dict_get String.eqb n snap2 = None)
  /\ ((forall k, In k (dict_keys prev) ->
         resolves (objects_or_default so st) k = true) ->
      exists snap2,
        carry_to d2 so st = (Ok tt, put_snapshot d2 (Some snap2) st)
        /\ dict_get String.eqb n snap2 = None
        /\ dict_get String.eqb (currency st) snap2
           = Some (accrued_cash (objects_or_default so st) d1 d2 prev
                   + carried_balance (currency st) (objects_or_default so st)
                       d2 prev)%num).
Proof.
  intros Hd2 Hlatest Hprev Hu Hin Hcur Hexp.
  set (objs := objects_or_default so st) in *.
  assert (Hfind := latest_before_find_lt st d2 d1 Hlatest).
  rewrite (carry_to_eq d2 d1 prev so st Hd2 Hfind Hprev). fold objs.
  set (F := carry_fold (currency st) objs d1 d2 prev (dict_keys prev) None).
  assert (Habs : lookup n (snd F) = None).
  { unfold F. now rewrite carry_fold_expired. }
  split.
  - intros snap2. cbn [snd]. destruct (snd F) as [s2|]; cbn [put_snapshot].
    + cbn [positions set_positions].
      rewrite (dict_get_set_same _ Zeqb_eq). intros H. inversion H; subst.
      exact Habs.
    + rewrite Hd2. discriminate.
  - intros Hres.
    assert (Hok : fst F = Ok tt) by (apply carry_fold_ok; auto).
    assert (Hne : dict_keys prev <> []).
    { intros E. rewrite E in Hin. contradiction. }
    assert (Hc := carry_fold_has_cur (currency st) objs d1 d2 prev
                    (dict_keys prev) None Hne Hok).
    fold F in Hc. apply lookup_held in Hc as Hc'.
    unfold F in Hc' at 2. rewrite carry_fold_balance in Hc' by exact Hok.
    rewrite big_sum_credit in Hc' by exact Hu.
    destruct (snd F) as [s2|] eqn:HF; [|now elim Hc].
    exists s2. rewrite Hok. repeat split; trivial.
    cbn [lookup] in Hc'. rewrite Hc'. unfold held. cbn [lookup].
    now rewrite nadd_0_l.
Qed.

(** ** Queries at a date that [carry_to] materializes *)

Lemma carry_to_objects (d : date) (so : option (list Security.t))
  (st : portfolio) :
  carry_to d (Some (objects_or_default so st)) st = carry_to d so st.
Proof. reflexivity. Qed.

Lemma value_once_carried (d : date) (so : option (list Security.t))
  (st st' : portfolio) :
  carry_to d so st = (Ok tt, st') ->
  dict_mem Z.eqb d (positions st') = true ->
  security_objects st' = security_objects st ->
  value d so st = value d so st'.
Proof.
  intros Hc Hm Hobjs.
  assert (Ho : objects_or_default so st' = objects_or_default so st).
  { destruct so; simpl; trivial. }
  unfold value. unfold bind at 1. unfold gets at 1. unfold bind at 1.
  rewrite carry_to_objects, Hc.
  symmetry. unfold bind at 1. unfold gets at 1. unfold bind at 1.
  rewrite carry_to_present by exact Hm. now rewrite Ho.
Qed.

Lemma weighted_query_once_carried (m : metric) (d : date)
  (so : option (list Security.t)) (kw : kwargs) (st st' : portfolio) :
  carry_to d so st = (Ok tt, st') ->
  dict_mem Z.eqb d (positions st') = true ->
  security_objects st' = security_objects st ->
  weighted_query m d so kw st = weighted_query m d so kw st'.
Proof.
  intros Hc Hm Hobjs.
  assert (Ho : objects_or_default so st' = objects_or_default so st).
  { destruct so; simpl; trivial. }
  unfold weighted_query. unfold bind at 1. unfold gets at 1. unfold bind at 1.
  rewrite carry_to_objects, Hc.
  symmetry. unfold bind at 1. unfold gets at 1. unfold bind at 1.
  rewrite carry_to_present by exact Hm. now rewrite Ho.
Qed.

Lemma dict_values_value_breakdown cur objs d (snap : snapshot) :
  sum (dict_values (value_breakdown cur objs d snap))
  = worth (unit_value_of cur objs d) snap.
Proof.
  rewrite sum_big_sum. unfold dict_values, value_breakdown, worth.
  now rewrite map_map.
Qed.

Lemma unit_value_of_currency cur objs d : unit_value_of cur objs d cur = none.
Proof. unfold unit_value_of. now rewrite String.eqb_refl. Qed.

(** The names of a carried snapshot are the currency and held names. *)
Lemma carry_fold_names cur objs p d prev (k : string) :
  uniq_keys String.eqb prev = true ->
  lookup k (snd (carry_fold cur objs p d prev (dict_keys prev) None)) <> None ->
  k = cur \/ In k (dict_keys prev).
Proof.
  intros Hu Hk. destruct (String.eqb_spec k cur) as [|Hne]; [now left|].
  right.
  assert (Hinv : carried_so_far cur prev (dict_keys prev) None)
    by (intros x _; now left).
  apply (carry_fold_carried_so_far cur objs p d) in Hinv;
    [|now apply uniq_keys_NoDup].
  destruct (Hinv k Hne) as [H|[H _]]; [contradiction|].
  rewrite H in Hk.
  destruct (dict_get String.eqb k prev) as [q|] eqn:E; [|contradiction].
  now apply (dict_get_Some_In _ Seqb_eq) in E.
Qed.

(** ** Value after carry-forward *)

(** Over exact rationals the total at [d2] is the total at [d1] plus the
    accrued cash; in binary floating point the two sums add the same terms
    in a different order and agree up to rounding. *)
Lemma carried_value_exact (st : portfolio) (d1 d2 : date)
  (so : option (list Security.t)) (prev : snapshot) :
  dict_get Z.eqb d2 (positions st) = None ->
  latest_before st d2 d1 ->
  dict_get Z.eqb d1 (positions st) = Some prev ->
  prev <> [] ->
  uniq_keys String.eqb prev = true ->
  (forall k, In k (dict_keys prev) ->
     resolves (objects_or_default so st) k = true) ->
  (forall k, In k (dict_keys prev) ->
     expired_at (objects_or_default so st) d2 k = false) ->
  (forall k s, In k (dict_keys prev) ->
     get_security k (objects_or_default so st) = Found s ->
     Security.value s d2 = Security.value s d1) ->
  exists snap2 v1 b1 st1 v2 b2 st2,
    value d1 so st = (Ok (v1, b1), st1)
    /\ carry_to d2 so st1 = (Ok tt, put_snapshot d2 (Some snap2) st1)
    /\ (forall k q, k <> currency st ->
          dict_get String.eqb k prev = Some q ->
          dict_get String.eqb k snap2 = Some q)
    /\ dict_get String.eqb (currency st) snap2
       = Some (accrued_cash (objects_or_default so st) d1 d2 prev
               + dict_get_or String.eqb (currency st) nzero prev)%num
    /\ value d2 so st1 = (Ok (v2, b2), st2)
    /\ v2 = (v1 + accrued_cash (objects_or_default so st) d1 d2 prev)%num.
Proof.
  intros Hd2 Hlatest Hprev Hne Hu Hres Hexp Hval.
  set (objs := objects_or_default so st) in *.
  set (cur := currency st).
  (* value at d1 *)
  assert (Hv1 := value_eq d1 so prev st Hprev Hu
                   (fun n Hn => or_intror (Hres n Hn))).
  fold objs cur in Hv1.
  set (st1 := with_stdout (flat_map (value_diag cur objs d1) (dict_keys prev)) st)
    in *.
  (* carry_to at d2 *)
  assert (Hlatest1 : latest_before st1 d2 d1) by exact Hlatest.
  assert (Hfind := latest_before_find_lt st1 d2 d1 Hlatest1).
  assert (Hc := carry_to_eq d2 d1 prev so st1 Hd2 Hfind Hprev).
  change (objects_or_default so st1) with objs in Hc.
  change (currency st1) with cur in Hc.
  set (F := carry_fold cur objs d1 d2 prev (dict_keys prev) None) in *.
  assert (Hok : fst F = Ok tt) by (apply carry_fold_ok; auto).
  assert (Hkeys : dict_keys prev <> []).
  { destruct prev; [congruence | discriminate]. }
  assert (Hcur := carry_fold_has_cur cur objs d1 d2 prev (dict_keys prev) None
                    Hkeys Hok).
  fold F in Hcur. apply lookup_held in Hcur as Hbal.
  unfold F in Hbal at 2. rewrite carry_fold_balance in Hbal by exact Hok.
  rewrite big_sum_credit in Hbal by exact Hu.
  assert (HuF : uniq_opt (snd F)) by (apply carry_fold_uniq; exact I).
  assert (Hworth := carry_fold_worth cur objs d1 d2 prev
                      (unit_value_of cur objs d2) (dict_keys prev) None
                      (unit_value_of_currency cur objs d2) Hok).
  fold F in Hworth.
  assert (Hnames := fun k => carry_fold_names cur objs d1 d2 prev k Hu).
  fold F in Hnames.
  assert (Hqty : forall k q, k <> cur -> dict_get String.eqb k prev = Some q ->
                             lookup k (snd F) = Some q).
  { intros k q Hk Hq. rewrite <- Hq. unfold F.
    apply (dict_get_Some_In _ Seqb_eq) in Hq as Hin.
    apply carry_fold_carried; auto. now apply uniq_keys_NoDup. }
  destruct (snd F) as [snap2|] eqn:HF; [|now elim Hcur].
  rewrite Hok in Hc. cbn [lookup uniq_opt worth_opt] in *.
  set (st1' := put_snapshot d2 (Some snap2) st1) in *.
  (* value at d2 *)
  assert (Hd2' : dict_get Z.eqb d2 (positions st1') = Some snap2)
    by apply positions_put_snapshot_same.
  assert (Hv2 : value d2 so st1 = value d2 so st1').
  { apply value_once_carried; trivial. unfold dict_mem. now rewrite Hd2'. }
  rewrite (value_eq d2 so snap2 st1' Hd2' HuF) in Hv2.
  2:{ intros n Hn. destruct (dict_get_In _ Seqb_eq n snap2 Hn) as [q Hq].
      destruct (Hnames n) as [->|Hin]; [congruence | now left |].
      right. now apply Hres. }
  change (objects_or_default so st1') with objs in Hv2.
  change (currency st1') with cur in Hv2.
  rewrite dict_values_value_breakdown in Hv2.
  rewrite dict_values_value_breakdown in Hv1.
  do 7 eexists. split; [exact Hv1|]. split; [exact Hc|].
  split; [exact Hqty|]. split.
  - rewrite Hbal. unfold held, carried_balance. cbn [lookup].
    rewrite nadd_0_l. do 2 f_equal.
    unfold dict_mem, dict_get_or.
    destruct (dict_get String.eqb cur prev) as [q|] eqn:Hq; trivial.
    apply (dict_get_Some_In _ Seqb_eq) in Hq. now rewrite (Hexp cur Hq).
  - split; [exact Hv2|].
    rewrite Hworth. cbn [worth_opt]. rewrite nadd_0_l.
    unfold gain. rewrite big_sum_map_add. fold (accrued_cash objs d1 d2 prev).
    rewrite nadd_comm. f_equal. unfold worth.
    rewrite <- (map_keys_lookup (fun n x => unit_value_of cur objs d1 n * x)%num)
      by exact Hu.
    f_equal. apply map_ext_in. intros n Hn. rewrite (Hexp n Hn). f_equal.
    unfold unit_value_of. destruct (String.eqb n cur); trivial.
    destruct (get_security n objs) as [s|] eqn:Hs; trivial.
    now rewrite (Hval n s Hn Hs).
Qed.


(** C3 (as amended).  Let the ledger have a non-empty snapshot at [d1], the
    latest date before [d2], and none at [d2]; let every held name (the
    currency included) have an object, none expired at [d2], and let the
    instruments' unit values at [d2] equal those at [d1].  Then [carry_to]
    returns, each quantity held under a name other than the currency is
    carried unchanged and the currency entry at [d2] is the accrued cash
    plus the balance at [d1].  The breakdown of [value] at [d2] has the
    entry of [value] at [d1] for every name other than the currency, and
    for the currency the balance at [d1] plus the sum of
    [cash_to_date(d1, d2)] over the held names; each total is the sum of
    its breakdown. *)
Theorem value_after_carry_forward (st : portfolio) (d1 d2 : date)
  (so : option (list Security.t)) (prev : snapshot) :
  dict_get Z.eqb d2 (positions st) = None ->
  latest_before st d2 d1 ->
  dict_get Z.eqb d1 (positions st) = Some prev ->
  prev <> [] ->
  uniq_keys String.eqb prev = true ->
  (forall k, In k (dict_keys prev) ->
     resolves (objects_or_default so st) k = true) ->
  (forall k, In k (dict_keys prev) ->
     expired_at (objects_or_default so st) d2 k = false) ->
  (forall k s, In k (dict_keys prev) ->
     get_security k (objects_or_default so st) = Found s ->
     Security.value s d2 = Security.value s d1) ->
  exists snap2 v1 b1 st1 v2 b2 st2,
    value d1 so st = (Ok (v1, b1), st1)
    /\ carry_to d2 so st1 = (Ok tt, put_snapshot d2 (Some snap2) st1)
    /\ (forall k q, k <> currency st ->
          dict_get String.eqb k prev = Some q ->
          dict_get String.eqb k snap2 = Some q)
    /\ dict_get String.eqb (currency st) snap2
       = Some (accrued_cash (objects_or_default so st) d1 d2 prev
               + dict_get_or String.eqb (currency st) nzero prev)%num
    /\ value d2 so st1 = (Ok (v2, b2), st2)
    /\ v1 = sum (dict_values b1)
    /\ v2 = sum (dict_values b2)
    /\ (forall k, k <> currency st ->
          dict_get String.eqb k b2 = dict_get String.eqb k b1)
    /\ dict_get String.eqb (currency st) b1
       = dict_get String.eqb (currency st) prev
    /\ dict_get String.eqb (currency st) b2
       = Some (accrued_cash (objects_or_default so st) d1 d2 prev
               + dict_get_or String.eqb (currency st) nzero prev)%num.
Proof.
  intros Hd2 Hlatest Hprev Hne Hu Hres Hexp Hval.
  set (objs := objects_or_default so st) in *.
  set (cur := currency st).
  (* value at d1 *)
  assert (Hv1 := value_eq d1 so prev st Hprev Hu
                   (fun n Hn => or_intror (Hres n Hn))).
  fold objs cur in Hv1.
  set (st1 := with_stdout (flat_map (value_diag cur objs d1) (dict_keys prev)) st)
    in *.
  (* carry_to at d2 *)
  assert (Hlatest1 : latest_before st1 d2 d1) by exact Hlatest.
  assert (Hfind := latest_before_find_lt st1 d2 d1 Hlatest1).
  assert (Hc := carry_to_eq d2 d1 prev so st1 Hd2 Hfind Hprev).
  change (objects_or_default so st1) with objs in Hc.
  change (currency st1) with cur in Hc.
  set (F := carry_fold cur objs d1 d2 prev (dict_keys prev) None) in *.
  assert (Hok : fst F = Ok tt) by (apply carry_fold_ok; auto).
  assert (Hkeys : dict_keys prev <> []).
  { destruct prev; [congruence | discriminate]. }
  assert (Hcur := carry_fold_has_cur cur objs d1 d2 prev (dict_keys prev) None
                    Hkeys Hok).
  fold F in Hcur. apply lookup_held in Hcur as Hbal.
  unfold F in Hbal at 2. rewrite carry_fold_balance in Hbal by exact Hok.
  rewrite big_sum_credit in Hbal by exact Hu.
  assert (HuF : uniq_opt (snd F)) by (apply carry_fold_uniq; exact I).
  assert (Hnames := fun k => carry_fold_names cur objs d1 d2 prev k Hu).
  fold F in Hnames.
  assert (Hqty : forall k q, k <> cur -> dict_get String.eqb k prev = Some q ->
                             lookup k (snd F) = Some q).
  { intros k q Hk Hq. rewrite <- Hq. unfold F.
    apply (dict_get_Some_In _ Seqb_eq) in Hq as Hin.
    apply carry_fold_carried; auto. now apply uniq_keys_NoDup. }
  destruct (snd F) as [snap2|] eqn:HF; [|now elim Hcur].
  rewrite Hok in Hc. cbn [lookup uniq_opt] in *.
  set (st1' := put_snapshot d2 (Some snap2) st1) in *.
  assert (Hbal2 : dict_get String.eqb cur snap2
                  = Some (accrued_cash objs d1 d2 prev
                          + dict_get_or String.eqb cur nzero prev)%num).
  { rewrite Hbal. unfold held, carried_balance. cbn [lookup].
    rewrite nadd_0_l. do 2 f_equal.
    unfold dict_mem, dict_get_or.
    destruct (dict_get String.eqb cur prev) as [q|] eqn:Hq; trivial.
    apply (dict_get_Some_In _ Seqb_eq) in Hq. now rewrite (Hexp cur Hq). }
  (* value at d2 *)
  assert (Hd2' : dict_get Z.eqb d2 (positions st1') = Some snap2)
    by apply positions_put_snapshot_same.
  assert (Hv2 : value d2 so st1 = value d2 so st1').
  { apply value_once_carried; trivial. unfold dict_mem. now rewrite Hd2'. }
  rewrite (value_eq d2 so snap2 st1' Hd2' HuF) in Hv2.
  2:{ intros n Hn. destruct (dict_get_In _ Seqb_eq n snap2 Hn) as [q Hq].
      destruct (Hnames n) as [->|Hin]; [congruence | now left |].
      right. now apply Hres. }
  change (objects_or_default so st1') with objs in Hv2.
  change (currency st1') with cur in Hv2.
  do 7 eexists. split; [exact Hv1|]. split; [exact Hc|].
  split; [exact Hqty|]. split; [exact Hbal2|]. split; [exact Hv2|].
  split; [reflexivity|]. split; [reflexivity|]. split; [|split].
  - intros k Hk. unfold value_breakdown.
    rewrite (dict_get_map_entries
               (fun n q => unit_value_of cur objs d2 n * q)%num).
    rewrite (dict_get_map_entries
               (fun n q => unit_value_of cur objs d1 n * q)%num).
    destruct (dict_get String.eqb k prev) as [q|] eqn:Hq.
    + rewrite (Hqty k q Hk Hq). cbn [option_map]. do 2 f_equal.
      apply (dict_get_Some_In _ Seqb_eq) in Hq.
      unfold unit_value_of. destruct (String.eqb k cur); trivial.
      destruct (get_security k objs) as [s|] eqn:Hs; trivial.
      now rewrite (Hval k s Hq Hs).
    + destruct (dict_get String.eqb k snap2) as [q2|] eqn:E; trivial.
      exfalso. destruct (Hnames k) as [Heq|Hin]; [congruence | contradiction |].
      destruct (dict_get_In _ Seqb_eq k prev Hin) as [q Hq']. congruence.
  - unfold value_breakdown.
    rewrite (dict_get_map_entries
               (fun n q => unit_value_of cur objs d1 n * q)%num).
    destruct (dict_get String.eqb cur prev) as [q|]; trivial.
    cbn [option_map]. now rewrite unit_value_of_currency, nmul_1_l.
  - unfold value_breakdown.
    rewrite (dict_get_map_entries
               (fun n q => unit_value_of cur objs d2 n * q)%num).
    rewrite Hbal2. cbn [option_map].
    now rewrite unit_value_of_currency, nmul_1_l.
Qed.

(** ** The weighted queries in closed form *)

Lemma metric_body_eq (m : metric) (d : date) (objs : list Security.t)
  (ex : extra) (rd : dict string num) (n : string) (st : portfolio) :
  metric_body m d objs ex rd n st
  = (Ok (dict_set String.eqb n (unit_result_of m objs d ex n) rd),
     with_stdout (metric_diag m objs d ex n) st).
Proof.
  unfold metric_body, unit_result_of, metric_diag, call_method.
  unfold bind, except_attribute_error, lift, ret.
  destruct (get_security n objs) as [s|].
  - destruct (Security.method s m) as [f|].
    + destruct (isnan (f d ex)); simpl; [reflexivity|].
      now rewrite with_stdout_nil.
    + simpl. now rewrite with_stdout_nil.
  - simpl. now rewrite with_stdout_nil.
Qed.

Lemma metric_loop_eq (m : metric) (d : date) (objs : list Security.t)
  (ex : extra) (names : list string) (rd : dict string num) (st : portfolio) :
  for_fold names (metric_body m d objs ex) rd st
  = (Ok (fold_left
           (fun a n => dict_set String.eqb n (unit_result_of m objs d ex n) a)
           names rd),
     with_stdout (flat_map (metric_diag m objs d ex) names) st).
Proof.
  revert rd st. induction names as [|n r IH]; intros rd st.
  - simpl. unfold ret. now rewrite with_stdout_nil.
  - cbn [for_fold fold_left flat_map]. unfold bind.
    rewrite metric_body_eq, IH. now rewrite with_stdout_app.
Qed.

Lemma sum_weighted_eq (cur : string) (m : metric) (objs : list Security.t)
  (d : date) (ex : extra) (snap : snapshot) (v : num) (names : list string)
  (acc : num) :
  (forall n, In n names -> In n (dict_keys snap)) ->
  sum_weighted (value_breakdown cur objs d snap)
               (metric_breakdown m objs d ex snap) v names acc
  = sum_ratio v
      (map (fun n => ((unit_value_of cur objs d n
                       * dict_get_or String.eqb n nzero snap)%num,
                      unit_result_of m objs d ex n)) names)
      acc.
Proof.
  revert acc. induction names as [|n r IH]; intros acc Hin; trivial.
  cbn [sum_weighted map sum_ratio]. unfold subscript.
  unfold value_breakdown, metric_breakdown.
  rewrite (dict_get_map_entries (fun k q => unit_value_of cur objs d k * q)%num).
  rewrite (dict_get_map_entries (fun k _ => unit_result_of m objs d ex k)).
  destruct (dict_get_In _ Seqb_eq n snap (Hin n (or_introl eq_refl))) as [q Hq].
  unfold dict_get_or. rewrite Hq. cbn [option_map].
  destruct (ndiv (unit_value_of cur objs d n * q * unit_result_of m objs d ex n) v);
    trivial.
  fold (value_breakdown cur objs d snap) (metric_breakdown m objs d ex snap).
  rewrite IH; trivial. intros k Hk. apply Hin. now right.
Qed.

Lemma weighted_query_eq (m : metric) (d : date)
  (so : option (list Security.t)) (kw : kwargs) (ex : extra) (snap : snapshot)
  (st : portfolio) :
  dict_get Z.eqb d (positions st) = Some snap ->
  uniq_keys String.eqb snap = true ->
  (forall n, In n (dict_keys snap) ->
     n = currency st \/ resolves (objects_or_default so st) n = true) ->
  extra_args m kw d = Ok ex ->
  let cur := currency st in
  let objs := objects_or_default so st in
  weighted_query m d so kw st
  = (match
       sum_ratio (sum (values_of cur objs d snap))
         (combine (values_of cur objs d snap) (metrics_of m objs d ex snap))
         nzero
     with
     | Ok r => Ok (r, metric_breakdown m objs d ex snap)
     | Raise e => Raise e
     end,
     with_stdout
       (flat_map (value_diag cur objs d) (dict_keys snap)
        ++ flat_map (metric_diag m objs d ex) (dict_keys snap)) st).
Proof.
  intros Hd Hu Hres Hex cur objs. unfold weighted_query.
  unfold bind at 1. unfold gets at 1. unfold bind at 1.
  rewrite carry_to_present by (unfold dict_mem; now rewrite Hd).
  unfold bind at 1.
  rewrite (value_eq d (Some (objects_or_default so st)) snap st Hd Hu Hres).
  cbn [objects_or_default]. fold cur objs.
  unfold bind at 1. unfold lift at 1. rewrite Hex.
  unfold bind at 1. unfold positions_at at 1, subscript at 1.
  cbn [positions with_stdout]. rewrite Hd.
  unfold bind at 1. rewrite metric_loop_eq.
  rewrite build_dict by (now apply uniq_keys_NoDup). cbn [app].
  unfold bind at 1. unfold positions_at at 1, subscript at 1.
  cbn [positions with_stdout]. rewrite Hd.
  unfold bind at 1. unfold lift at 1. cbn [fst snd].
  assert (Hmb : map (fun n => (n, unit_result_of m objs d ex n)) (dict_keys snap)
                = metric_breakdown m objs d ex snap).
  { unfold metric_breakdown, dict_keys. now rewrite map_map. }
  rewrite Hmb.
  rewrite (sum_weighted_eq cur m objs d ex snap) by trivial.
  assert (Hterms :
    map (fun n => ((unit_value_of cur objs d n
                    * dict_get_or String.eqb n nzero snap)%num,
                   unit_result_of m objs d ex n)) (dict_keys snap)
    = combine (values_of cur objs d snap) (metrics_of m objs d ex snap)).
  { rewrite (map_keys_lookup
               (fun n x => ((unit_value_of cur objs d n * x)%num,
                            unit_result_of m objs d ex n))) by exact Hu.
    unfold values_of, metrics_of.
    clear. induction snap as [|[k v] r IH]; simpl; trivial. now rewrite IH. }
  rewrite Hterms.
  assert (Hsum : sum (dict_values (value_breakdown cur objs d snap))
                 = sum (values_of cur objs d snap)).
  { unfold dict_values, value_breakdown, values_of. now rewrite map_map. }
  rewrite Hsum.
  destruct (sum_ratio _ _ _); unfold ret, with_stdout; simpl;
    now rewrite <- app_assoc.
Qed.

(** ** The weighted average *)

(** Equality of closed numeric results, up to the canonicity proofs
    carried by [Qc]. *)
Ltac num_eq :=
  lazymatch goal with
  | |- @eq Qc _ _ => apply Qc_is_canon; reflexivity
  | |- Fin _ = Fin _ => apply f_equal; num_eq
  | |- Ok _ = Ok _ => apply f_equal; num_eq
  | |- Some _ = Some _ => apply f_equal; num_eq
  | |- (_, _) = (_, _) => apply f_equal2; num_eq
  | |- _ :: _ = _ :: _ => apply f_equal2; num_eq
  | |- mk_trade _ _ = mk_trade _ _ => apply f_equal2; num_eq
  | |- _ => reflexivity
  end.

Ltac compute_eq := vm_compute; num_eq.

Lemma nadd_nan_r (a : num) : (a + NaN = NaN)%num.
Proof. now destruct a. Qed.

Lemma ndiv_nan (a : num) : ndiv a NaN = Ok NaN.
Proof. reflexivity. Qed.

Lemma ndiv_total (a : num) (y : Qc) :
  y <> 0%Qc -> exists q, ndiv a (Fin y) = Ok q.
Proof.
  intros Hy. unfold ndiv. apply Qc_eq_bool_false_iff in Hy. rewrite Hy.
  destruct a; eauto.
Qed.

Lemma sum_ratio_fin (y : Qc) (terms : list (num * num)) (a acc : num) :
  y <> 0%Qc ->
  ndiv a (Fin y) = Ok acc ->
  sum_ratio (Fin y) terms acc
  = ndiv (a + big_sum (map (fun vm => fst vm * snd vm) terms))%num (Fin y).
Proof.
  intros Hy. revert a acc.
  induction terms as [|[v r] t IH]; intros a acc Ha; simpl.
  - now rewrite nadd_0_r.
  - destruct (ndiv_total (v * r) y Hy) as [x Hx]. rewrite Hx.
    rewrite (IH (a + v * r)%num).
    + now rewrite nadd_assoc.
    + now apply ndiv_add.
Qed.

Lemma sum_ratio_nan_acc (terms : list (num * num)) :
  sum_ratio NaN terms NaN = Ok NaN.
Proof.
  induction terms as [|[v r] t IH]; simpl; trivial.
Qed.

Lemma sum_ratio_nan (terms : list (num * num)) (acc : num) :
  terms <> [] -> sum_ratio NaN terms acc = Ok NaN.
Proof.
  destruct terms as [|[v r] t]; [congruence|]. intros _. simpl.
  rewrite nadd_nan_r. apply sum_ratio_nan_acc.
Qed.

(** Over exact rationals, dividing every term by the total and adding gives
    the quotient of the sums, for a total other than zero; in binary
    floating point the two differ by rounding. *)
Lemma sum_ratio_average (values metrics : list num) :
  sum values <> nzero ->
  length metrics = length values ->
  sum_ratio (sum values) (combine values metrics) nzero
  = weighted_average values metrics.
Proof.
  intros Hv Hlen. unfold weighted_average.
  destruct (sum values) as [y|] eqn:E.
  - assert (Hy : y <> 0%Qc) by (intros ->; now apply Hv).
    rewrite (sum_ratio_fin y _ nzero nzero Hy).
    + now rewrite nadd_0_l, sum_big_sum.
    + unfold nzero. rewrite ndiv_fin by exact Hy. do 2 f_equal. now field.
  - rewrite ndiv_nan. apply sum_ratio_nan.
    destruct values as [|v t]; [discriminate E|].
    destruct metrics; [discriminate Hlen | discriminate].
Qed.

(** With a total other than zero no division fails. *)
Lemma sum_ratio_total (v : num) (terms : list (num * num)) (acc : num) :
  v <> nzero -> exists r, sum_ratio v terms acc = Ok r.
Proof.
  intros Hv. revert acc. induction terms as [|[vn rn] t IH]; intros acc.
  - now exists acc.
  - cbn [sum_ratio]. destruct v as [y|].
    + assert (Hy : y <> 0%Qc) by (intros ->; now apply Hv).
      destruct (ndiv_total (vn * rn) y Hy) as [x Hx]. rewrite Hx. apply IH.
    + rewrite ndiv_nan. apply IH.
Qed.

Lemma keywords_read_extra_args (m : metric) (kw : kwargs) (d : date)
  (ex : extra) :
  keywords_read m kw d ex -> extra_args m kw d = Ok ex.
Proof.
  unfold keywords_read, extra_args, kwarg, subscript.
  destruct m; try (intros ->; reflexivity);
    try (intros (yc & Hyc & ->); now rewrite Hyc).
  intros (yc & by_date & mp & Hyc & Hmp & Hd & ->).
  now rewrite Hyc, Hmp, Hd.
Qed.

Lemma resolves_found (objs : list Security.t) (n : string) (s : Security.t) :
  get_security n objs = Found s -> resolves objs n = true.
Proof. unfold resolves. now intros ->. Qed.

Lemma unit_value_of_found (cur : string) (objs : list Security.t) (d : date)
  (n : string) (s : Security.t) :
  n <> cur -> get_security n objs = Found s ->
  unit_value_of cur objs d n
  = if isnan (Security.value s d) then nzero else Security.value s d.
Proof.
  intros Hn Hs. unfold unit_value_of. apply String.eqb_neq in Hn.
  now rewrite Hn, Hs.
Qed.

Lemma values_of_ext (cur : string) (objs : list Security.t) (d : date)
  (snap : snapshot) (value_i : string -> num) :
  (forall n q, In (n, q) snap ->
     (unit_value_of cur objs d n * q)%num = value_i n) ->
  values_of cur objs d snap = map value_i (dict_keys snap).
Proof.
  unfold values_of, dict_keys. rewrite map_map. intros H.
  apply map_ext_in. intros [n q] Hin. now apply H.
Qed.

Lemma metrics_of_ext (m : metric) (objs : list Security.t) (d : date)
  (ex : extra) (snap : snapshot) (metric_i : string -> num) :
  (forall n, In n (dict_keys snap) -> unit_result_of m objs d ex n = metric_i n) ->
  metrics_of m objs d ex snap = map metric_i (dict_keys snap)
  /\ metric_breakdown m objs d ex snap
     = map (fun n => (n, metric_i n)) (dict_keys snap).
Proof.
  unfold metrics_of, metric_breakdown, dict_keys. rewrite !map_map. intros H.
  split; apply map_ext_in; intros [n q] Hin; cbn [fst];
    rewrite H; trivial; apply in_map_iff; now exists (n, q).
Qed.

Lemma combine_map {A B C} (f : A -> B) (g : A -> C) (l : list A) :
  combine (map f l) (map g l) = map (fun x => (f x, g x)) l.
Proof. induction l as [|x r IH]; simpl; trivial. now rewrite IH. Qed.

Lemma held_name_entry (n : string) (snap : snapshot) :
  In n (dict_keys snap) -> exists q, In (n, q) snap.
Proof.
  unfold dict_keys. intros H. apply in_map_iff in H.
  destruct H as ([k q] & <- & Hin). now exists q.
Qed.

(** C1.  Take a materialized date, a query [m] with the keyword arguments
    it reads, and per-name values and metrics as the objects give them:
    [value_i] is the balance for the currency and, for any other name, the
    unit value its object reports (a number) times the quantity held;
    [metric_i] is what the method [m] of the name's object returns (a
    number), the currency counting with 0 when it has no such method.  If
    the total [Σ value_i] is not zero, the query returns the pair of
    [Σ value_i·metric_i / Σ value_i], every term being divided by the total
    before it is added, and the breakdown [{name: metric_i}], and leaves the
    ledger as it is.  For values [{A: 60, B: 40}] and yields
    [{A: 0.05, B: 0.08}] the aggregate yield is [0.062]. *)
Theorem weighted_query_weighted_average (m : metric) (d : date)
  (so : option (list Security.t)) (kw : kwargs) (ex : extra) (snap : snapshot)
  (st : portfolio) (value_i metric_i : string -> num) :
  let cur := currency st in
  let objs := objects_or_default so st in
  let names := dict_keys snap in
  let total := sum (map value_i names) in
  dict_get Z.eqb d (positions st) = Some snap ->
  uniq_keys String.eqb snap = true ->
  keywords_read m kw d ex ->
  (forall n q, In (n, q) snap ->
     (n = cur /\ value_i n = (none * q)%num)
     \/ (n <> cur
         /\ exists s,
              get_security n objs = Found s
              /\ isnan (Security.value s d) = false
              /\ value_i n = (Security.value s d * q)%num)) ->
  (forall n, In n names ->
     (exists s f,
         get_security n objs = Found s
         /\ Security.method s m = Some f
         /\ isnan (f d ex) = false
         /\ metric_i n = f d ex)
     \/ (n = cur
         /\ metric_i n = nzero
         /\ (get_security n objs = None_list
             \/ exists s,
                  get_security n objs = Found s
                  /\ Security.method s m = None))) ->
  total <> nzero ->
  (exists r st',
      sum_ratio total (map (fun n => (value_i n, metric_i n)) names) nzero
      = Ok r
      /\ weighted_query m d so kw st
         = (Ok (r, map (fun n => (n, metric_i n)) names), st')
      /\ positions st' = positions st)
  /\ fst (value 1 None two_bonds) = Ok (int 100, [("A", int 60); ("B", int 40)])
  /\ fst (ytm 1 None no_kwargs two_bonds)
     = Ok (frac 62 1000, [("A", frac 5 100); ("B", frac 8 100)]).
Proof.
  intros cur objs names total Hd Hu Hkw Hval Hmet Htot. split.
  - assert (Hres : forall n, In n (dict_keys snap) ->
                             n = cur \/ resolves objs n = true).
    { intros n Hn. destruct (held_name_entry n snap Hn) as [q Hq].
      destruct (Hval n q Hq) as [[-> _]|(_ & s & Hs & _)]; [now left|].
      right. now apply resolves_found with s. }
    assert (Hvs : values_of cur objs d snap = map value_i names).
    { apply values_of_ext. intros n q Hq.
      destruct (Hval n q Hq) as [[-> ->]|(Hn & s & Hs & Hnan & ->)].
      - now rewrite unit_value_of_currency.
      - now rewrite (unit_value_of_found cur objs d n s Hn Hs), Hnan. }
    assert (Hms : forall n, In n (dict_keys snap) ->
                            unit_result_of m objs d ex n = metric_i n).
    { intros n Hn. unfold unit_result_of.
      destruct (Hmet n Hn)
        as [(s & f & Hs & Hf & Hnan & ->)
           |(_ & -> & [Hs|(s & Hs & Hf)])].
      - now rewrite Hs, Hf, Hnan.
      - now rewrite Hs.
      - now rewrite Hs, Hf. }
    destruct (metrics_of_ext m objs d ex snap metric_i Hms) as [Hmo Hbd].
    rewrite (weighted_query_eq m d so kw ex snap st Hd Hu Hres
               (keywords_read_extra_args m kw d ex Hkw)).
    fold cur objs names. rewrite Hvs, Hmo, Hbd, combine_map.
    fold names total.
    destruct (sum_ratio_total total
                (map (fun n => (value_i n, metric_i n)) names) nzero Htot)
      as [r Hr].
    rewrite Hr. exists r. eexists. repeat split; reflexivity.
  - split; compute_eq.
Qed.

Lemma weighted_query_weighted_average_witness :
  exists st',
    weighted_query Zspread_to_mat 1 None (curve_only (Curve 25)) two_spread_bonds
    = (Ok (frac 645 10000, [("A", frac 525 10000); ("B", frac 825 10000)]),
       st')
    /\ positions st' = positions two_spread_bonds.
Proof.
  destruct (weighted_query_weighted_average Zspread_to_mat 1 None
              (curve_only (Curve 25)) (With_curve (Curve 25))
              [("A", int 6); ("B", int 4)] two_spread_bonds
              (fun n => if String.eqb n "A" then int 60 else int 40)
              (fun n => if String.eqb n "A" then frac 525 10000
                        else frac 825 10000))
    as [(r & st' & Hr & Hq & Hp) _].
  - reflexivity.
  - reflexivity.
  - exists (Curve 25). split; reflexivity.
  - intros n q [H|[H|[]]]; inversion H; subst; right;
      (split; [discriminate|]); eexists;
      (split; [reflexivity|]); (split; [reflexivity|]); compute_eq.
  - intros n [<-|[<-|[]]]; left; do 2 eexists;
      (split; [reflexivity|]); (split; [reflexivity|]);
      (split; [reflexivity|]); compute_eq.
  - intros H. apply (f_equal (fun x => match x with
                                       | Fin q => Qnum (this q)
                                       | NaN => 0%Z
                                       end)) in H.
    vm_compute in H. discriminate H.
  - match type of Hr with
    | ?x = _ => assert (E : x = Ok (frac 645 10000)) by compute_eq
    end.
    rewrite E in Hr. inversion Hr; subst r.
    exists st'. split; [exact Hq | exact Hp].
Defined.

(** ** Witnesses on the example portfolios *)

Lemma query_before_first_entry_fails_witness :
  carry_to 5 None cash_and_bond = (Raise ValueError, cash_and_bond)
  /\ value 5 None cash_and_bond = (Raise ValueError, cash_and_bond)
  /\ forall m,
       weighted_query m 5 None no_kwargs cash_and_bond
       = (Raise ValueError, cash_and_bond).
Proof.
  apply (query_before_first_entry_fails cash_and_bond 5 None no_kwargs).
  simpl. intros k [<-|[]]. lia.
Defined.

Lemma expired_instrument_dropped_witness :
  exists snap2,
    carry_to 20 None cash_and_bond
    = (Ok tt, put_snapshot 20 (Some snap2) cash_and_bond)
    /\ dict_get String.eqb "B" snap2 = None
    /\ dict_get String.eqb "USD" snap2
       = Some (accrued_cash (security_objects cash_and_bond) 10 20
                 [("USD", int 100); ("B", int 10)]
               + carried_balance "USD" (security_objects cash_and_bond) 20
                   [("USD", int 100); ("B", int 10)])%num.
Proof.
  apply (expired_instrument_dropped cash_and_bond 10 20 None
           [("USD", int 100); ("B", int 10)] "B").
  - reflexivity.
  - unfold latest_before. simpl.
    split; [now left | split; [lia | intros k [<-|[]] _; lia]].
  - reflexivity.
  - reflexivity.
  - simpl. tauto.
  - discriminate.
  - reflexivity.
  - simpl. intros k [<-|[<-|[]]]; reflexivity.
Defined.

Lemma value_after_carry_forward_witness :
  accrued_cash (security_objects cash_and_bond) 10 12
    [("USD", int 100); ("B", int 10)] = int 3
  /\ fst (value 10 None cash_and_bond)
     = Ok (int 1100, [("USD", int 100); ("B", int 1000)])
  /\ fst (value 12 None cash_and_bond)
     = Ok (int 1103, [("USD", int 103); ("B", int 1000)])
  /\ exists snap2 v1 b1 st1 v2 b2 st2,
       value 10 None cash_and_bond = (Ok (v1, b1), st1)
       /\ carry_to 12 None st1 = (Ok tt, put_snapshot 12 (Some snap2) st1)
       /\ (forall k q, k <> "USD" ->
             dict_get String.eqb k [("USD", int 100); ("B", int 10)] = Some q ->
             dict_get String.eqb k snap2 = Some q)
       /\ dict_get String.eqb "USD" snap2
          = Some (accrued_cash (security_objects cash_and_bond) 10 12
                    [("USD", int 100); ("B", int 10)]
                  + dict_get_or String.eqb "USD" nzero
                      [("USD", int 100); ("B", int 10)])%num
       /\ value 12 None st1 = (Ok (v2, b2), st2)
       /\ v1 = sum (dict_values b1)
       /\ v2 = sum (dict_values b2)
       /\ (forall k, k <> "USD" ->
             dict_get String.eqb k b2 = dict_get String.eqb k b1)
       /\ dict_get String.eqb "USD" b1
          = dict_get String.eqb "USD" [("USD", int 100); ("B", int 10)]
       /\ dict_get String.eqb "USD" b2
          = Some (accrued_cash (security_objects cash_and_bond) 10 12
                    [("USD", int 100); ("B", int 10)]
                  + dict_get_or String.eqb "USD" nzero
                      [("USD", int 100); ("B", int 10)])%num.
Proof.
  split; [compute_eq|]. split; [compute_eq|]. split; [compute_eq|].
  apply (value_after_carry_forward cash_and_bond 10 12 None
           [("USD", int 100); ("B", int 10)]).
  - reflexivity.
  - unfold latest_before. simpl.
    split; [now left | split; [lia | intros k [<-|[]] _; lia]].
  - reflexivity.
  - discriminate.
  - reflexivity.
  - simpl. intros k [<-|[<-|[]]]; reflexivity.
  - simpl. intros k [<-|[<-|[]]]; reflexivity.
  - simpl. intros k s [<-|[<-|[]]] H; vm_compute in H; inversion H; reflexivity.
Defined.

(** C3, as the specification states it, fails when the market moves: ten
    units of an instrument worth 50 at date 1 and 60 at date 2, with no
    cash flow and no expiry, are valued 500 and then 600.  It also fails
    for a ledger holding only cash when the currency has no object: nothing
    is carried and [value] at date 2 raises [AttributeError]. *)
Lemma value_after_carry_forward_counterexample :
  (exists b1 st1 b2 st2,
      value 1 None ten_rising = (Ok (int 500, b1), st1)
      /\ value 2 None st1 = (Ok (int 600, b2), st2)
      /\ expired_at (security_objects ten_rising) 2 "X" = false
      /\ accrued_cash (security_objects ten_rising) 1 2 [("X", int 10)] = nzero
      /\ int 600
         <> (int 500 + accrued_cash (security_objects ten_rising) 1 2
                         [("X", int 10)])%num)
  /\ fst (value 1 None cash_only) = Ok (int 100, [("USD", int 100)])
  /\ fst (value 2 None cash_only) = Raise AttributeError.
Proof.
  split; [|split; compute_eq].
  do 4 eexists. split; [|split; [|split; [|split]]].
  - unfold value, ten_rising. vm_compute. repeat f_equal; num_eq.
  - vm_compute. repeat f_equal; num_eq.
  - reflexivity.
  - compute_eq.
  - intros H. apply (f_equal (fun x => match x with
                                       | Fin q => Qnum (this q)
                                       | NaN => 0%Z
                                       end)) in H.
    vm_compute in H. discriminate H.
Qed.

(** ** The first trade of an empty ledger *)

(** C4 (what the code does).  On an empty ledger
    [add_trade(d, "X", trade(10, 50))] records the trade, then raises
    [ValueError] in [carry_to], which finds no earlier date; the position
    ledger stays empty, so [value(d)] raises [ValueError] as well instead of
    reporting [X: 500] and [-500] for the currency. *)
Theorem add_trade_on_empty_ledger_raises (st : portfolio) (d : date)
  (so : option (list Security.t)) :
  positions st = [] ->
  trades st = [] ->
  let st' := snd (add_trade d "X" (mk_trade (int 10) (int 50)) so st) in
  fst (add_trade d "X" (mk_trade (int 10) (int 50)) so st) = Raise ValueError
  /\ positions st' = []
  /\ trades st' = [(d, [("X", mk_trade (int 10) (int 50))])]
  /\ fst (value d so st') = Raise ValueError.
Proof.
  intros Hp Ht. destruct st as [ps ts cur objs out]. simpl in Hp, Ht. subst.
  repeat split.
Qed.

Lemma add_trade_on_empty_ledger_raises_witness :
  fst (add_trade 1 "X" (mk_trade (int 10) (int 50)) None (init "USD" None))
  = Raise ValueError
  /\ positions (snd (add_trade 1 "X" (mk_trade (int 10) (int 50)) None
                       (init "USD" None))) = []
  /\ trades (snd (add_trade 1 "X" (mk_trade (int 10) (int 50)) None
                    (init "USD" None)))
     = [(1%Z, [("X", mk_trade (int 10) (int 50))])]
  /\ fst (value 1 None
            (snd (add_trade 1 "X" (mk_trade (int 10) (int 50)) None
                    (init "USD" None))))
     = Raise ValueError.
Proof.
  apply (add_trade_on_empty_ledger_raises (init "USD" None) 1 None);
    reflexivity.
Defined.

(** On a ledger that already has an entry at the date the same trade is
    applied: the breakdown shows [X: 500] and [-500] for the currency. *)
Lemma add_trade_on_seeded_ledger :
  positions long_x = [(1%Z, [("USD", int (-500)); ("X", int 10)])]
  /\ fst (value 1 None long_x)
     = Ok (int 0, [("USD", int (-500)); ("X", int 500)]).
Proof. split; compute_eq. Qed.

(** ** A total value of zero *)





(** ** Relating the portfolio before and after a method *)

Section Keeps.
Variable R : portfolio -> portfolio -> Prop.
Hypothesis R_refl : forall st, R st st.
Hypothesis R_trans : forall a b c, R a b -> R b c -> R a c.

Lemma keeps_ret {A} (a : A) : keeps R (ret a).
Proof. intros st. apply R_refl. Qed.

Lemma keeps_lift {A} (r : result A) : keeps R (lift r).
Proof. intros st. apply R_refl. Qed.

Lemma keeps_gets {A} (f : portfolio -> A) : keeps R (gets f).
Proof. intros st. apply R_refl. Qed.

Lemma keeps_positions_at (d : date) : keeps R (positions_at d).
Proof. intros st. apply R_refl. Qed.

Lemma keeps_bind {A B} (m : M A) (k : A -> M B) :
  keeps R m -> (forall a, keeps R (k a)) -> keeps R (bind m k).
Proof.
  intros Hm Hk st. unfold bind. specialize (Hm st).
  destruct (m st) as [[a|e] st']; cbn [snd] in *; trivial.
  apply R_trans with st'; [exact Hm | apply Hk].
Qed.

Lemma keeps_for_each {A} (l : list A) (body : A -> M unit) :
  (forall x, keeps R (body x)) -> keeps R (for_each l body).
Proof.
  intros Hb. induction l as [|x r IH]; simpl.
  - apply keeps_ret.
  - apply keeps_bind; auto.
Qed.

Lemma keeps_for_fold {A B} (l : list A) (body : B -> A -> M B) (b : B) :
  (forall b x, keeps R (body b x)) -> keeps R (for_fold l body b).
Proof.
  intros Hb. revert b. induction l as [|x r IH]; intros b; simpl.
  - apply keeps_ret.
  - apply keeps_bind; auto.
Qed.

Lemma keeps_except {A} (body handler : M A) :
  keeps R body -> keeps R handler -> keeps R (except_attribute_error body handler).
Proof.
  intros Hb Hh st. unfold except_attribute_error. specialize (Hb st).
  destruct (body st) as [[a|[]] st']; cbn [snd] in *; trivial.
  apply R_trans with st'; [exact Hb | apply Hh].
Qed.
End Keeps.

Lemma same_ledger_refl (st : portfolio) : same_ledger st st.
Proof. now repeat split. Qed.

Lemma same_ledger_trans (a b c : portfolio) :
  same_ledger a b -> same_ledger b c -> same_ledger a c.
Proof.
  unfold same_ledger. intros (H1 & H2 & H3 & H4) (K1 & K2 & K3 & K4).
  repeat split; congruence.
Qed.

Lemma keeps_print (l : line) : keeps same_ledger (print l).
Proof. intros st. now repeat split. Qed.

Ltac keeps_ledger :=
  repeat first
    [ apply (keeps_bind same_ledger same_ledger_trans); [|intros]
    | apply (keeps_ret same_ledger same_ledger_refl)
    | apply (keeps_lift same_ledger same_ledger_refl)
    | apply (keeps_gets same_ledger same_ledger_refl)
    | apply (keeps_positions_at same_ledger same_ledger_refl)
    | apply keeps_print
    | apply (keeps_for_fold same_ledger same_ledger_refl same_ledger_trans);
      intros
    | apply (keeps_except same_ledger same_ledger_trans)
    | match goal with
      | |- keeps _ (if ?c then _ else _) => destruct c
      end ].

Lemma value_body_keeps (d : date) (objs : list Security.t)
  (vd : dict string num) (n : string) :
  keeps same_ledger (value_body d objs vd n).
Proof. unfold value_body. keeps_ledger. Qed.

Lemma metric_body_keeps (m : metric) (d : date) (objs : list Security.t)
  (ex : extra) (rd : dict string num) (n : string) :
  keeps same_ledger (metric_body m d objs ex rd n).
Proof. unfold metric_body. keeps_ledger. Qed.

(** ** The shape of [carry_to] *)

Lemma carry_to_shape (d : date) (so : option (list Security.t))
  (st : portfolio) :
  exists o,
    carry_to d so st = (fst (carry_to d so st), put_snapshot d o st)
    /\ (o = None
        \/ exists p prev,
             dict_get Z.eqb d (positions st) = None
             /\ dict_get Z.eqb p (positions st) = Some prev
             /\ o = snd (carry_fold (currency st) (objects_or_default so st)
                           p d prev (dict_keys prev) None)).
Proof.
  destruct (dict_get Z.eqb d (positions st)) as [snap|] eqn:Hd.
  - exists None. rewrite carry_to_present by (unfold dict_mem; now rewrite Hd).
    split; [reflexivity | now left].
  - destruct (find_lt d (sorted (dict_keys (positions st)))) as [p|e] eqn:Hf.
    + apply find_lt_latest_before in Hf as Hin. destruct Hin as [Hin _].
      destruct (dict_get_In _ Zeqb_eq p _ Hin) as [prev Hprev].
      eexists. rewrite (carry_to_eq d p prev so st Hd Hf Hprev).
      split; [reflexivity|]. right. now exists p, prev.
    + exists None. split; [|now left].
      unfold carry_to, bind, gets, lift.
      apply dict_mem_false in Hd. rewrite Hd. cbn [negb]. now rewrite Hf.
Qed.

(** [carry_to(d)] is idempotent. *)
Lemma carry_to_idempotent (d : date) (so : option (list Security.t))
  (st st1 : portfolio) :
  carry_to d so st = (Ok tt, st1) -> carry_to d so st1 = (Ok tt, st1).
Proof.
  intros H. destruct (carry_to_shape d so st) as (o & Heq & _).
  rewrite H in Heq. cbn [fst] in Heq.
  assert (Hst1 : st1 = put_snapshot d o st) by congruence.
  destruct o as [s|].
  - rewrite Hst1. apply carry_to_present. unfold dict_mem.
    now rewrite positions_put_snapshot_same.
  - cbn [put_snapshot] in Hst1. subst st1. exact H.
Qed.

Lemma carry_to_other_dates (d d' : date) (so : option (list Security.t))
  (st : portfolio) :
  d' <> d ->
  dict_get Z.eqb d' (positions (snd (carry_to d so st)))
  = dict_get Z.eqb d' (positions st).
Proof.
  intros Hne. destruct (carry_to_shape d so st) as (o & Heq & _).
  rewrite Heq. cbn [snd]. now apply positions_put_snapshot_other.
Qed.

Lemma carry_to_same_objects (d : date) (so : option (list Security.t))
  (st : portfolio) :
  security_objects (snd (carry_to d so st)) = security_objects st
  /\ currency (snd (carry_to d so st)) = currency st.
Proof.
  destruct (carry_to_shape d so st) as (o & Heq & _).
  rewrite Heq. cbn [snd]. now destruct o.
Qed.

(** After its call of [carry_to], [value] only prints. *)
Lemma value_same_ledger (d : date) (so : option (list Security.t))
  (st : portfolio) :
  same_ledger (snd (carry_to d so st)) (snd (value d so st)).
Proof.
  unfold value. unfold bind at 1. unfold gets at 1. unfold bind at 1.
  rewrite carry_to_objects.
  destruct (carry_to d so st) as [[[]|e] st1]; cbn [snd];
    [|apply same_ledger_refl].
  assert (K : keeps same_ledger
                (snap <- positions_at d ;;
                 value_dict <- for_fold (dict_keys snap)
                                 (value_body d (objects_or_default so st)) [] ;;
                 ret (sum (dict_values value_dict), value_dict))).
  { keeps_ledger. }
  apply K.
Qed.

Lemma weighted_query_same_ledger (m : metric) (d : date)
  (so : option (list Security.t)) (kw : kwargs) (st : portfolio) :
  same_ledger (snd (carry_to d so st)) (snd (weighted_query m d so kw st)).
Proof.
  unfold weighted_query. unfold bind at 1. unfold gets at 1. unfold bind at 1.
  rewrite carry_to_objects.
  destruct (carry_to d so st) as [[[]|e] st1] eqn:Hc; cbn [snd];
    [|apply same_ledger_refl].
  set (objs := objects_or_default so st).
  assert (Hobjs : objects_or_default so st1 = objs).
  { destruct (carry_to_same_objects d so st) as [Ho _]. rewrite Hc in Ho.
    unfold objs. destruct so; simpl; trivial. }
  assert (Hv := value_same_ledger d (Some objs) st1).
  assert (Hc1 : carry_to d (Some objs) st1 = (Ok tt, st1)).
  { rewrite <- Hobjs, carry_to_objects. now apply carry_to_idempotent with st. }
  rewrite Hc1 in Hv. cbn [snd] in Hv.
  unfold bind at 1.
  destruct (value d (Some objs) st1) as [[vv|e] st2]; cbn [snd] in *; trivial.
  apply same_ledger_trans with st2; trivial.
  assert (K : keeps same_ledger
                (ex <- lift (extra_args m kw d) ;;
                 snap <- positions_at d ;;
                 result_dict <- for_fold (dict_keys snap)
                                  (metric_body m d objs ex) [] ;;
                 snap' <- positions_at d ;;
                 res <- lift (sum_weighted (snd vv) result_dict (fst vv)
                                (dict_keys snap') nzero) ;;
                 ret (res, result_dict))).
  { keeps_ledger. }
  apply K.
Qed.

(** ** Queries write to the ledger *)

Lemma carry_fold_first cur objs p d prev (n : string) (r : list string)
  (acc : option snapshot) :
  resolves objs n = true ->
  snd (carry_fold cur objs p d prev (n :: r) acc) <> None.
Proof.
  intros Hr. cbn [carry_fold].
  assert (H : snd (carry_step cur objs p d prev n acc) <> None).
  { unfold carry_step. unfold resolves in Hr.
    destruct (get_security n objs) as [s|]; [|discriminate].
    destruct (Security.is_expired s d); [discriminate|].
    destruct (dict_get String.eqb n prev); discriminate. }
  destruct (carry_step cur objs p d prev n acc) as [[[]|e] acc'];
    cbn [snd] in *; trivial.
  now apply carry_fold_grows.
Qed.

Lemma carry_fold_first_unresolved cur objs p d prev (n : string)
  (r : list string) (acc : option snapshot) :
  resolves objs n = false ->
  carry_fold cur objs p d prev (n :: r) acc = (Raise AttributeError, acc).
Proof.
  intros Hr. cbn [carry_fold]. unfold carry_step. unfold resolves in Hr.
  destruct (get_security n objs) as [s|]; [discriminate | reflexivity].
Qed.

Lemma value_raises_with_carry (d : date) (so : option (list Security.t))
  (st st' : portfolio) (e : exn) :
  carry_to d so st = (Raise e, st') -> value d so st = (Raise e, st').
Proof.
  intros H. unfold value. unfold bind at 1. unfold gets at 1. unfold bind at 1.
  now rewrite carry_to_objects, H.
Qed.

Lemma weighted_query_raises_with_carry (m : metric) (d : date)
  (so : option (list Security.t)) (kw : kwargs) (st st' : portfolio) (e : exn) :
  carry_to d so st = (Raise e, st') ->
  weighted_query m d so kw st = (Raise e, st').
Proof.
  intros H. unfold weighted_query.
  unfold bind at 1. unfold gets at 1. unfold bind at 1.
  now rewrite carry_to_objects, H.
Qed.

(** C10 (as amended).  Let [d] have no ledger entry and let the latest
    earlier snapshot start with the name [n].  [value] and the weighted
    queries at [d] never change the snapshot of another date.  When [n] has
    an object they insert an entry at [d], whether they return or raise
    later; when it has none they raise [AttributeError] and leave the
    ledger as it was. *)
Theorem query_materializes_date (st : portfolio) (d p : date)
  (so : option (list Security.t)) (kw : kwargs)
  (n : string) (q : num) (rest : snapshot) :
  dict_get Z.eqb d (positions st) = None ->
  latest_before st d p ->
  dict_get Z.eqb p (positions st) = Some ((n, q) :: rest) ->
  (forall d', d' <> d ->
     dict_get Z.eqb d' (positions (snd (value d so st)))
     = dict_get Z.eqb d' (positions st)
     /\ forall m,
          dict_get Z.eqb d' (positions (snd (weighted_query m d so kw st)))
          = dict_get Z.eqb d' (positions st))
  /\ (resolves (objects_or_default so st) n = true ->
      dict_get Z.eqb d (positions (snd (value d so st))) <> None
      /\ forall m,
           dict_get Z.eqb d (positions (snd (weighted_query m d so kw st)))
           <> None)
  /\ (resolves (objects_or_default so st) n = false ->
      value d so st = (Raise AttributeError, st)
      /\ forall m, weighted_query m d so kw st = (Raise AttributeError, st)).
Proof.
  intros Hd Hlatest Hprev.
  assert (Hfind := latest_before_find_lt st d p Hlatest).
  assert (Hc := carry_to_eq d p _ so st Hd Hfind Hprev).
  cbn [dict_keys map fst] in Hc.
  split; [|split].
  - intros d' Hne. split; [|intros m].
    + destruct (value_same_ledger d so st) as [Hp _]. rewrite Hp.
      now apply carry_to_other_dates.
    + destruct (weighted_query_same_ledger m d so kw st) as [Hp _]. rewrite Hp.
      now apply carry_to_other_dates.
  - intros Hres.
    assert (Hnew : dict_get Z.eqb d (positions (snd (carry_to d so st))) <> None).
    { rewrite Hc. cbn [snd].
      assert (H := carry_fold_first (currency st) (objects_or_default so st)
                     p d ((n, q) :: rest) n (map fst rest) None Hres).
      destruct (snd (carry_fold _ _ _ _ _ _ _)) as [s2|]; [|congruence].
      rewrite positions_put_snapshot_same. discriminate. }
    split; [|intros m].
    + destruct (value_same_ledger d so st) as [Hp _]. now rewrite Hp.
    + destruct (weighted_query_same_ledger m d so kw st) as [Hp _].
      now rewrite Hp.
  - intros Hres. rewrite carry_fold_first_unresolved in Hc by exact Hres.
    cbn [fst snd put_snapshot] in Hc. split; [|intros m].
    + now apply value_raises_with_carry.
    + now apply weighted_query_raises_with_carry.
Qed.

Lemma query_materializes_date_witness :
  dict_get Z.eqb 2%Z (positions (snd (value 2 None two_bonds))) <> None
  /\ forall m,
       dict_get Z.eqb 2%Z
         (positions (snd (weighted_query m 2 None no_kwargs two_bonds)))
       <> None.
Proof.
  apply (query_materializes_date two_bonds 2 1 None no_kwargs
           "A" (int 6) [("B", int 4)]).
  - reflexivity.
  - unfold latest_before. simpl.
    split; [now left | split; [lia | intros k [<-|[]] _; lia]].
  - reflexivity.
  - reflexivity.
Defined.

(** C10, as stated, fails when the first held name has no object: a ledger
    holding only cash, with no object for the currency, is left without an
    entry at date 2 by [value(2)], which raises [AttributeError]. *)
Lemma query_materializes_date_counterexample :
  dict_get Z.eqb 2%Z (positions cash_only) = None
  /\ latest_before cash_only 2 1
  /\ fst (value 2 None cash_only) = Raise AttributeError
  /\ dict_get Z.eqb 2%Z (positions (snd (value 2 None cash_only))) = None
  /\ fst (ytm 2 None no_kwargs cash_only) = Raise AttributeError
  /\ dict_get Z.eqb 2%Z (positions (snd (ytm 2 None no_kwargs cash_only))) = None.
Proof.
  split; [reflexivity|]. split.
  - unfold latest_before. simpl.
    split; [now left | split; [lia | intros k [<-|[]] _; lia]].
  - repeat split.
Qed.

(** ** The ledger invariant *)

Lemma put_snapshot_invariant (d : date) (s : snapshot) (st : portfolio) :
  ledger_invariant st -> snapshot_ok (currency st) s ->
  ledger_invariant (put_snapshot d (Some s) st).
Proof.
  intros Hinv Hs d' snap. cbn [put_snapshot set_positions positions currency].
  destruct (Z.eqb_spec d' d) as [->|Hne].
  - rewrite (dict_get_set_same _ Zeqb_eq). intros H. now inversion H; subst.
  - rewrite (dict_get_set_other _ Zeqb_eq) by exact Hne. apply Hinv.
Qed.

Lemma add_snap_ok (cur name : string) (q : num) (acc : option snapshot) :
  (forall snap, acc = Some snap -> snapshot_ok cur snap) ->
  name = cur \/ (held name acc + q)%num <> nzero ->
  snapshot_ok cur (add_snap name q acc).
Proof.
  intros Hacc Hq. split.
  - apply (uniq_add_snap name q acc). destruct acc as [snap|]; simpl; trivial.
    now apply (Hacc snap).
  - intros n v Hn Hv. change (lookup n (Some (add_snap name q acc)) = Some v) in Hn.
    destruct (String.eqb_spec n name) as [->|Hne].
    + rewrite lookup_add_snap_same in Hn. inversion Hn; subst.
      destruct Hq as [|Hq]; [trivial | contradiction].
    + rewrite lookup_add_snap_other in Hn by exact Hne.
      destruct acc as [snap|]; [|discriminate].
      destruct (Hacc snap eq_refl) as [_ H]. now apply (H n v).
Qed.

Lemma dict_set_ok (cur name : string) (v : num) (snap : snapshot) :
  snapshot_ok cur snap ->
  name = cur \/ v <> nzero ->
  snapshot_ok cur (dict_set String.eqb name v snap).
Proof.
  intros [Hu Hz] Hv. split.
  - now apply (uniq_keys_set _ Seqb_eq).
  - intros n q Hn Hq. destruct (String.eqb_spec n name) as [->|Hne].
    + rewrite (dict_get_set_same _ Seqb_eq) in Hn. inversion Hn; subst.
      destruct Hv as [|Hv]; [trivial | contradiction].
    + rewrite (dict_get_set_other _ Seqb_eq) in Hn by exact Hne.
      now apply (Hz n q).
Qed.

Lemma traded_ok (cur name : string) (t : trade) (snap : snapshot) :
  snapshot_ok cur snap -> snapshot_ok cur (traded cur name t snap).
Proof.
  intros [Hu Hz]. unfold traded.
  set (s1 := dict_set String.eqb name _ snap).
  set (s2 := dict_set String.eqb cur _ s1).
  assert (Hu2 : uniq_keys String.eqb s2 = true).
  { unfold s2, s1. now do 2 apply (uniq_keys_set _ Seqb_eq). }
  assert (Hother : forall n, n <> name -> n <> cur ->
                             dict_get String.eqb n s2 = dict_get String.eqb n snap).
  { intros n H1 H2. unfold s2, s1.
    now rewrite !(dict_get_set_other _ Seqb_eq). }
  destruct (dict_get String.eqb name s2) as [q1|] eqn:Hq1.
  - destruct (eq_zero q1 && negb (String.eqb name cur)) eqn:Hdel.
    + split; [now apply uniq_keys_del|].
      intros n q Hn Hq. destruct (String.eqb_spec n cur) as [|Hc]; trivial.
      destruct (String.eqb_spec n name) as [->|Hne].
      * rewrite (dict_get_del_same _ Seqb_eq) in Hn by exact Hu2. discriminate.
      * rewrite (dict_get_del_other _ Seqb_eq) in Hn by exact Hne.
        rewrite Hother in Hn by trivial. now apply (Hz n q).
    + split; trivial.
      intros n q Hn Hq. destruct (String.eqb_spec n cur) as [|Hc]; trivial.
      destruct (String.eqb_spec n name) as [->|Hne].
      * rewrite Hq1 in Hn. inversion Hn; subst q1.
        apply andb_false_iff in Hdel. destruct Hdel as [Hdel|Hdel].
        -- subst q. discriminate Hdel.
        -- apply negb_false_iff, String.eqb_eq in Hdel. contradiction.
      * rewrite Hother in Hn by trivial. now apply (Hz n q).
  - split; trivial.
    intros n q Hn Hq. destruct (String.eqb_spec n cur) as [|Hc]; trivial.
    destruct (String.eqb_spec n name) as [->|Hne]; [congruence|].
    rewrite Hother in Hn by trivial. now apply (Hz n q).
Qed.

Lemma carry_to_invariant (d : date) (so : option (list Security.t))
  (st : portfolio) :
  ledger_invariant st -> ledger_invariant (snd (carry_to d so st)).
Proof.
  intros Hinv. destruct (carry_to_shape d so st) as (o & Heq & Ho).
  rewrite Heq. cbn [snd]. destruct o as [s2|]; [|exact Hinv].
  destruct Ho as [|(p & prev & Hd & Hprev & Ho)]; [discriminate|].
  apply put_snapshot_invariant; trivial.
  destruct (Hinv p prev Hprev) as [Hu Hz].
  set (cur := currency st) in *. set (objs := objects_or_default so st) in *.
  split.
  - assert (H := carry_fold_uniq cur objs p d prev (dict_keys prev) None I).
    now rewrite <- Ho in H.
  - intros n q Hn Hq. destruct (String.eqb_spec n cur) as [|Hc]; trivial.
    assert (Hsf : carried_so_far cur prev (dict_keys prev) None)
      by (intros x _; now left).
    apply (carry_fold_carried_so_far cur objs p d) in Hsf;
      [|now apply uniq_keys_NoDup].
    rewrite <- Ho in Hsf. destruct (Hsf n Hc) as [H|[H _]]; cbn [lookup] in H.
    + congruence.
    + rewrite Hn in H. symmetry in H. now apply (Hz n q).
Qed.

Lemma store_eq (d : date) (name : string) (v : num) (snap : snapshot)
  (st : portfolio) :
  dict_get Z.eqb d (positions st) = Some snap ->
  store d name v st
  = (Ok tt, put_snapshot d (Some (dict_set String.eqb name v snap)) st).
Proof.
  intros H. unfold store, bind, positions_at, subscript. now rewrite H.
Qed.

Lemma apply_trade_present (d : date) (name : string) (t : trade)
  (so : option (list Security.t)) (snap : snapshot) (st : portfolio) :
  dict_get Z.eqb d (positions st) = Some snap ->
  _apply_trade d name t so st
  = (Ok tt, put_snapshot d (Some (traded (currency st) name t snap)) st).
Proof.
  intros Hd. unfold _apply_trade, traded.
  set (s1 := dict_set String.eqb name _ snap).
  set (s2 := dict_set String.eqb (currency st) _ s1).
  unfold bind at 1. unfold gets at 1. unfold dict_mem. rewrite Hd. cbn [negb].
  unfold bind at 1. unfold ret at 1.
  unfold bind at 1. unfold positions_at at 1, subscript at 1. rewrite Hd.
  unfold bind at 1. rewrite (store_eq d name _ snap st Hd). fold s1.
  set (st1 := put_snapshot d (Some s1) st).
  assert (Hd1 : dict_get Z.eqb d (positions st1) = Some s1)
    by apply positions_put_snapshot_same.
  unfold bind at 1. unfold positions_at at 1, subscript at 1. rewrite Hd1.
  unfold bind at 1. unfold gets at 1.
  unfold bind at 1. rewrite (store_eq d (currency st1) _ s1 st1 Hd1).
  change (currency st1) with (currency st). fold s2.
  set (st2 := put_snapshot d (Some s2) st1).
  assert (Hd2 : dict_get Z.eqb d (positions st2) = Some s2)
    by apply positions_put_snapshot_same.
  unfold bind at 1. unfold positions_at at 1, subscript at 1. rewrite Hd2.
  unfold bind at 1. unfold lift at 1, subscript at 1.
  assert (Hname : exists q, dict_get String.eqb name s2 = Some q).
  { destruct (String.eqb_spec name (currency st)) as [->|Hne].
    - eexists. unfold s2. apply (dict_get_set_same _ Seqb_eq).
    - eexists. unfold s2, s1.
      rewrite (dict_get_set_other _ Seqb_eq) by exact Hne.
      apply (dict_get_set_same _ Seqb_eq). }
  destruct Hname as [q Hq]. rewrite Hq.
  destruct (eq_zero q && negb (String.eqb name (currency st))).
  - f_equal. unfold st2, st1, put_snapshot, set_positions; simpl.
    now rewrite !(dict_set_set _ Zeqb_eq).
  - unfold ret. f_equal. unfold st2, st1. apply put_snapshot_twice.
Qed.

Lemma apply_trade_invariant (d : date) (name : string) (t : trade)
  (so : option (list Security.t)) (st : portfolio) :
  ledger_invariant st -> ledger_invariant (snd (_apply_trade d name t so st)).
Proof.
  intros Hinv.
  destruct (dict_get Z.eqb d (positions st)) as [snap|] eqn:Hd.
  - rewrite (apply_trade_present d name t so snap st Hd). cbn [snd].
    apply put_snapshot_invariant; trivial. apply traded_ok. now apply (Hinv d).
  - assert (Hc := carry_to_invariant d so st Hinv).
    assert (Hcur := proj2 (carry_to_same_objects d so st)).
    unfold _apply_trade. unfold bind at 1. unfold gets at 1.
    apply dict_mem_false in Hd. rewrite Hd. cbn [negb]. unfold bind at 1.
    destruct (carry_to d so st) as [[[]|e] st1]; cbn [snd] in *; trivial.
    destruct (dict_get Z.eqb d (positions st1)) as [snap|] eqn:Hd1.
    + assert (H := apply_trade_present d name t so snap st1 Hd1).
      unfold _apply_trade in H. unfold bind at 1 in H. unfold gets at 1 in H.
      unfold dict_mem in H. rewrite Hd1 in H. cbn [negb] in H.
      unfold bind at 1 in H. unfold ret at 1 in H. rewrite H. cbn [snd].
      apply put_snapshot_invariant; trivial. apply traded_ok.
      now apply (Hc d).
    + unfold bind at 1. unfold positions_at at 1, subscript at 1.
      now rewrite Hd1.
Qed.

Lemma set_trades_invariant (ts : dict date (dict string trade))
  (st : portfolio) :
  ledger_invariant st -> ledger_invariant (set_trades ts st).
Proof. intros H. exact H. Qed.

Lemma add_trade_invariant (d : date) (name : string) (t : trade)
  (so : option (list Security.t)) (st : portfolio) :
  ledger_invariant st -> ledger_invariant (snd (add_trade d name t so st)).
Proof.
  intros Hinv. unfold add_trade. unfold bind at 1. unfold gets at 1.
  destruct (dict_get Z.eqb d (trades st)) as [names|].
  - unfold bind at 1. unfold bind at 1. unfold lift at 1.
    destruct (merge_trades _ t) as [merged|e]; cbn [snd]; trivial.
    apply apply_trade_invariant. now apply set_trades_invariant.
  - unfold bind at 1. apply apply_trade_invariant.
    now apply set_trades_invariant.
Qed.

Lemma lookup_dict_set_other (n name : string) (v : num) (snap : snapshot) :
  n <> name ->
  dict_get String.eqb n (dict_set String.eqb name v snap)
  = dict_get String.eqb n snap.
Proof. intros H. now apply (dict_get_set_other _ Seqb_eq). Qed.

Lemma put_snapshot_entries_kept (d : date) (s : snapshot) (st : portfolio) :
  (forall n, lookup n (dict_get Z.eqb d (positions st)) <> None ->
             dict_get String.eqb n s <> None) ->
  entries_kept st (put_snapshot d (Some s) st).
Proof.
  intros H d' n Hn. destruct (Z.eq_dec d' d) as [->|Hne].
  - rewrite positions_put_snapshot_same. cbn [lookup]. now apply H.
  - now rewrite positions_put_snapshot_other.
Qed.

(** C9 (as amended).  [carry_to] and [add_trade] preserve the invariant
    that no snapshot holds the quantity 0 under a name other than the
    currency (and that names are distinct), whether they return or raise.
    [add_position], and [remove_position] called with a quantity, never
    delete an entry; on a ledger that satisfies the invariant they leave
    one that satisfies it exactly when the name is the currency or the
    quantity they leave under the name is not 0 (or, for
    [remove_position], when the date has no snapshot, in which case
    nothing changes). *)
Theorem ledger_invariant_preserved (st : portfolio) (d : date)
  (name : string) (q : num) (t : trade) (so : option (list Security.t)) :
  ledger_invariant st ->
  ledger_invariant (snd (carry_to d so st))
  /\ ledger_invariant (snd (add_trade d name t so st))
  /\ (ledger_invariant (snd (add_position d name q st))
      <-> name = currency st
          \/ (held name (dict_get Z.eqb d (positions st)) + q)%num <> nzero)
  /\ (ledger_invariant (snd (remove_position d name (Some q) st))
      <-> dict_get Z.eqb d (positions st) = None
          \/ name = currency st
          \/ (held name (dict_get Z.eqb d (positions st)) - q)%num <> nzero)
  /\ entries_kept st (snd (add_position d name q st))
  /\ entries_kept st (snd (remove_position d name (Some q) st)).
Proof.
  intros Hinv. split; [now apply carry_to_invariant|].
  split; [now apply add_trade_invariant|].
  split; [|split; [|split]].
  - rewrite add_position_eq. cbn [snd]. split.
    + intros Hafter.
      destruct (String.eqb_spec name (currency st)) as [|Hne]; [now left|].
      right. intros Hz. apply Hne.
      destruct (Hafter d (add_snap name q (dict_get Z.eqb d (positions st))))
        as [_ H].
      { apply positions_put_snapshot_same. }
      apply (H name _ (lookup_add_snap_same name q _) Hz).
    + intros Hq. apply put_snapshot_invariant; trivial.
      apply add_snap_ok; trivial.
      intros snap Hs. now apply (Hinv d).
  - unfold remove_position.
    destruct (dict_get Z.eqb d (positions st)) as [snap|] eqn:Hd.
    + rewrite (store_eq d name _ snap st Hd). cbn [snd]. split.
      * intros Hafter. right.
        destruct (String.eqb_spec name (currency st)) as [|Hne]; [now left|].
        right. intros Hz. apply Hne.
        destruct (Hafter d _ (positions_put_snapshot_same d _ st)) as [_ H].
        apply (H name _ (dict_get_set_same _ Seqb_eq name _ snap)).
        exact Hz.
      * intros [Hnone|Hq]; [discriminate|].
        apply put_snapshot_invariant; trivial. apply dict_set_ok.
        -- now apply (Hinv d).
        -- exact Hq.
    + cbn [snd]. split; [now left | trivial].
  - rewrite add_position_eq. cbn [snd]. apply put_snapshot_entries_kept.
    intros n Hn. change (lookup n (Some (add_snap name q
                                   (dict_get Z.eqb d (positions st)))) <> None).
    destruct (String.eqb_spec n name) as [->|Hne].
    + rewrite lookup_add_snap_same. discriminate.
    + now rewrite lookup_add_snap_other.
  - unfold remove_position.
    destruct (dict_get Z.eqb d (positions st)) as [snap|] eqn:Hd.
    + rewrite (store_eq d name _ snap st Hd). cbn [snd].
      apply put_snapshot_entries_kept. rewrite Hd. cbn [lookup].
      intros n Hn. destruct (String.eqb_spec n name) as [->|Hne].
      * rewrite (dict_get_set_same _ Seqb_eq). discriminate.
      * now rewrite lookup_dict_set_other.
    + cbn [snd]. intros d' n Hn. exact Hn.
Qed.

Lemma int_nonzero (z : Z) : z <> 0%Z -> int z <> nzero.
Proof.
  intros Hz H. unfold int, frac, nzero in H.
  assert (Hq : Q2Qc (z # 1) = Q2Qc 0) by congruence.
  apply Q2Qc_eq_iff in Hq. unfold Qeq in Hq. simpl in Hq. lia.
Qed.

Lemma single_snapshot_invariant (d0 : date) (s : snapshot)
  (ts : dict date (dict string trade)) (cur : string)
  (objs : list Security.t) (out : list line) :
  snapshot_ok cur s -> ledger_invariant (mk_portfolio [(d0, s)] ts cur objs out).
Proof.
  intros Hs d snap. simpl. destruct (d =? d0)%Z; [|discriminate].
  intros H. now inversion H; subst.
Qed.

Lemma two_bonds_invariant : ledger_invariant two_bonds.
Proof.
  apply single_snapshot_invariant. split; [reflexivity|].
  intros n q. simpl.
  destruct (String.eqb n "A"); [|destruct (String.eqb n "B"); [|discriminate]];
    intros H Hq; inversion H as [Hv]; rewrite Hq in Hv; exfalso;
    revert Hv; apply int_nonzero; discriminate.
Qed.

Lemma ledger_invariant_preserved_witness :
  ledger_invariant (snd (carry_to 2 None two_bonds))
  /\ ledger_invariant
       (snd (add_trade 2 "A" (mk_trade (int (-6)) (int 10)) None two_bonds))
  /\ ledger_invariant (snd (add_position 1 "A" (int 1) two_bonds))
  /\ ~ ledger_invariant (snd (add_position 1 "A" (int (-6)) two_bonds))
  /\ entries_kept two_bonds (snd (add_position 1 "A" (int (-6)) two_bonds)).
Proof.
  destruct (ledger_invariant_preserved two_bonds 2 "A" (int 1)
              (mk_trade (int (-6)) (int 10)) None two_bonds_invariant)
    as (H1 & H2 & _).
  destruct (ledger_invariant_preserved two_bonds 1 "A" (int 1)
              (mk_trade (int (-6)) (int 10)) None two_bonds_invariant)
    as (_ & _ & H3 & _).
  destruct (ledger_invariant_preserved two_bonds 1 "A" (int (-6))
              (mk_trade (int (-6)) (int 10)) None two_bonds_invariant)
    as (_ & _ & H4 & _ & H5 & _).
  split; [exact H1|]. split; [exact H2|]. split; [|split; [|exact H5]].
  - apply H3. right.
    intros H. apply (f_equal (fun x => match x with
                                       | Fin q => Qnum (this q)
                                       | NaN => 0%Z
                                       end)) in H.
    vm_compute in H. discriminate H.
  - intros Hafter. apply H4 in Hafter. destruct Hafter as [Hc|Hq].
    + discriminate Hc.
    + apply Hq. compute_eq.
Defined.

(** C9, as stated, fails for [add_position] and [remove_position], which
    store a quantity 0 like any other: adding 0 of X, or adding 5 and
    removing 5, leaves the entry [X: 0] in the snapshot. *)
Lemma ledger_invariant_preserved_counterexample :
  ledger_invariant (init "USD" None)
  /\ positions (snd (add_position 1 "X" nzero (init "USD" None)))
     = [(1%Z, [("X", nzero)])]
  /\ ~ ledger_invariant (snd (add_position 1 "X" nzero (init "USD" None)))
  /\ ledger_invariant (snd (add_position 1 "X" (int 5) (init "USD" None)))
  /\ ~ ledger_invariant
         (snd (remove_position 1 "X" (Some (int 5))
                 (snd (add_position 1 "X" (int 5) (init "USD" None))))).
Proof.
  split; [intros d snap; discriminate|]. split; [reflexivity|]. split; [|split].
  - intros H. destruct (H 1%Z [("X", nzero)] eq_refl) as [_ Hz].
    specialize (Hz "X" nzero eq_refl eq_refl). discriminate Hz.
  - apply single_snapshot_invariant. split; [reflexivity|].
    intros n q. simpl. destruct (String.eqb n "X"); [|discriminate].
    intros H Hq. inversion H as [Hv]. rewrite Hq in Hv. exfalso. revert Hv.
    apply int_nonzero. discriminate.
  - intros H.
    destruct (H 1%Z [("X", (int 5 - int 5)%num)] eq_refl) as [_ Hz].
    assert (Hq : (int 5 - int 5)%num = nzero) by compute_eq.
    specialize (Hz "X" _ eq_refl Hq). discriminate Hz.
Qed.

(** ** Failures of single instruments *)

Lemma weighted_query_ok (m : metric) (d : date)
  (so : option (list Security.t)) (kw : kwargs) (ex : extra) (snap : snapshot)
  (st : portfolio) :
  let cur := currency st in
  let objs := objects_or_default so st in
  dict_get Z.eqb d (positions st) = Some snap ->
  uniq_keys String.eqb snap = true ->
  (forall n, In n (dict_keys snap) -> n = cur \/ resolves objs n = true) ->
  extra_args m kw d = Ok ex ->
  sum (values_of cur objs d snap) <> nzero ->
  exists r,
    sum_ratio (sum (values_of cur objs d snap))
      (combine (values_of cur objs d snap) (metrics_of m objs d ex snap)) nzero
    = Ok r
    /\ weighted_query m d so kw st
       = (Ok (r, metric_breakdown m objs d ex snap),
          with_stdout
            (flat_map (value_diag cur objs d) (dict_keys snap)
             ++ flat_map (metric_diag m objs d ex) (dict_keys snap)) st).
Proof.
  intros cur objs Hd Hu Hres Hex Hv.
  rewrite (weighted_query_eq m d so kw ex snap st Hd Hu Hres Hex).
  fold cur objs.
  destruct (sum_ratio_total (sum (values_of cur objs d snap))
              (combine (values_of cur objs d snap)
                       (metrics_of m objs d ex snap)) nzero Hv) as [r Hr].
  rewrite Hr. now exists r.
Qed.

(** C2 (as amended).  At a materialized date where every held name other
    than the currency has an object and the total value is not zero, a
    weighted query, given the keyword arguments it reads, returns the
    weighted result and a breakdown covering every held name.  A name
    without object (the currency) or whose object lacks the method
    contributes the metric 0 and nothing is printed for it; a metric that
    is not a number is replaced by 0 and one line is printed; any other
    metric is reported as the method returned it; a unit value that is not
    a number is replaced by 0 and one line is printed. *)
Theorem weighted_query_isolates_failures (m : metric) (d : date)
  (so : option (list Security.t)) (kw : kwargs) (ex : extra) (snap : snapshot)
  (st : portfolio) :
  let cur := currency st in
  let objs := objects_or_default so st in
  let values := values_of cur objs d snap in
  dict_get Z.eqb d (positions st) = Some snap ->
  uniq_keys String.eqb snap = true ->
  (forall n, In n (dict_keys snap) ->
     n = cur \/ exists s, get_security n objs = Found s) ->
  keywords_read m kw d ex ->
  sum values <> nzero ->
  exists r bd st',
    weighted_query m d so kw st = (Ok (r, bd), st')
    /\ sum_ratio (sum values) (combine values (dict_values bd)) nzero = Ok r
    /\ dict_keys bd = dict_keys snap
    /\ positions st' = positions st
    /\ stdout st'
       = stdout st
         ++ flat_map (value_diag cur objs d) (dict_keys snap)
         ++ flat_map (metric_diag m objs d ex) (dict_keys snap)
    /\ forall n, In n (dict_keys snap) ->
         (get_security n objs = None_list ->
          dict_get String.eqb n bd = Some nzero
          /\ metric_diag m objs d ex n = [])
         /\ (forall s,
               get_security n objs = Found s ->
               Security.method s m = None ->
               dict_get String.eqb n bd = Some nzero
               /\ metric_diag m objs d ex n = [])
         /\ (forall s f,
               get_security n objs = Found s ->
               Security.method s m = Some f ->
               f d ex = NaN ->
               dict_get String.eqb n bd = Some nzero
               /\ metric_diag m objs d ex n = [Null_metric m n d])
         /\ (forall s f,
               get_security n objs = Found s ->
               Security.method s m = Some f ->
               isnan (f d ex) = false ->
               dict_get String.eqb n bd = Some (f d ex)
               /\ metric_diag m objs d ex n = [])
         /\ (forall s,
               n <> cur ->
               get_security n objs = Found s ->
               Security.value s d = NaN ->
               unit_value_of cur objs d n = nzero
               /\ value_diag cur objs d n = [Null_value n d])
         /\ (forall s,
               n <> cur ->
               get_security n objs = Found s ->
               isnan (Security.value s d) = false ->
               unit_value_of cur objs d n = Security.value s d
               /\ value_diag cur objs d n = []).
Proof.
  intros cur objs values Hd Hu Hobj Hkw Hv.
  assert (Hres : forall n, In n (dict_keys snap) ->
                           n = cur \/ resolves objs n = true).
  { intros n Hn. destruct (Hobj n Hn) as [->|[s Hs]]; [now left|].
    right. now apply resolves_found with s. }
  destruct (weighted_query_ok m d so kw ex snap st Hd Hu Hres
              (keywords_read_extra_args m kw d ex Hkw) Hv)
    as (r & Hr & Hq).
  fold cur objs values in Hr, Hq.
  assert (Hvals : dict_values (metric_breakdown m objs d ex snap)
                  = metrics_of m objs d ex snap).
  { unfold dict_values, metric_breakdown, metrics_of. now rewrite map_map. }
  exists r. do 2 eexists. split; [exact Hq|].
  split; [now rewrite Hvals|].
  split; [|split; [reflexivity|split; [reflexivity|]]].
  - unfold metric_breakdown, dict_keys. rewrite map_map. reflexivity.
  - intros n Hn.
    assert (Hbd : dict_get String.eqb n (metric_breakdown m objs d ex snap)
                  = Some (unit_result_of m objs d ex n)).
    { unfold metric_breakdown.
      rewrite (dict_get_map_entries (fun k _ => unit_result_of m objs d ex k)).
      destruct (dict_get_In _ Seqb_eq n snap Hn) as [q Hq']. now rewrite Hq'. }
    rewrite Hbd. unfold unit_result_of, metric_diag.
    split; [|split; [|split; [|split; [|split]]]].
    + intros ->. now split.
    + intros s -> ->. now split.
    + intros s f -> -> ->. now split.
    + intros s f -> -> ->. now split.
    + intros s Hc Hs Hnan. unfold unit_value_of, value_diag.
      apply String.eqb_neq in Hc. rewrite Hc, Hs, Hnan. now split.
    + intros s Hc Hs Hnan. unfold unit_value_of, value_diag.
      apply String.eqb_neq in Hc. rewrite Hc, Hs, Hnan. now split.
Qed.

Lemma weighted_query_isolates_failures_witness :
  exists r bd st',
    weighted_query Zspread_to_mat 1 None (curve_only (Curve 25)) mixed_spreads
    = (Ok (r, bd), st')
    /\ dict_keys bd = ["USD"; "A"; "N"; "V"]
    /\ dict_get String.eqb "USD" bd = Some nzero
    /\ dict_get String.eqb "A" bd = Some (frac 525 10000)
    /\ dict_get String.eqb "N" bd = Some nzero
    /\ dict_get String.eqb "V" bd = Some nzero
    /\ stdout st' = [Null_value "V" 1; Null_metric Zspread_to_mat "N" 1].
Proof.
  destruct (weighted_query_isolates_failures Zspread_to_mat 1 None
              (curve_only (Curve 25)) (With_curve (Curve 25))
              [("USD", int 100); ("A", int 6); ("N", int 2); ("V", int 3)]
              mixed_spreads)
    as (r & bd & st' & Hq & _ & Hk & _ & Hout & Hn).
  - reflexivity.
  - reflexivity.
  - simpl. intros n [<-|[<-|[<-|[<-|[]]]]];
      [now left | right; eexists; reflexivity ..].
  - exists (Curve 25). split; reflexivity.
  - intros H. apply (f_equal (fun x => match x with
                                       | Fin q => Qnum (this q)
                                       | NaN => 0%Z
                                       end)) in H.
    vm_compute in H. discriminate H.
  - exists r, bd, st'. split; [exact Hq|]. split; [exact Hk|].
    split; [|split; [|split; [|split; [|exact Hout]]]].
    + destruct (Hn "USD") as (H & _); [simpl; tauto|].
      now apply H.
    + destruct (Hn "A") as (_ & _ & _ & H & _); [simpl; tauto|].
      destruct (H (spread_bond "A" (int 10) (frac 5 100)) _
                  eq_refl eq_refl eq_refl) as [Hbd _].
      rewrite Hbd. compute_eq.
    + destruct (Hn "N") as (_ & _ & H & _); [simpl; tauto|].
      now destruct (H (spread_bond "N" (int 10) NaN) _
                      eq_refl eq_refl eq_refl).
    + destruct (Hn "V") as (_ & H & _); [simpl; tauto|].
      now destruct (H (nan_value "V") eq_refl eq_refl).
Defined.

(** C2, as stated, fails in two ways.  A held name without object, other
    than the currency, aborts every query: [value] calls the missing
    object's [value] outside any handler.  And an instrument that lacks the
    method is given 0 without a diagnostic: nothing is printed. *)
Lemma weighted_query_isolates_failures_counterexample :
  get_security "X" (security_objects unknown_x) = None_list
  /\ fst (ytm 1 None no_kwargs unknown_x) = Raise AttributeError
  /\ fst (value 1 None unknown_x) = Raise AttributeError
  /\ get_security "A" (security_objects two_bonds)
     = Found (bond "A" (int 10) (frac 5 100))
  /\ Security.method (bond "A" (int 10) (frac 5 100)) Ytw = None
  /\ fst (ytw 1 None no_kwargs two_bonds)
     = Ok (int 0, [("A", int 0); ("B", int 0)])
  /\ stdout (snd (ytw 1 None no_kwargs two_bonds)) = [].
Proof. repeat split; compute_eq. Qed.


(** * Further properties of the ledger *)

(** ** [find_lt] and [find_gt] on ascending dates *)

Lemma find_gt_cons (d y : date) (r : list date) :
  find_gt d (y :: r) = if (y <=? d)%Z then find_gt d r else Ok y.
Proof.
  unfold find_gt. simpl. destruct (y <=? d)%Z; trivial.
Qed.

Lemma find_gt_In (d g : date) (l : list date) :
  find_gt d l = Ok g -> In g l /\ (d < g)%Z.
Proof.
  induction l as [|y r IH]; [discriminate|].
  rewrite find_gt_cons. destruct (y <=? d)%Z eqn:E.
  - intros H. destruct (IH H). simpl. tauto.
  - apply Z.leb_gt in E. intros H. inversion H; subst. simpl. tauto.
Qed.

(** X1.  On ascending dates [find_gt] raises [ValueError] exactly when no
    date is later than [d], and otherwise returns the earliest date
    strictly after [d]. *)
Theorem find_gt_earliest_after (d : date) (l : list date) :
  ascending l ->
  (find_gt d l = Raise ValueError <-> forall y, In y l -> (y <= d)%Z)
  /\ forall g,
       find_gt d l = Ok g
       <-> In g l /\ (d < g)%Z /\ forall y, In y l -> (d < y)%Z -> (g <= y)%Z.
Proof.
  induction l as [|x r IH]; intros Hasc.
  - split.
    + split; [intros _ y [] | reflexivity].
    + intros g. split; [discriminate | intros [[] _]].
  - destruct Hasc as [Hx Hr]. destruct (IH Hr) as [IHraise IHok].
    rewrite find_gt_cons. destruct (x <=? d)%Z eqn:E.
    + apply Z.leb_le in E. split.
      * rewrite IHraise. split.
        -- intros H y [<-|Hy]; auto.
        -- intros H y Hy. apply H. now right.
      * intros g. rewrite IHok. split.
        -- intros (Hin & Hlt & Hmin). split; [now right|]. split; trivial.
           intros y [<-|Hy] Hd; [lia | now apply Hmin].
        -- intros ([<-|Hin] & Hlt & Hmin); [lia|]. split; trivial. split; trivial.
           intros y Hy. apply Hmin. now right.
    + apply Z.leb_gt in E. split.
      * split; [discriminate|]. intros H.
        specialize (H x (or_introl eq_refl)). lia.
      * intros g. split.
        -- intros H. inversion H; subst g. split; [now left|]. split; trivial.
           intros y [<-|Hy] _; [lia | now apply Hx].
        -- intros (Hin & Hlt & Hmin). f_equal.
           specialize (Hmin x (or_introl eq_refl) E).
           destruct Hin as [|Hin]; trivial. specialize (Hx g Hin). lia.
Qed.

Lemma find_gt_earliest_after_witness :
  find_gt 4 [1; 3; 5; 8]%Z = Ok 5%Z
  /\ find_gt 8 [1; 3; 5; 8]%Z = Raise ValueError.
Proof.
  assert (Hasc : ascending [1; 3; 5; 8]%Z).
  { simpl. repeat split; intros y H; repeat destruct H as [<-|H]; try lia;
      contradiction. }
  destruct (find_gt_earliest_after 4 [1; 3; 5; 8]%Z Hasc) as [_ Hok].
  destruct (find_gt_earliest_after 8 [1; 3; 5; 8]%Z Hasc) as [Hraise _].
  split.
  - apply Hok. simpl. split; [tauto|]. split; [lia|].
    intros y H Hy; repeat destruct H as [<-|H]; try lia; contradiction.
  - apply Hraise. simpl.
    intros y H; repeat destruct H as [<-|H]; try lia; contradiction.
Defined.

(** X2.  On ascending dates [find_lt] raises [ValueError] exactly when no
    date is earlier than [d], and otherwise returns the latest date
    strictly before [d]. *)
Theorem find_lt_latest_before_date (d : date) (l : list date) :
  ascending l ->
  (find_lt d l = Raise ValueError <-> forall y, In y l -> (d <= y)%Z)
  /\ forall p,
       find_lt d l = Ok p
       <-> In p l /\ (p < d)%Z /\ forall y, In y l -> (y < d)%Z -> (y <= p)%Z.
Proof.
  intros Hasc. split.
  - split; [|apply find_lt_none].
    destruct l as [|x r]; [intros _ y []|].
    rewrite find_lt_cons. destruct (x <? d)%Z eqn:E.
    + destruct (find_lt d r); discriminate.
    + apply Z.ltb_ge in E. intros _ y [<-|Hy]; trivial.
      destruct Hasc as [Hx _]. specialize (Hx y Hy). lia.
  - intros p. split.
    + intros H. destruct (find_lt_In d p l H) as [Hin Hlt].
      split; trivial. split; trivial.
      revert p H Hin Hlt. induction l as [|x r IH]; intros p H Hin Hlt y Hy Hyd;
        [contradiction|].
      destruct Hasc as [Hx Hr]. rewrite find_lt_cons in H.
      destruct (x <? d)%Z eqn:E; [|discriminate].
      destruct (find_lt d r) as [q|e] eqn:Er.
      * inversion H; subst q. destruct (find_lt_In d p r Er) as [Hpr _].
        destruct Hy as [<-|Hy]; [now apply Hx|].
        now apply (IH Hr p).
      * inversion H; subst p. destruct Hy as [<-|Hy]; [lia|].
        assert (Hnone : forall z, In z r -> (d <= z)%Z).
        { destruct r as [|z0 r0]; [intros z []|].
          rewrite find_lt_cons in Er. destruct (z0 <? d)%Z eqn:E0.
          - destruct (find_lt d r0); discriminate.
          - apply Z.ltb_ge in E0. intros z [<-|Hz]; trivial.
            destruct Hr as [Hz0 _]. specialize (Hz0 z Hz). lia. }
        specialize (Hnone y Hy). lia.
    + intros (Hin & Hlt & Hmax). now apply find_lt_latest.
Qed.

Lemma find_lt_latest_before_date_witness :
  find_lt 4 [1; 3; 5; 8]%Z = Ok 3%Z
  /\ find_lt 1 [1; 3; 5; 8]%Z = Raise ValueError.
Proof.
  assert (Hasc : ascending [1; 3; 5; 8]%Z).
  { simpl. repeat split; intros y H; repeat destruct H as [<-|H]; try lia;
      contradiction. }
  destruct (find_lt_latest_before_date 4 [1; 3; 5; 8]%Z Hasc) as [_ Hok].
  destruct (find_lt_latest_before_date 1 [1; 3; 5; 8]%Z Hasc) as [Hraise _].
  split.
  - apply Hok. simpl. split; [tauto|]. split; [lia|].
    intros y H Hy; repeat destruct H as [<-|H]; try lia; contradiction.
  - apply Hraise. simpl.
    intros y H; repeat destruct H as [<-|H]; try lia; contradiction.
Defined.

(** ** [add_position] and [remove_position] *)

Lemma add_position_effect (st : portfolio) (d : date) (name : string) (q : num) :
  let st' := snd (add_position d name q st) in
  fst (add_position d name q st) = Ok tt
  /\ lookup name (dict_get Z.eqb d (positions st'))
     = Some (held name (dict_get Z.eqb d (positions st)) + q)%num
  /\ (forall n, n <> name ->
        lookup n (dict_get Z.eqb d (positions st'))
        = lookup n (dict_get Z.eqb d (positions st)))
  /\ (forall d', d' <> d ->
        dict_get Z.eqb d' (positions st') = dict_get Z.eqb d' (positions st))
  /\ trades st' = trades st
  /\ stdout st' = stdout st.
Proof.
  rewrite add_position_eq. cbn [fst snd].
  split; [reflexivity|]. rewrite positions_put_snapshot_same.
  split; [apply lookup_add_snap_same|].
  split; [intros n Hn; now apply lookup_add_snap_other|].
  split; [intros d' Hd; now apply positions_put_snapshot_other|].
  now split.
Qed.

(** X3.  [add_position] never raises; afterwards the quantity held under
    the name at the date is the previous one (0 when there was none) plus
    [qty], every other entry of every snapshot is as before, and neither the
    trades nor the output are touched. *)
Theorem add_position_adds (st : portfolio) (d : date) (name : string) (q : num) :
  let st' := snd (add_position d name q st) in
  fst (add_position d name q st) = Ok tt
  /\ lookup name (dict_get Z.eqb d (positions st'))
     = Some (held name (dict_get Z.eqb d (positions st)) + q)%num
  /\ (forall n, n <> name ->
        lookup n (dict_get Z.eqb d (positions st'))
        = lookup n (dict_get Z.eqb d (positions st)))
  /\ (forall d', d' <> d ->
        dict_get Z.eqb d' (positions st') = dict_get Z.eqb d' (positions st))
  /\ trades st' = trades st
  /\ stdout st' = stdout st.
Proof. exact (add_position_effect st d name q). Qed.

(** X5.  [remove_position] with a quantity never removes an entry: after
    a finite quantity was added under a name that was not held at the date
    and the same quantity is removed again, the name is still in the
    snapshot, with quantity 0, and no other entry has changed.  On a date
    without snapshot [remove_position] does nothing and does not raise. *)
Theorem remove_position_after_add (st : portfolio) (d : date) (name : string)
  (x : Qc) :
  lookup name (dict_get Z.eqb d (positions st)) = None ->
  let st1 := snd (add_position d name (Fin x) st) in
  let st2 := snd (remove_position d name (Some (Fin x)) st1) in
  fst (remove_position d name (Some (Fin x)) st1) = Ok tt
  /\ lookup name (dict_get Z.eqb d (positions st2)) = Some nzero
  /\ (forall n, n <> name ->
        lookup n (dict_get Z.eqb d (positions st2))
        = lookup n (dict_get Z.eqb d (positions st)))
  /\ (forall d', d' <> d ->
        dict_get Z.eqb d' (positions st2) = dict_get Z.eqb d' (positions st))
  /\ (forall q, dict_get Z.eqb d (positions st) = None ->
        remove_position d name q st = (Ok tt, st)).
Proof.
  intros Hnone st1 st2.
  assert (Hh : held name (dict_get Z.eqb d (positions st)) = nzero).
  { unfold held. now rewrite Hnone. }
  assert (H1 := add_position_effect st d name (Fin x)).
  fold st1 in H1. cbn zeta in H1.
  destruct H1 as (_ & Hname & Hother & Hdates & _).
  destruct (dict_get Z.eqb d (positions st1)) as [s1|] eqn:Hs1;
    [|discriminate Hname].
  assert (Hrm : remove_position d name (Some (Fin x)) st1
                = (Ok tt,
                   put_snapshot d
                     (Some (dict_set String.eqb name
                              (dict_get_or String.eqb name nzero s1 - Fin x)%num
                              s1)) st1)).
  { unfold remove_position. rewrite Hs1. now apply store_eq. }
  unfold st2. rewrite Hrm. cbn [fst snd]. split; [reflexivity|].
  rewrite positions_put_snapshot_same. cbn [lookup] in *.
  split; [|split; [|split]].
  - rewrite (dict_get_set_same _ Seqb_eq). unfold dict_get_or.
    rewrite Hname, Hh. unfold nzero, nadd, nsub. do 2 f_equal. ring.
  - intros n Hn. rewrite (dict_get_set_other _ Seqb_eq) by exact Hn.
    now apply Hother.
  - intros d' Hd. rewrite positions_put_snapshot_other by exact Hd.
    now apply Hdates.
  - intros q Hd. unfold remove_position. now rewrite Hd.
Qed.

Lemma remove_position_after_add_witness :
  lookup "X"
    (dict_get Z.eqb 1%Z
       (positions
          (snd (remove_position 1 "X" (Some (Fin (Q2Qc 5)))
                  (snd (add_position 1 "X" (Fin (Q2Qc 5)) two_bonds))))))
  = Some nzero.
Proof.
  apply (remove_position_after_add two_bonds 1 "X" (Q2Qc 5)).
  reflexivity.
Defined.

(** ** [get_security] *)

Lemma attr_eqb_iff (security_name : string) (attr : option string) :
  attr_eqb security_name attr = true <-> attr = Some security_name.
Proof.
  destruct attr as [s|]; simpl.
  - rewrite String.eqb_eq. split; congruence.
  - split; discriminate.
Qed.

(** Whether an object answers to a name. *)
Lemma matches_iff (security_name : string) (obj : Security.t) :
  attr_eqb security_name (Security.ts_name obj)
  || attr_eqb security_name (Security.name obj) = true
  <-> Security.ts_name obj = Some security_name
      \/ Security.name obj = Some security_name.
Proof. now rewrite orb_true_iff, !attr_eqb_iff. Qed.

(** X6.  [get_security] returns the first object of the collection whose
    [ts_name] or [name] is the name asked for, and the default [[None]]
    exactly when no object has that name. *)
Theorem get_security_first_match (security_name : string)
  (objs : list Security.t) :
  (get_security security_name objs = None_list
   <-> forall o, In o objs ->
         Security.ts_name o <> Some security_name
         /\ Security.name o <> Some security_name)
  /\ forall obj,
       get_security security_name objs = Found obj
       <-> exists before after,
             objs = before ++ obj :: after
             /\ (Security.ts_name obj = Some security_name
                 \/ Security.name obj = Some security_name)
             /\ forall o, In o before ->
                  Security.ts_name o <> Some security_name
                  /\ Security.name o <> Some security_name.
Proof.
  unfold get_security. induction objs as [|o r [IHnone IHfound]]; simpl.
  - split.
    + split; [intros _ o [] | reflexivity].
    + intros obj. split; [discriminate|].
      intros (before & after & H & _). destruct before; discriminate.
  - destruct (attr_eqb security_name (Security.ts_name o)
              || attr_eqb security_name (Security.name o)) eqn:E.
    + apply matches_iff in E. split.
      * split; [discriminate|]. intros H.
        destruct (H o (or_introl eq_refl)). tauto.
      * intros obj. split.
        -- intros H. inversion H; subst obj. exists [], r.
           split; [reflexivity|]. split; [exact E | intros o' []].
        -- intros ([|o' before] & after & Heq & Hm & Hb).
           ++ simpl in Heq. now inversion Heq.
           ++ simpl in Heq. inversion Heq; subst o'.
              destruct (Hb o (or_introl eq_refl)). tauto.
    + assert (Hno : Security.ts_name o <> Some security_name
                    /\ Security.name o <> Some security_name).
      { split; intros H; rewrite (proj2 (matches_iff security_name o)) in E;
          (discriminate || tauto). }
      split.
      * rewrite IHnone. split.
        -- intros H o' [<-|Ho']; auto.
        -- intros H o' Ho'. apply H. now right.
      * intros obj. rewrite IHfound. split.
        -- intros (before & after & Heq & Hm & Hb).
           exists (o :: before), after. rewrite Heq.
           split; [reflexivity|]. split; trivial.
           intros o' [<-|Ho']; auto.
        -- intros ([|o' before] & after & Heq & Hm & Hb).
           ++ simpl in Heq. inversion Heq; subst obj. tauto.
           ++ simpl in Heq. inversion Heq; subst o'.
              exists before, after. split; [reflexivity|]. split; trivial.
              intros o'' Ho''. apply Hb. now right.
Qed.

(** ** [carry_to]: repetition, locality and failure half-way *)

Lemma carry_fold_raises_unresolved cur objs p d prev (names : list string)
  (acc : option snapshot) :
  (forall n, In n names -> In n (dict_keys prev)) ->
  (exists n, In n names /\ resolves objs n = false) ->
  fst (carry_fold cur objs p d prev names acc) = Raise AttributeError.
Proof.
  revert acc. induction names as [|n r IH]; intros acc Hp [k [Hk Hres]];
    [contradiction|].
  cbn [carry_fold]. unfold carry_step.
  destruct (get_security n objs) as [s|] eqn:Hs; [|reflexivity].
  assert (Hrest : exists k', In k' r /\ resolves objs k' = false).
  { destruct Hk as [<-|Hk]; [|now exists k].
    unfold resolves in Hres. rewrite Hs in Hres. discriminate. }
  destruct (dict_get_In _ Seqb_eq n prev (Hp n (or_introl eq_refl))) as [q Hq].
  rewrite Hq.
  destruct (Security.is_expired s d); apply IH; trivial;
    intros; apply Hp; now right.
Qed.

Lemma carry_fold_skips_unresolved cur objs p d prev (k : string)
  (names : list string) (acc : option snapshot) :
  k <> cur -> resolves objs k = false ->
  lookup k (snd (carry_fold cur objs p d prev names acc)) = lookup k acc.
Proof.
  intros Hc Hres. revert acc.
  induction names as [|n r IH]; intros acc; trivial.
  cbn [carry_fold].
  assert (H1 : lookup k (snd (carry_step cur objs p d prev n acc))
               = lookup k acc).
  { destruct (String.eqb_spec k n) as [<-|Hkn].
    - unfold carry_step. unfold resolves in Hres.
      destruct (get_security k objs); [discriminate | reflexivity].
    - now apply carry_step_other. }
  destruct (carry_step cur objs p d prev n acc) as [[[]|e] acc'];
    cbn [snd] in *; trivial.
  now rewrite IH.
Qed.

Lemma carry_to_keeps_rest (d : date) (so : option (list Security.t))
  (st : portfolio) :
  trades (snd (carry_to d so st)) = trades st
  /\ stdout (snd (carry_to d so st)) = stdout st.
Proof.
  destruct (carry_to_shape d so st) as (o & Heq & _).
  rewrite Heq. cbn [snd]. now destruct o.
Qed.

(** X7.  [carry_to(d)] is idempotent: once it has returned, or has left
    an entry at [d], calling it again returns and changes nothing.  It
    does nothing at a date that already has an entry, and in every case it
    changes no snapshot of another date, no trade and prints nothing. *)
Theorem carry_to_idempotent_local (st : portfolio) (d : date)
  (so : option (list Security.t)) :
  let st1 := snd (carry_to d so st) in
  (fst (carry_to d so st) = Ok tt
   \/ dict_get Z.eqb d (positions st1) <> None ->
   carry_to d so st1 = (Ok tt, st1))
  /\ (dict_get Z.eqb d (positions st) <> None ->
      carry_to d so st = (Ok tt, st))
  /\ (forall d', d' <> d ->
        dict_get Z.eqb d' (positions st1) = dict_get Z.eqb d' (positions st))
  /\ trades st1 = trades st
  /\ stdout st1 = stdout st.
Proof.
  intros st1. split; [|split; [|split]].
  - intros [Hok|Hd].
    + apply carry_to_idempotent with st. unfold st1.
      destruct (carry_to d so st) as [r s]. simpl in Hok. now subst r.
    + apply carry_to_present. unfold dict_mem.
      destruct (dict_get Z.eqb d (positions st1)); [reflexivity | congruence].
  - intros Hd. apply carry_to_present. unfold dict_mem.
    destruct (dict_get Z.eqb d (positions st)); [reflexivity | congruence].
  - intros d' Hne. now apply carry_to_other_dates.
  - apply carry_to_keeps_rest.
Qed.

Lemma carry_to_idempotent_local_witness :
  carry_to 2 None (snd (carry_to 2 None two_bonds))
  = (Ok tt, snd (carry_to 2 None two_bonds)).
Proof.
  apply (carry_to_idempotent_local two_bonds 2 None). left. reflexivity.
Defined.

(** X8.  When the first name of the earlier snapshot has an object and a
    later name, other than the currency, has none, [carry_to] raises
    [AttributeError] after it has created the entry at [d]: the entry lacks
    that name, and a second call returns normally without completing it. *)
Theorem carry_to_fails_half_way (st : portfolio) (d p : date)
  (so : option (list Security.t)) (n1 : string) (q1 : num) (rest : snapshot)
  (n2 : string) :
  dict_get Z.eqb d (positions st) = None ->
  latest_before st d p ->
  dict_get Z.eqb p (positions st) = Some ((n1, q1) :: rest) ->
  resolves (objects_or_default so st) n1 = true ->
  In n2 (dict_keys rest) ->
  n2 <> currency st ->
  resolves (objects_or_default so st) n2 = false ->
  let st1 := snd (carry_to d so st) in
  fst (carry_to d so st) = Raise AttributeError
  /\ (exists snap, dict_get Z.eqb d (positions st1) = Some snap
                   /\ dict_get String.eqb n2 snap = None)
  /\ carry_to d so st1 = (Ok tt, st1).
Proof.
  intros Hd Hlatest Hprev Hr1 Hin Hcur Hr2 st1.
  assert (Hfind := latest_before_find_lt st d p Hlatest).
  assert (Hc := carry_to_eq d p _ so st Hd Hfind Hprev).
  set (objs := objects_or_default so st) in *.
  set (prev := (n1, q1) :: rest) in *.
  set (F := carry_fold (currency st) objs p d prev (dict_keys prev) None) in *.
  assert (Hraise : fst F = Raise AttributeError).
  { apply carry_fold_raises_unresolved; trivial.
    exists n2. split; [now right | trivial]. }
  assert (Hsome : snd F <> None) by (now apply carry_fold_first).
  assert (Habs : lookup n2 (snd F) = None)
    by (unfold F; now rewrite carry_fold_skips_unresolved).
  unfold st1. rewrite Hc. cbn [fst snd].
  destruct (snd F) as [snap|]; [|congruence].
  split; [exact Hraise|]. split.
  - exists snap. now rewrite positions_put_snapshot_same.
  - apply carry_to_present. unfold dict_mem.
    now rewrite positions_put_snapshot_same.
Qed.

Lemma carry_to_fails_half_way_witness :
  fst (carry_to 2 None bond_and_unknown) = Raise AttributeError
  /\ (exists snap,
         dict_get Z.eqb 2%Z (positions (snd (carry_to 2 None bond_and_unknown)))
         = Some snap
         /\ dict_get String.eqb "X" snap = None)
  /\ carry_to 2 None (snd (carry_to 2 None bond_and_unknown))
     = (Ok tt, snd (carry_to 2 None bond_and_unknown)).
Proof.
  apply (carry_to_fails_half_way bond_and_unknown 2 1 None "A" (int 6)
           [("X", int 10)] "X").
  - reflexivity.
  - unfold latest_before. simpl.
    split; [now left | split; [lia | intros k [<-|[]] _; lia]].
  - reflexivity.
  - reflexivity.
  - simpl. now left.
  - discriminate.
  - reflexivity.
Defined.

(** The carried currency balance in general. *)
Lemma carry_to_balance (st : portfolio) (d1 d2 : date)
  (so : option (list Security.t)) (prev : snapshot) :
  dict_get Z.eqb d2 (positions st) = None ->
  latest_before st d2 d1 ->
  dict_get Z.eqb d1 (positions st) = Some prev ->
  prev <> [] ->
  uniq_keys String.eqb prev = true ->
  (forall k, In k (dict_keys prev) ->
     resolves (objects_or_default so st) k = true) ->
  exists snap2,
    carry_to d2 so st = (Ok tt, put_snapshot d2 (Some snap2) st)
    /\ dict_get String.eqb (currency st) snap2
       = Some (accrued_cash (objects_or_default so st) d1 d2 prev
               + carried_balance (currency st) (objects_or_default so st)
                   d2 prev)%num.
Proof.
  intros Hd2 Hlatest Hprev Hne Hu Hres.
  set (objs := objects_or_default so st) in *.
  assert (Hfind := latest_before_find_lt st d2 d1 Hlatest).
  rewrite (carry_to_eq d2 d1 prev so st Hd2 Hfind Hprev). fold objs.
  set (F := carry_fold (currency st) objs d1 d2 prev (dict_keys prev) None).
  assert (Hok : fst F = Ok tt) by (apply carry_fold_ok; auto).
  assert (Hkeys : dict_keys prev <> []).
  { destruct prev; [congruence | discriminate]. }
  assert (Hc := carry_fold_has_cur (currency st) objs d1 d2 prev
                  (dict_keys prev) None Hkeys Hok).
  fold F in Hc. apply lookup_held in Hc as Hc'.
  unfold F in Hc' at 2. rewrite carry_fold_balance in Hc' by exact Hok.
  rewrite big_sum_credit in Hc' by exact Hu.
  destruct (snd F) as [s2|] eqn:HF; [|now elim Hc].
  exists s2. rewrite Hok. split; trivial.
  cbn [lookup] in Hc'. rewrite Hc'. unfold held. cbn [lookup].
  now rewrite nadd_0_l.
Qed.

(** X9.  The currency balance itself is carried only while the object of
    the currency is not expired: if every held name has an object and the
    currency's object is expired at [d2], the balance at [d2] consists of
    the accrued cash alone, the balance held at [d1] being dropped. *)
Theorem expired_currency_object_drops_balance (st : portfolio) (d1 d2 : date)
  (so : option (list Security.t)) (prev : snapshot) :
  dict_get Z.eqb d2 (positions st) = None ->
  latest_before st d2 d1 ->
  dict_get Z.eqb d1 (positions st) = Some prev ->
  uniq_keys String.eqb prev = true ->
  (forall k, In k (dict_keys prev) ->
     resolves (objects_or_default so st) k = true) ->
  In (currency st) (dict_keys prev) ->
  expired_at (objects_or_default so st) d2 (currency st) = true ->
  exists snap2,
    carry_to d2 so st = (Ok tt, put_snapshot d2 (Some snap2) st)
    /\ dict_get String.eqb (currency st) snap2
       = Some (accrued_cash (objects_or_default so st) d1 d2 prev).
Proof.
  intros Hd2 Hlatest Hprev Hu Hres Hin Hexp.
  assert (Hne : prev <> []) by (intros ->; contradiction).
  destruct (carry_to_balance st d1 d2 so prev Hd2 Hlatest Hprev Hne Hu Hres)
    as (snap2 & Hc & Hbal).
  exists snap2. split; trivial. rewrite Hbal. unfold carried_balance.
  rewrite Hexp, andb_false_r. now rewrite nadd_0_r.
Qed.

Lemma expired_currency_object_drops_balance_witness :
  exists snap2,
    carry_to 20 None maturing_cash
    = (Ok tt, put_snapshot 20 (Some snap2) maturing_cash)
    /\ dict_get String.eqb "USD" snap2
       = Some (accrued_cash (security_objects maturing_cash) 10 20
                 [("USD", int 100)]).
Proof.
  apply (expired_currency_object_drops_balance maturing_cash 10 20 None
           [("USD", int 100)]).
  - reflexivity.
  - unfold latest_before. simpl.
    split; [now left | split; [lia | intros k [<-|[]] _; lia]].
  - reflexivity.
  - reflexivity.
  - simpl. intros k [<-|[]]. reflexivity.
  - simpl. now left.
  - reflexivity.
Defined.

(** ** [add_trade] and [_apply_trade] *)

Lemma apply_trade_absent (d : date) (name : string) (t : trade)
  (so : option (list Security.t)) (st : portfolio) :
  dict_get Z.eqb d (positions st) = None ->
  _apply_trade d name t so st
  = match carry_to d so st with
    | (Ok _, st1) =>
        match dict_get Z.eqb d (positions st1) with
        | Some snap =>
            (Ok tt,
             put_snapshot d (Some (traded (currency st1) name t snap)) st1)
        | None => (Raise KeyError, st1)
        end
    | (Raise e, st1) => (Raise e, st1)
    end.
Proof.
  intros Hd. unfold _apply_trade. unfold bind at 1. unfold gets at 1.
  apply dict_mem_false in Hd. rewrite Hd. cbn [negb]. unfold bind at 1.
  destruct (carry_to d so st) as [[[]|e] st1]; trivial.
  destruct (dict_get Z.eqb d (positions st1)) as [snap|] eqn:Hd1.
  - assert (H := apply_trade_present d name t so snap st1 Hd1).
    unfold _apply_trade in H. unfold bind at 1 in H. unfold gets at 1 in H.
    unfold dict_mem in H. rewrite Hd1 in H. cbn [negb] in H.
    unfold bind at 1 in H. unfold ret at 1 in H. exact H.
  - unfold bind at 1. unfold positions_at at 1, subscript at 1.
    now rewrite Hd1.
Qed.

(** [_apply_trade] changes nothing but the snapshot at the trade date. *)
Lemma apply_trade_shape (d : date) (name : string) (t : trade)
  (so : option (list Security.t)) (st : portfolio) :
  exists o, snd (_apply_trade d name t so st) = put_snapshot d o st.
Proof.
  destruct (dict_get Z.eqb d (positions st)) as [snap|] eqn:Hd.
  - rewrite (apply_trade_present d name t so snap st Hd). cbn [snd]. eauto.
  - rewrite (apply_trade_absent d name t so st Hd).
    destruct (carry_to_shape d so st) as (o1 & Heq & _). rewrite Heq.
    destruct (fst (carry_to d so st)) as [[]|e]; cbn [snd]; [|eauto].
    destruct (dict_get Z.eqb d (positions (put_snapshot d o1 st))); cbn [snd];
      [|eauto].
    eexists. apply put_snapshot_after. discriminate.
Qed.

Lemma add_trade_unfold (d : date) (name : string) (t : trade)
  (so : option (list Security.t)) (st : portfolio) :
  add_trade d name t so st
  = match dict_get Z.eqb d (trades st) with
    | Some names =>
        match merge_trades
                (dict_get_or String.eqb name (mk_trade nzero nzero) names) t
        with
        | Ok merged =>
            _apply_trade d name t so
              (set_trades
                 (dict_set Z.eqb d (dict_set String.eqb name merged names)
                    (trades st)) st)
        | Raise e => (Raise e, st)
        end
    | None =>
        _apply_trade d name t so
          (set_trades (dict_set Z.eqb d [(name, t)] (trades st)) st)
    end.
Proof.
  unfold add_trade. unfold bind at 1. unfold gets at 1.
  destruct (dict_get Z.eqb d (trades st)) as [names|]; [|reflexivity].
  unfold bind at 1. unfold bind at 1. unfold lift at 1.
  now destruct (merge_trades _ t).
Qed.

(** X10.  A position cannot be closed by an opposite trade on the day it
    was opened: when a trade on the name is already recorded for the date
    and the quantities sum to exactly 0, [add_trade] raises
    [ZeroDivisionError] and leaves trades and positions as they were. *)
Theorem add_trade_opposite_raises (st : portfolio) (d : date) (name : string)
  (t t0 : trade) (so : option (list Security.t))
  (names : dict string trade) :
  dict_get Z.eqb d (trades st) = Some names ->
  dict_get String.eqb name names = Some t0 ->
  (qty t0 + qty t)%num = nzero ->
  add_trade d name t so st = (Raise ZeroDivisionError, st).
Proof.
  intros Hd Hn Hz. rewrite add_trade_unfold, Hd.
  unfold dict_get_or. rewrite Hn. unfold merge_trades.
  now rewrite Hz, ndiv_zero.
Qed.

Lemma add_trade_opposite_raises_witness :
  add_trade 1 "X" (mk_trade (int (-10)) (int 55)) None long_x
  = (Raise ZeroDivisionError, long_x).
Proof.
  apply (add_trade_opposite_raises long_x 1 "X"
           (mk_trade (int (-10)) (int 55)) (mk_trade (int 10) (int 50)) None
           [("X", mk_trade (int 10) (int 50))]).
  - reflexivity.
  - reflexivity.
  - reflexivity.
Defined.

Lemma merge_with_empty_trade (q p : Qc) :
  q <> 0%Qc ->
  merge_trades (mk_trade nzero nzero) (finite_trade q p)
  = Ok (mk_trade (Fin q) (Fin (q * p / q)%Qc)).
Proof.
  intros Hq. unfold merge_trades, finite_trade. cbn [qty price].
  rewrite !nadd_0_l. unfold nmul. now rewrite ndiv_fin by exact Hq.
Qed.

(** X11.  The first trade of a name on a date is recorded as it is when
    the date has no trades yet, whatever its quantity.  When the date has
    trades of other names only it is merged with the empty trade [(0, 0)]:
    a finite trade of non-zero quantity [q] at price [p] is recorded with
    quantity [q] and the price [(q * p) / q] that the merge computes, while
    a trade of quantity 0 raises [ZeroDivisionError] and changes nothing.
    What is recorded stays recorded even if applying the trade to the
    positions raises afterwards. *)
Theorem add_trade_first_of_name (st : portfolio) (d : date) (name : string)
  (so : option (list Security.t)) :
  (forall t,
      dict_get Z.eqb d (trades st) = None ->
      trades (snd (add_trade d name t so st))
      = dict_set Z.eqb d [(name, t)] (trades st))
  /\ (forall names q p,
        dict_get Z.eqb d (trades st) = Some names ->
        dict_get String.eqb name names = None ->
        q <> 0%Qc ->
        exists p',
          ndiv (Fin q * Fin p)%num (Fin q) = Ok p'
          /\ trades (snd (add_trade d name (finite_trade q p) so st))
             = dict_set Z.eqb d
                 (dict_set String.eqb name (mk_trade (Fin q) p') names)
                 (trades st))
  /\ (forall names p,
        dict_get Z.eqb d (trades st) = Some names ->
        dict_get String.eqb name names = None ->
        add_trade d name (mk_trade nzero p) so st
        = (Raise ZeroDivisionError, st)).
Proof.
  split; [|split].
  - intros t Hd. rewrite add_trade_unfold, Hd.
    destruct (apply_trade_shape d name t so
                (set_trades (dict_set Z.eqb d [(name, t)] (trades st)) st))
      as [o Ho].
    rewrite Ho. now destruct o.
  - intros names q p Hd Hn Hq. exists (Fin (q * p / q)%Qc). split.
    + unfold nmul. now apply ndiv_fin.
    + rewrite add_trade_unfold, Hd.
      unfold dict_get_or. rewrite Hn, merge_with_empty_trade by exact Hq.
      destruct (apply_trade_shape d name (finite_trade q p) so
                  (set_trades
                     (dict_set Z.eqb d
                        (dict_set String.eqb name
                           (mk_trade (Fin q) (Fin (q * p / q)%Qc)) names)
                        (trades st)) st))
        as [o Ho].
      rewrite Ho. now destruct o.
  - intros names p Hd Hn. rewrite add_trade_unfold, Hd.
    unfold dict_get_or. rewrite Hn. unfold merge_trades. cbn [qty price].
    now rewrite nadd_0_l, ndiv_zero.
Qed.

Lemma add_trade_first_of_name_witness :
  (exists p',
      ndiv (Fin (Q2Qc 2) * Fin (Q2Qc 7))%num (Fin (Q2Qc 2)) = Ok p'
      /\ trades (snd (add_trade 1 "Y" (finite_trade (Q2Qc 2) (Q2Qc 7)) None
                        long_x))
         = dict_set Z.eqb 1%Z
             (dict_set String.eqb "Y" (mk_trade (Fin (Q2Qc 2)) p')
                [("X", mk_trade (int 10) (int 50))]) (trades long_x))
  /\ add_trade 1 "Y" (mk_trade nzero (int 7)) None long_x
     = (Raise ZeroDivisionError, long_x).
Proof.
  destruct (add_trade_first_of_name long_x 1 "Y" None) as (_ & H2 & H3).
  split.
  - apply H2; [reflexivity | reflexivity |].
    intros H. apply (f_equal this) in H. discriminate H.
  - apply (H3 [("X", mk_trade (int 10) (int 50))]); reflexivity.
Defined.

Lemma apply_trade_lookups (st : portfolio) (d : date) (name : string)
  (t : trade) (so : option (list Security.t)) (snap : snapshot) :
  dict_get Z.eqb d (positions st) = Some snap ->
  uniq_keys String.eqb snap = true ->
  let cur := currency st in
  let st' := snd (_apply_trade d name t so st) in
  let after := dict_get Z.eqb d (positions st') in
  fst (_apply_trade d name t so st) = Ok tt
  /\ (name <> cur ->
      lookup cur after
      = Some (held cur (Some snap) - qty t * price t)%num
      /\ lookup name after
         = (if eq_zero (held name (Some snap) + qty t)%num then None
            else Some (held name (Some snap) + qty t)%num))
  /\ (name = cur ->
      lookup cur after
      = Some (held cur (Some snap) + qty t - qty t * price t)%num)
  /\ (forall k, k <> name -> k <> cur ->
        lookup k after = dict_get String.eqb k snap)
  /\ (forall d', d' <> d ->
        dict_get Z.eqb d' (positions st') = dict_get Z.eqb d' (positions st)).
Proof.
  intros Hd Hu cur st' after. unfold after, st'.
  rewrite (apply_trade_present d name t so snap st Hd). cbn [fst snd].
  rewrite positions_put_snapshot_same. fold cur. cbn [lookup].
  split; [reflexivity|].
  unfold traded.
  set (v1 := (dict_get_or String.eqb name nzero snap + qty t)%num).
  set (s1 := dict_set String.eqb name v1 snap).
  set (v2 := (dict_get_or String.eqb cur nzero s1 - qty t * price t)%num).
  set (s2 := dict_set String.eqb cur v2 s1).
  assert (Hu2 : uniq_keys String.eqb s2 = true).
  { unfold s2, s1. now do 2 apply (uniq_keys_set _ Seqb_eq). }
  assert (Hcur2 : dict_get String.eqb cur s2 = Some v2)
    by apply (dict_get_set_same _ Seqb_eq).
  assert (Hother : forall k, k <> name -> k <> cur ->
                             dict_get String.eqb k s2 = dict_get String.eqb k snap).
  { intros k H1 H2. unfold s2, s1.
    now rewrite !(dict_get_set_other _ Seqb_eq). }
  split; [|split; [|split]].
  - intros Hne.
    assert (Hname2 : dict_get String.eqb name s2 = Some v1).
    { unfold s2. rewrite (dict_get_set_other _ Seqb_eq) by exact Hne.
      apply (dict_get_set_same _ Seqb_eq). }
    assert (Hv2 : v2 = (held cur (Some snap) - qty t * price t)%num).
    { unfold v2, held, dict_get_or, s1. cbn [lookup].
      rewrite (dict_get_set_other _ Seqb_eq) by congruence. reflexivity. }
    assert (Hv1 : v1 = (held name (Some snap) + qty t)%num) by reflexivity.
    rewrite Hname2. apply String.eqb_neq in Hne as Hb. rewrite Hb.
    cbn [negb]. rewrite andb_true_r, <- Hv1, <- Hv2.
    destruct (eq_zero v1).
    + split.
      * rewrite (dict_get_del_other _ Seqb_eq) by congruence. exact Hcur2.
      * now apply (dict_get_del_same _ Seqb_eq).
    + now split.
  - intros Heq.
    assert (Hname2 : dict_get String.eqb name s2 = Some v2)
      by (rewrite Heq; exact Hcur2).
    assert (Hb : String.eqb name cur = true) by (now apply String.eqb_eq).
    rewrite Hname2, Hb. cbn [negb]. rewrite andb_false_r, Hcur2.
    f_equal. unfold v2, s1, v1, held, dict_get_or. cbn [lookup].
    rewrite <- Heq. now rewrite (dict_get_set_same _ Seqb_eq).
  - intros k H1 H2.
    destruct (dict_get String.eqb name s2) as [q|] eqn:Hq.
    + destruct (eq_zero q && negb (String.eqb name cur)).
      * rewrite (dict_get_del_other _ Seqb_eq) by exact H1. now apply Hother.
      * now apply Hother.
    + now apply Hother.
  - intros d' Hne. now apply positions_put_snapshot_other.
Qed.

(** X12.  On a date that has a snapshot, applying a trade on a name other
    than the currency returns normally, lowers the currency balance by
    [qty * price], raises the quantity of the name by [qty] and deletes the
    name when that quantity becomes exactly 0; no other name and no other
    date changes.  A trade on the currency itself changes its balance by
    [qty - qty * price]. *)
Theorem apply_trade_moves_cash (st : portfolio) (d : date) (name : string)
  (t : trade) (so : option (list Security.t)) (snap : snapshot) :
  dict_get Z.eqb d (positions st) = Some snap ->
  uniq_keys String.eqb snap = true ->
  let cur := currency st in
  let st' := snd (_apply_trade d name t so st) in
  let after := dict_get Z.eqb d (positions st') in
  fst (_apply_trade d name t so st) = Ok tt
  /\ (name <> cur ->
      lookup cur after
      = Some (held cur (Some snap) - qty t * price t)%num
      /\ lookup name after
         = (if eq_zero (held name (Some snap) + qty t)%num then None
            else Some (held name (Some snap) + qty t)%num))
  /\ (name = cur ->
      lookup cur after
      = Some (held cur (Some snap) + qty t - qty t * price t)%num)
  /\ (forall k, k <> name -> k <> cur ->
        lookup k after = dict_get String.eqb k snap)
  /\ (forall d', d' <> d ->
        dict_get Z.eqb d' (positions st') = dict_get Z.eqb d' (positions st)).
Proof. exact (apply_trade_lookups st d name t so snap). Qed.

Lemma apply_trade_moves_cash_witness :
  lookup "USD"
    (dict_get Z.eqb 1%Z
       (positions (snd (_apply_trade 1 "X" (mk_trade (int (-10)) (int 55))
                          None long_x))))
  = Some (held "USD" (Some [("USD", int (-500)); ("X", int 10)])
          - int (-10) * int 55)%num
  /\ lookup "X"
       (dict_get Z.eqb 1%Z
          (positions (snd (_apply_trade 1 "X" (mk_trade (int (-10)) (int 55))
                             None long_x))))
     = (if eq_zero (held "X" (Some [("USD", int (-500)); ("X", int 10)])
                    + int (-10))%num
        then None
        else Some (held "X" (Some [("USD", int (-500)); ("X", int 10)])
                   + int (-10))%num).
Proof.
  apply (apply_trade_moves_cash long_x 1 "X" (mk_trade (int (-10)) (int 55))
           None [("USD", int (-500)); ("X", int 10)]).
  - compute_eq.
  - reflexivity.
  - discriminate.
Defined.

(** ** [value] and the weighted queries *)

(** X13.  At a materialized date whose held names other than the currency
    all have an object, [value] returns a breakdown over exactly the held
    names: the currency at its balance (unit value 1, no object needed) and
    every instrument at unit value times quantity, a unit value that is not
    a number counting as 0; the total is the sum of the breakdown, the
    ledger is left as it is and one line is printed per instrument without
    value. *)
Theorem value_breakdown_entries (d : date) (so : option (list Security.t))
  (snap : snapshot) (st : portfolio) :
  let cur := currency st in
  let objs := objects_or_default so st in
  dict_get Z.eqb d (positions st) = Some snap ->
  uniq_keys String.eqb snap = true ->
  (forall n, In n (dict_keys snap) -> n = cur \/ resolves objs n = true) ->
  exists total bd st',
    value d so st = (Ok (total, bd), st')
    /\ total = sum (dict_values bd)
    /\ dict_keys bd = dict_keys snap
    /\ (forall q, dict_get String.eqb cur snap = Some q ->
          dict_get String.eqb cur bd = Some q)
    /\ (forall n q s, n <> cur ->
          dict_get String.eqb n snap = Some q ->
          get_security n objs = Found s ->
          dict_get String.eqb n bd
          = Some ((if isnan (Security.value s d) then nzero
                   else Security.value s d) * q)%num)
    /\ same_ledger st st'
    /\ stdout st' = stdout st ++ flat_map (value_diag cur objs d) (dict_keys snap).
Proof.
  intros cur objs Hd Hu Hres.
  rewrite (value_eq d so snap st Hd Hu Hres). fold cur objs.
  do 3 eexists. split; [reflexivity|]. split; [reflexivity|].
  split; [|split; [|split; [|split]]].
  - unfold value_breakdown, dict_keys. now rewrite map_map.
  - intros q Hq. unfold value_breakdown.
    rewrite (dict_get_map_entries
               (fun k x => (unit_value_of cur objs d k * x)%num)), Hq.
    cbn [option_map]. now rewrite unit_value_of_currency, nmul_1_l.
  - intros n q s Hn Hq Hs. unfold value_breakdown.
    rewrite (dict_get_map_entries
               (fun k x => (unit_value_of cur objs d k * x)%num)), Hq.
    cbn [option_map]. unfold unit_value_of.
    apply String.eqb_neq in Hn. now rewrite Hn, Hs.
  - now repeat split.
  - reflexivity.
Qed.

Lemma value_breakdown_entries_witness :
  exists total bd st',
    value 1 None mixed = (Ok (total, bd), st')
    /\ dict_get String.eqb "USD" bd = Some (int 100)
    /\ stdout st' = [Null_value "V" 1].
Proof.
  destruct (value_breakdown_entries 1 None
              [("USD", int 100); ("A", int 6); ("N", int 2); ("V", int 3)]
              mixed)
    as (total & bd & st' & Hv & _ & _ & Hcur & _ & _ & Hout).
  - reflexivity.
  - reflexivity.
  - simpl. intros n [<-|[<-|[<-|[<-|[]]]]];
      [now left | right; reflexivity ..].
  - exists total, bd, st'. split; [exact Hv|]. split; [|exact Hout].
    apply Hcur. reflexivity.
Defined.

Lemma weighted_query_raises_extra (m : metric) (d : date)
  (so : option (list Security.t)) (kw : kwargs) (e : exn) (snap : snapshot)
  (st : portfolio) :
  dict_get Z.eqb d (positions st) = Some snap ->
  uniq_keys String.eqb snap = true ->
  (forall n, In n (dict_keys snap) ->
     n = currency st \/ resolves (objects_or_default so st) n = true) ->
  extra_args m kw d = Raise e ->
  weighted_query m d so kw st
  = (Raise e,
     with_stdout
       (flat_map (value_diag (currency st) (objects_or_default so st) d)
                 (dict_keys snap)) st).
Proof.
  intros Hd Hu Hres Hex. unfold weighted_query.
  unfold bind at 1. unfold gets at 1. unfold bind at 1.
  rewrite carry_to_present by (unfold dict_mem; now rewrite Hd).
  unfold bind at 1.
  rewrite (value_eq d (Some (objects_or_default so st)) snap st Hd Hu Hres).
  unfold bind at 1. unfold lift at 1. now rewrite Hex.
Qed.

(** X14.  The z-spread queries and [oas] read
    [kwargs['yield_curve_timeseries']] only after [value] has run: at a
    materialized date where [value] succeeds they raise [KeyError] when the
    key is missing, whatever the holdings and even when the total value is
    0, after the lines of [value] were printed. *)
Theorem spread_query_needs_curve (m : metric) (d : date)
  (so : option (list Security.t)) (kw : kwargs) (snap : snapshot)
  (st : portfolio) :
  m = Zspread_to_mat \/ m = Zspread_to_worst
  \/ m = Zspread_to_worst_rolling_call \/ m = Oas ->
  yield_curve_timeseries kw = None ->
  dict_get Z.eqb d (positions st) = Some snap ->
  uniq_keys String.eqb snap = true ->
  (forall n, In n (dict_keys snap) ->
     n = currency st \/ resolves (objects_or_default so st) n = true) ->
  weighted_query m d so kw st
  = (Raise KeyError,
     with_stdout
       (flat_map (value_diag (currency st) (objects_or_default so st) d)
                 (dict_keys snap)) st).
Proof.
  intros Hm Hkw Hd Hu Hres. apply weighted_query_raises_extra; trivial.
  destruct Hm as [-> | [-> | [-> | ->]]]; unfold extra_args; now rewrite Hkw.
Qed.

Lemma spread_query_needs_curve_witness :
  weighted_query Zspread_to_mat 1 None no_kwargs long_x
  = (Raise KeyError,
     with_stdout
       (flat_map (value_diag "USD" (security_objects long_x) 1)
                 ["USD"; "X"]) long_x).
Proof.
  apply (spread_query_needs_curve Zspread_to_mat 1 None no_kwargs
           [("USD", int (-500)); ("X", int 10)] long_x).
  - now left.
  - reflexivity.
  - compute_eq.
  - reflexivity.
  - simpl. intros n [<-|[<-|[]]]; [now left | right; reflexivity].
Defined.

(** ** [copy] shares the snapshots *)

Lemma nth_replace_same (r : nat) (s : snapshot) (l : list snapshot) :
  (r < length l)%nat -> nth r (Shared.replace_nth r s l) [] = s.
Proof.
  revert r. induction l as [|x rest IH]; intros r Hr; simpl in Hr; [lia|].
  destruct r as [|r']; simpl; trivial. apply IH. lia.
Qed.

Lemma nth_replace_other (r r' : nat) (s : snapshot) (l : list snapshot) :
  r <> r' -> nth r' (Shared.replace_nth r s l) [] = nth r' l [].
Proof.
  revert r r'. induction l as [|x rest IH]; intros r r' Hne.
  - now destruct r, r'.
  - destruct r as [|r0], r' as [|r0']; simpl; trivial; [congruence|].
    apply IH. congruence.
Qed.

Lemma length_replace_nth (r : nat) (s : snapshot) (l : list snapshot) :
  length (Shared.replace_nth r s l) = length l.
Proof.
  revert r. induction l as [|x rest IH]; intros [|r]; simpl; trivial.
  now rewrite IH.
Qed.

(** X18.  [copy] is shallow.  After [c = p.copy()], an [add_position]
    through [c] at a date that [p] holds changes the snapshot of [p] at
    that date as if it had been called on [p], and both portfolios go on
    reading the same snapshot; at a date that [p] does not hold it creates
    the entry in [c] only and leaves every snapshot of [p] as it was. *)
Theorem copy_shares_snapshots (h : Shared.heap) (p : Shared.t) (d : date)
  (name : string) (q : num) :
  Shared.in_store h p ->
  let c := Shared.copy p in
  let c' := fst (Shared.add_position d name q c h) in
  let h' := snd (Shared.add_position d name q c h) in
  (forall snap,
      Shared.snapshot_at h p d = Some snap ->
      Shared.snapshot_at h' p d = Some (add_snap name q (Some snap))
      /\ Shared.snapshot_at h' c' d = Shared.snapshot_at h' p d)
  /\ (Shared.snapshot_at h p d = None ->
      Shared.snapshot_at h' c' d = Some [(name, q)]
      /\ forall d', Shared.snapshot_at h' p d' = Shared.snapshot_at h p d')
  /\ (Shared.unshared p ->
      forall d', d' <> d ->
        Shared.snapshot_at h' p d' = Shared.snapshot_at h p d').
Proof.
  intros Hstore c c' h'. unfold c', h', c, Shared.add_position, Shared.copy.
  cbn [Shared.positions Shared.init Shared.currency Shared.security_objects].
  unfold Shared.snapshot_at.
  destruct (dict_get Z.eqb d (Shared.positions p)) as [r|] eqn:Hd.
  - cbn [fst snd Shared.positions]. rewrite Hd.
    assert (Hr := Hstore d r Hd).
    split; [|split].
    + intros snap Hsnap. inversion Hsnap as [Hs]. split; [|reflexivity].
      f_equal. unfold Shared.deref, Shared.set_deref. cbn [Shared.snapshots].
      now rewrite nth_replace_same.
    + discriminate.
    + intros Hun d' Hne.
      destruct (dict_get Z.eqb d' (Shared.positions p)) as [r'|] eqn:Hd';
        trivial.
      f_equal. unfold Shared.deref, Shared.set_deref. cbn [Shared.snapshots].
      apply nth_replace_other. intros <-. apply Hne. now apply (Hun d' d r).
  - unfold Shared.alloc. cbn [fst snd Shared.positions Shared.snapshots].
    split; [discriminate|]. split.
    + intros _. split.
      * rewrite (dict_get_set_same _ Zeqb_eq). f_equal.
        unfold Shared.deref. cbn [Shared.snapshots].
        rewrite app_nth2 by lia. now rewrite Nat.sub_diag.
      * intros d'.
        destruct (dict_get Z.eqb d' (Shared.positions p)) as [r'|] eqn:Hd';
          trivial.
        f_equal. unfold Shared.deref. cbn [Shared.snapshots].
        apply app_nth1. now apply (Hstore d' r').
    + intros _ d' _.
      destruct (dict_get Z.eqb d' (Shared.positions p)) as [r'|] eqn:Hd';
        trivial.
      f_equal. unfold Shared.deref. cbn [Shared.snapshots].
      apply app_nth1. now apply (Hstore d' r').
Qed.

Lemma copy_shares_snapshots_witness :
  Shared.snapshot_at
    (snd (Shared.add_position 1 "A" (int 1)
            (Shared.copy (Shared.mk [(1%Z, 0%nat)] [] "USD" []))
            (Shared.mk_heap [[("A", int 6)]] [])))
    (Shared.mk [(1%Z, 0%nat)] [] "USD" []) 1
  = Some (add_snap "A" (int 1) (Some [("A", int 6)])).
Proof.
  apply (copy_shares_snapshots (Shared.mk_heap [[("A", int 6)]] [])
           (Shared.mk [(1%Z, 0%nat)] [] "USD" []) 1 "A" (int 1)).
  - intros d r. simpl. destruct (d =? 1)%Z; [|discriminate].
    intros H. inversion H. lia.
  - reflexivity.
Defined.

(** X19.  For a portfolio whose dates hold distinct dictionaries, as the
    methods build it when no copy is involved, [add_position] through the
    store and [add_position] on the ledger taken as a value agree: from
    ledgers with the same snapshots they lead to ledgers with the same
    snapshots, and the addresses stay in the store and distinct. *)
Theorem add_position_through_store (h : Shared.heap) (p : Shared.t)
  (st : portfolio) (d : date) (name : string) (q : num) :
  Shared.in_store h p ->
  Shared.unshared p ->
  (forall d', Shared.snapshot_at h p d' = dict_get Z.eqb d' (positions st)) ->
  let p' := fst (Shared.add_position d name q p h) in
  let h' := snd (Shared.add_position d name q p h) in
  (forall d',
      Shared.snapshot_at h' p' d'
      = dict_get Z.eqb d' (positions (snd (add_position d name q st))))
  /\ Shared.in_store h' p'
  /\ Shared.unshared p'.
Proof.
  intros Hstore Hun Hsame p' h'. unfold p', h'.
  rewrite add_position_eq. cbn [snd].
  unfold Shared.add_position.
  assert (Hd0 := Hsame d). unfold Shared.snapshot_at in Hd0.
  destruct (dict_get Z.eqb d (Shared.positions p)) as [r|] eqn:Hd;
    cbn [fst snd].
  - assert (Hr := Hstore d r Hd). split; [|split].
    + intros d'. unfold Shared.snapshot_at.
      destruct (Z.eqb_spec d' d) as [->|Hne].
      * rewrite Hd, positions_put_snapshot_same, <- Hd0. f_equal.
        unfold Shared.deref at 1, Shared.set_deref. cbn [Shared.snapshots].
        now rewrite nth_replace_same.
      * rewrite positions_put_snapshot_other by exact Hne.
        rewrite <- Hsame. unfold Shared.snapshot_at.
        destruct (dict_get Z.eqb d' (Shared.positions p)) as [r'|] eqn:Hd';
          trivial.
        f_equal. unfold Shared.deref, Shared.set_deref. cbn [Shared.snapshots].
        apply nth_replace_other. intros <-. apply Hne. now apply (Hun d' d r).
    + intros d' r' Hd'. unfold Shared.set_deref. cbn [Shared.snapshots].
      rewrite length_replace_nth. now apply (Hstore d' r').
    + exact Hun.
  - unfold Shared.alloc. cbn [fst snd]. split; [|split].
    + intros d'. unfold Shared.snapshot_at. cbn [Shared.positions].
      destruct (Z.eqb_spec d' d) as [->|Hne].
      * rewrite (dict_get_set_same _ Zeqb_eq), positions_put_snapshot_same.
        rewrite <- Hd0. f_equal. unfold Shared.deref. cbn [Shared.snapshots].
        rewrite app_nth2 by lia. now rewrite Nat.sub_diag.
      * rewrite (dict_get_set_other _ Zeqb_eq) by exact Hne.
        rewrite positions_put_snapshot_other by exact Hne.
        rewrite <- Hsame. unfold Shared.snapshot_at.
        destruct (dict_get Z.eqb d' (Shared.positions p)) as [r'|] eqn:Hd';
          trivial.
        f_equal. unfold Shared.deref. cbn [Shared.snapshots].
        apply app_nth1. now apply (Hstore d' r').
    + intros d' r'. cbn [Shared.positions Shared.snapshots].
      rewrite length_app. simpl.
      destruct (Z.eqb_spec d' d) as [->|Hne].
      * rewrite (dict_get_set_same _ Zeqb_eq). intros H. inversion H. lia.
      * rewrite (dict_get_set_other _ Zeqb_eq) by exact Hne.
        intros H. specialize (Hstore d' r' H). lia.
    + intros d1 d2 r'. cbn [Shared.positions].
      destruct (Z.eqb_spec d1 d) as [->|H1], (Z.eqb_spec d2 d) as [->|H2];
        trivial.
      * rewrite (dict_get_set_same _ Zeqb_eq).
        rewrite (dict_get_set_other _ Zeqb_eq) by exact H2.
        intros Ha Hb. inversion Ha; subst r'.
        specialize (Hstore d2 _ Hb). lia.
      * rewrite (dict_get_set_same _ Zeqb_eq).
        rewrite (dict_get_set_other _ Zeqb_eq) by exact H1.
        intros Ha Hb. inversion Hb; subst r'.
        specialize (Hstore d1 _ Ha). lia.
      * rewrite !(dict_get_set_other _ Zeqb_eq) by trivial. apply Hun.
Qed.

Lemma add_position_through_store_witness :
  Shared.snapshot_at
    (snd (Shared.add_position 2 "A" (int 1)
            (Shared.mk [(1%Z, 0%nat)] [] "USD" [])
            (Shared.mk_heap [[("A", int 6); ("B", int 4)]] [])))
    (fst (Shared.add_position 2 "A" (int 1)
            (Shared.mk [(1%Z, 0%nat)] [] "USD" [])
            (Shared.mk_heap [[("A", int 6); ("B", int 4)]] []))) 2%Z
  = dict_get Z.eqb 2%Z
      (positions (snd (add_position 2 "A" (int 1) two_bonds))).
Proof.
  apply (add_position_through_store
           (Shared.mk_heap [[("A", int 6); ("B", int 4)]] [])
           (Shared.mk [(1%Z, 0%nat)] [] "USD" []) two_bonds 2 "A" (int 1)).
  - intros d r. simpl. destruct (d =? 1)%Z; [|discriminate].
    intros H. inversion H. lia.
  - intros d1 d2 r. simpl.
    destruct (Z.eqb_spec d1 1), (Z.eqb_spec d2 1); congruence.
  - intros d'. unfold Shared.snapshot_at. simpl.
    now destruct (d' =? 1)%Z.
Defined.
